(** * fit_motion: sliding-window IMU/GPS calibration driver

    A shallow embedding of [src/fit_motion.cc] (the [main] of the
    accelerometer auto-calibration binary and its two JSON readers) and the
    properties of its control flow, its sliding-window loop, its
    per-timestamp accumulation map and its averaging stage; and of the
    target voltage smoother of kia-spoof-steering, which the same file
    carries in its lines 243-356.

    Conventions.
    - [double] is IEEE binary64, modelled by the kernel's primitive [float]
      with its specification [Prim2SF] / [SpecFloat].
    - [size_t] is a 64-bit unsigned integer: a [Z] with its wrap-around
      written out ([size_t_wrap]); [int64] and [long] are [Z].
    - [std::map<size_t, T>] is a [gmap N T]; iteration goes through the
      entries sorted by key, as [std::map] iterates.
    - [CHECK] failures, uncaught exceptions and aborts inside library calls
      end the run: computations live in the monad [M] that carries the trace
      of external events up to the point where the run ended.
    - Functions of the repository (and of third-party libraries) that [main]
      calls but whose code is not in [fit_motion.cc] are fields of the record
      [Externals]; every property is proved for all of them.
    - [uint16_t] and [int16_t] of the smoother are [Z] with the wrap-around
      written out; the width of [int], which decides the promotions, is a
      parameter ([IntWidth]). *)

From Stdlib Require Import ZArith Lia List Floats Uint63.
From stdpp Require Import base option list gmap sorting strings pretty.
Import ListNotations.

Local Open Scope Z_scope.

(* ================================================================== *)
(** ** Machine integers *)

Definition size_t_wrap (z : Z) : Z := z mod 2 ^ 64.
Definition PTRDIFF_MAX : Z := 2 ^ 63 - 1.
Definition INT64_MAX : Z := 2 ^ 63 - 1.

(** The [⌈n / d⌉] of the specification. *)
Definition ceil_div (n d : Z) : Z := (n + d - 1) / d.

(* ================================================================== *)
(** ** Doubles *)

(** [static_cast<double>] of a container size; a [std::vector] holds fewer
    than [2^63] elements, the range of [of_uint63]. *)
Definition double_of_size (n : nat) : float :=
  PrimFloat.of_uint63 (Uint63.of_Z (Z.of_nat n)).

(** [static_cast<double>] of a [long]: the correctly rounded value. *)
Definition double_of_long (z : Z) : float :=
  SF2Prim (binary_normalize prec emax z 0 false).

(** The literal [1e-6]. *)
Definition micro : float := 0x1.0c6f7a0b5ed8dp-20%float.

(** The sign bit is clear, or the value is a NaN: what can be said of a
    double that was computed as a sum of squares, a square root of one, a
    sum of such values from [0.0], or a quotient of two such values. *)
Definition SF_sign_clear (X : spec_float) : bool :=
  match X with
  | S754_nan => true
  | S754_zero s | S754_infinity s | S754_finite s _ _ => negb s
  end.

Definition never_negative (x : float) : Prop :=
  SF_sign_clear (Prim2SF x) = true.

(** The double [1.0] in the specification format. *)
Definition SF_one : spec_float := S754_finite false 4503599627370496 (-52).

(* ================================================================== *)
(** ** Data carried through [main] *)

(** [pilotguru::TimestampedRotationVelocity] and
    [pilotguru::TimestampedAcceleration]: the aggregate
    [{x, y, z, time_usec}] that [ReadTimestamp3DData] builds. *)
Record Timestamped3D := mkT3D {
  t3_x : float; t3_y : float; t3_z : float; t3_time_usec : Z
}.

(** [pilotguru::TimestampedVelocity]: the aggregate [{speed, time_usec}]. *)
Record TimestampedVelocity := mkTV { tv_velocity : float; tv_time_usec : Z }.

(** [Eigen::Vector3d] / [cv::Vec3d]. *)
Record Vec3 := mkVec3 { vx : float; vy : float; vz : float }.

(** [Eigen]'s [norm()]: the square root of [squaredNorm()], the sum of the
    squared coefficients. *)
Definition norm (v : Vec3) : float :=
  PrimFloat.sqrt (vx v * vx v + (vy v * vy v + vz v * vz v))%float.

(** [pilotguru::MotionIntegrationOutcome]: [main] reads its [velocity]. *)
Record MotionIntegrationOutcome := mkOutcome { velocity : Vec3 }.

(** The nine-dimensional [Eigen::VectorXd x] of the optimizer. *)
Record Vector9 := mkVector9 {
  x0 : float; x1 : float; x2 : float;
  x3 : float; x4 : float; x5 : float;
  x6 : float; x7 : float; x8 : float
}.

Definition Vector9_Zero : Vector9 :=
  mkVector9 0 0 0 0 0 0 0 0 0.

(** [LBFGSpp::LBFGSParam<double>], the two fields [main] sets. *)
Record LBFGSParam := mkParam { epsilon : float; max_iterations : Z }.

(** [cv::Mat] read through [at<double>(row, col)]. *)
Record Mat := mkMat { mat_at : nat → nat → float }.

(** The gflags of the binary. *)
Record Flags := mkFlags {
  FLAGS_rotations_json : string;
  FLAGS_accelerations_json : string;
  FLAGS_locations_json : string;
  FLAGS_velocities_out_json : string;
  FLAGS_steering_out_json : string;
  FLAGS_locations_batch_size : Z;
  FLAGS_locations_shift_step : Z;
  FLAGS_optimization_iters : float;
  FLAGS_post_smoothing_sigma_sec : float
}.

Unset Elimination Schemes.
(** A JSON document of the nlohmann library. *)
Inductive json :=
| JNull
| JBool (b : bool)
| JInt (z : Z)
| JFloat (f : float)
| JString (s : string)
| JArray (items : list json)
| JObject (members : list (string * json)).
Set Elimination Schemes.

Fixpoint json_member (members : list (string * json)) (key : string)
    : option json :=
  match members with
  | [] => None
  | (k, v) :: rest => if String.eqb k key then Some v else json_member rest key
  end.

(** [basic_json::empty()]: null is empty, arrays and objects are empty
    when they have no element, every other value is not. *)
Definition json_empty (j : json) : bool :=
  match j with
  | JNull => true
  | JArray [] => true
  | JObject [] => true
  | _ => false
  end.

(** The non-const [operator[](key)] applied to the document root: null
    turns into an object, a missing key is created with a null value, a
    value that is not an object throws. *)
Definition json_index (j : json) (key : string) : option json :=
  match j with
  | JNull => Some JNull
  | JObject members => Some (default JNull (json_member members key))
  | _ => None
  end.

(** The const [operator[](key)] applied to an entry: the value of an
    existing key of an object; anything else ends the run. *)
Definition json_at (j : json) (key : string) : option json :=
  match j with
  | JObject members => json_member members key
  | _ => None
  end.

(** What a range-[for] over a JSON value visits. *)
Definition json_items (j : json) : list json :=
  match j with
  | JNull => []
  | JArray items => items
  | JObject members => members.*2
  | v => [v]
  end.

(* ================================================================== *)
(** ** Runs: traces, fatal errors, the monad *)

(** The calls that do work outside [main]. *)
Inductive Stage :=
| StReadJson
| StJsonAccess
| StPrincipalAxes
| StTurnAngles
| StWriteJson
| StCalibrator
| StMinimize
| StIntegrate
| StMergedTime
| StSmooth.

(** What the outside world sees of a run, in order: a file that is opened
    for reading, an external computation that is started (for the window
    given, if any), the series handed to the smoother, and a file that was
    written, with the source line of the call and the arguments given to
    [JsonWriteTimestampedRealData]. *)
Inductive Event :=
| EvRead (filename : string)
| EvCompute (st : Stage) (window : option (Z * Z))
| EvSmooth (values times : list float) (sigma : float)
| EvWrite (line : nat) (filename root_key value_key : string)
          (timestamps : list Z) (values : list float).

(** A run ends by a failed [CHECK] (glog aborts the process) or by an
    abort inside an external call (a [CHECK] of its own, an uncaught
    exception); both are identified by the source line. *)
Inductive Fatal :=
| CheckFailed (line : nat)
| Aborted (st : Stage) (line : nat).

Definition fatal_line (f : Fatal) : nat :=
  match f with
  | CheckFailed line => line
  | Aborted _ line => line
  end.

Inductive Result (A : Type) :=
| Ok (a : A)
| Abort (f : Fatal)
| OutOfFuel.
Arguments Ok {A} a.
Arguments Abort {A} f.
Arguments OutOfFuel {A}.

Definition M (A : Type) : Type := list Event * Result A.

Definition M_ret {A} (a : A) : M A := ([], Ok a).

Definition M_bind {A B} (f : A → M B) (m : M A) : M B :=
  match m with
  | (t, Ok a) => let '(t', r) := f a in (t ++ t', r)
  | (t, Abort e) => (t, Abort e)
  | (t, OutOfFuel) => (t, OutOfFuel)
  end.

#[export] Instance M_mret : MRet M := @M_ret.
#[export] Instance M_mbind : MBind M := @M_bind.

(** [CHECK(cond)] at a source line. *)
Definition CHECK (line : nat) (cond : bool) : M unit :=
  if cond then mret () else ([], Abort (CheckFailed line)).

(** An external call at a source line: the event is seen when the call
    starts, and the run ends there when the call aborts. *)
Definition call {A} (ev : Event) (st : Stage) (line : nat) (r : option A)
    : M A :=
  match r with
  | Some a => ([ev], Ok a)
  | None => ([ev], Abort (Aborted st line))
  end.

(** An external call that leaves no event of its own. *)
Definition quiet {A} (st : Stage) (line : nat) (r : option A) : M A :=
  match r with
  | Some a => mret a
  | None => ([], Abort (Aborted st line))
  end.

(** A write: the event is seen when the file has been written. *)
Definition written (ev : Event) (line : nat) (r : option unit) : M unit :=
  match r with
  | Some _ => ([ev], Ok ())
  | None => ([], Abort (Aborted StWriteJson line))
  end.

(** Left-to-right monadic fold: a range-[for] whose body may end the run. *)
Fixpoint foldM {A S} (body : A → S → M S) (l : list A) (s : S) : M S :=
  match l with
  | [] => mret s
  | a :: l' => s' ← body a s; foldM body l' s'
  end.

(** The files a run has produced, in order. *)
Definition output_files (t : list Event) : list string :=
  omap (λ ev, match ev with
              | EvWrite _ filename _ _ _ _ => Some filename
              | _ => None
              end) t.

(** The per-window calibration work a run has started. *)
Definition is_optimization (ev : Event) : bool :=
  match ev with
  | EvCompute _ (Some _) => true
  | _ => false
  end.

Definition string_empty (s : string) : bool :=
  match s with
  | EmptyString => true
  | String _ _ => false
  end.

(* ================================================================== *)
(** ** What [main] calls and [fit_motion.cc] does not define *)

Record Externals := mkExternals {
  (** [io/json_converters.hpp]: the reader, the writer and the keys. *)
  ReadJsonFile : string → option json;
  JsonWriteTimestampedRealData :
    list Z → list float → string → string → string → option unit;
  kRotations : string; kAccelerations : string; kLocations : string;
  kX : string; kY : string; kZ : string;
  kTimeUsec : string; kSpeedMS : string;
  kSteering : string; kAngularVelocity : string; kVelocities : string;
  (** The implicit conversions of a JSON value to [double] and to [long]
      (a value of another type throws). *)
  json_to_double : json → option float;
  json_to_long : json → option Z;
  (** The conversion of a [double] to the [int] field [max_iterations]. *)
  double_to_int : float → Z;
  (** [calibration/rotation.hpp]. *)
  GetPrincipalRotationAxes : list Timestamped3D → Z → option Mat;
  GetHorizontalTurnAngles : list Timestamped3D → Vec3 → option (list float);
  (** [calibration/velocity.hpp] and the L-BFGS solver. *)
  Calibrator : Type;
  AccelerometerCalibrator :
    list TimestampedVelocity → list Timestamped3D → list Timestamped3D →
    option Calibrator;
  minimize : LBFGSParam → Calibrator → Vector9 → option (Vector9 * float * Z);
  IntegrateTrajectory :
    Calibrator → Vec3 → Vec3 → Vec3 → option (gmap N MotionIntegrationOutcome);
  MergedEventTimeUsec : Calibrator → N → option Z;
  (** [slam/smoothing.hpp]. *)
  SmoothTimeSeries :
    list float → list float → list float → float → option (list float)
}.

(** Modelled from the spec: [pilotguru::ExtractTimestamps] is not in
    [fit_motion.cc]; the steering signal is "a sequence of (timestamp,
    angle) pairs, one per rotation sample", so it yields the timestamp of
    every sample, in order. *)
Definition ExtractTimestamps (rotations : list Timestamped3D) : list Z :=
  t3_time_usec <$> rotations.

(** Modelled from the spec: [GetHorizontalTurnAngles] is not in
    [fit_motion.cc]. "For every sample, the horizontal turn angle is
    derived by projecting the rotation onto the plane orthogonal to that
    axis and accumulating (integrating) the resulting in-plane angular
    velocity over time into a running heading angle. Output: one angle per
    input sample, same ordering, same count." The projection is the
    parameter [in_plane_rate]; a time step is the difference of two
    consecutive timestamps, in seconds. *)
Fixpoint turn_angles_from (in_plane_rate : Timestamped3D → Vec3 → float)
    (axis : Vec3) (previous_time : Z) (heading : float)
    (rotations : list Timestamped3D) : list float :=
  match rotations with
  | [] => []
  | r :: rest =>
      let dt :=
        (double_of_long (t3_time_usec r - previous_time) * micro)%float in
      let heading' := (heading + in_plane_rate r axis * dt)%float in
      heading' :: turn_angles_from in_plane_rate axis (t3_time_usec r)
                    heading' rest
  end.

Definition turn_angles (in_plane_rate : Timestamped3D → Vec3 → float)
    (rotations : list Timestamped3D) (axis : Vec3) : list float :=
  match rotations with
  | [] => []
  | r :: _ =>
      turn_angles_from in_plane_rate axis (t3_time_usec r) 0 rotations
  end.

(* ================================================================== *)
(** ** The accumulation map (lines 166, 204-207) and the averaging
       (lines 227-230) *)

(** The entries of a [std::map<size_t, T>] in iteration order. *)
Definition key_le {T} (a b : N * T) : Prop := (a.1 ≤ b.1)%N.

#[export] Instance key_le_dec {T} (a b : N * T) : Decision (key_le a b) :=
  decide (a.1 ≤ b.1)%N.

Definition sorted_entries {T} (m : gmap N T) : list (N * T) :=
  merge_sort key_le (map_to_list m).

(** [integrated_velocities[index].push_back(value)]: [operator[]] creates
    an empty vector for a new index. *)
Definition push_back_at (index : N) (value : float)
    (integrated_velocities : gmap N (list float)) : gmap N (list float) :=
  <[index := default [] (integrated_velocities !! index) ++ [value]]>
    integrated_velocities.

(** Lines 204-207: the loop over the points of one window's trajectory. *)
Definition store_magnitudes
    (integrated_trajectory : gmap N MotionIntegrationOutcome)
    (integrated_velocities : gmap N (list float)) : gmap N (list float) :=
  foldl (λ iv point, push_back_at point.1 (norm (velocity point.2)) iv)
        integrated_velocities (sorted_entries integrated_trajectory).

(** The map after the trajectories of several windows were stored. *)
Definition collect (trajectories : list (gmap N MotionIntegrationOutcome))
    (integrated_velocities : gmap N (list float)) : gmap N (list float) :=
  foldl (λ iv trajectory, store_magnitudes trajectory iv)
        integrated_velocities trajectories.

(** Lines 227-230: [std::accumulate] from [0.0], divided by the size. *)
Definition velocity_sum (estimates : list float) : float :=
  fold_left PrimFloat.add estimates 0%float.

Definition average (estimates : list float) : float :=
  (velocity_sum estimates / double_of_size (length estimates))%float.

(** The averages of all indices, in iteration order. *)
Definition averages (integrated_velocities : gmap N (list float))
    : list float :=
  (λ point, average point.2) <$> sorted_entries integrated_velocities.

(** The magnitudes that the windows whose trajectory has a point at
    [index] contribute for it, in window order. *)
Definition estimates_for (index : N)
    (trajectories : list (gmap N MotionIntegrationOutcome)) : list float :=
  omap (λ trajectory, (λ o, norm (velocity o)) <$> trajectory !! index)
       trajectories.

(* ================================================================== *)
(** ** The sliding-window loop (lines 167-175) *)

(** [for (size_t reference_start_idx = 0;
         reference_start_idx < gps_velocities.size();
         reference_start_idx += FLAGS_locations_shift_step)]
    with [reference_end_idx =
          std::min(reference_start_idx + FLAGS_locations_batch_size,
                   gps_velocities.size())]
    computed first in the body. [n] is [gps_velocities.size()]; the
    additions are [size_t] additions. *)
Fixpoint sliding_loop {S} (fuel : nat) (n batch step : Z)
    (body : Z * Z → S → M S) (reference_start_idx : Z) (s : S) : M S :=
  match fuel with
  | O => ([], OutOfFuel)
  | Datatypes.S fuel' =>
      if reference_start_idx <? n then
        let reference_end_idx :=
          Z.min (size_t_wrap (reference_start_idx + batch)) n in
        s' ← body (reference_start_idx, reference_end_idx) s;
        sliding_loop fuel' n batch step body
          (size_t_wrap (reference_start_idx + step)) s'
      else mret s
  end.

(** The loop with a body that only records the window it is given. *)
Definition record_window (w : Z * Z) (ws : list (Z * Z)) : M (list (Z * Z)) :=
  mret (ws ++ [w]).

Definition window_ranges (fuel : nat) (n batch step : Z) : M (list (Z * Z)) :=
  sliding_loop fuel n batch step record_window 0 [].

(** The windows in closed form: the [k]-th starts at [k * step]. *)
Definition window_at (n batch step k : Z) : Z * Z :=
  (k * step, Z.min (k * step + batch) n).

Definition windows_from (n batch step j : Z) : list (Z * Z) :=
  window_at n batch step <$> seqZ j (ceil_div n step - j).

Definition windows_of (n batch step : Z) : list (Z * Z) :=
  windows_from n batch step 0.

(** The vector built from the iterator range
    [[begin() + start, begin() + end_)]. *)
Definition subvector {T} (start end_ : Z) (v : list T) : list T :=
  take (Z.to_nat (end_ - start)) (drop (Z.to_nat start) v).

(* ================================================================== *)
(** ** The program *)

Section program.
Context (E : Externals).

(** Lines 79-92. *)
Definition ReadTimestamp3DData (filename field_name : string)
    : M (list Timestamped3D) :=
  json_root ← call (EvRead filename) StReadJson 82 (ReadJsonFile E filename);
  entries_list ← quiet StJsonAccess 83 (json_index json_root field_name);
  CHECK 84 (negb (json_empty entries_list));;
  foldM (λ entry result,
           x ← quiet StJsonAccess 88 (json_at entry (kX E) ≫= json_to_double E);
           y ← quiet StJsonAccess 88 (json_at entry (kY E) ≫= json_to_double E);
           z ← quiet StJsonAccess 89 (json_at entry (kZ E) ≫= json_to_double E);
           time_usec ←
             quiet StJsonAccess 89 (json_at entry (kTimeUsec E) ≫= json_to_long E);
           mret (result ++ [mkT3D x y z time_usec]))
        (json_items entries_list) [].

(** Lines 94-106. *)
Definition ReadGpsVelocities (filename : string)
    : M (list TimestampedVelocity) :=
  locations_json_root ←
    call (EvRead filename) StReadJson 97 (ReadJsonFile E filename);
  locations_json ←
    quiet StJsonAccess 98 (json_index locations_json_root (kLocations E));
  CHECK 99 (negb (json_empty locations_json));;
  foldM (λ location result,
           speed ←
             quiet StJsonAccess 103
               (json_at location (kSpeedMS E) ≫= json_to_double E);
           time_usec ←
             quiet StJsonAccess 103
               (json_at location (kTimeUsec E) ≫= json_to_long E);
           mret (result ++ [mkTV speed time_usec]))
        (json_items locations_json) [].

(** Lines 114-124. *)
Definition sanity_checks (F : Flags) : M unit :=
  CHECK 115 (negb (string_empty (FLAGS_rotations_json F)));;
  CHECK 116 (negb (string_empty (FLAGS_accelerations_json F)));;
  CHECK 117 (negb (string_empty (FLAGS_locations_json F)));;
  CHECK 118 (negb (string_empty (FLAGS_velocities_out_json F)));;
  CHECK 119 (negb (string_empty (FLAGS_steering_out_json F)));;
  CHECK 120 (0 <? FLAGS_optimization_iters F)%float;;
  CHECK 121 (0 <? FLAGS_locations_batch_size F);;
  CHECK 122 (0 <? FLAGS_locations_shift_step F);;
  CHECK 123 (FLAGS_locations_shift_step F <=? FLAGS_locations_batch_size F);;
  CHECK 124 (0 <? FLAGS_post_smoothing_sigma_sec F)%float.

(** Lines 158-160: the solver parameters. *)
Definition main_param (F : Flags) : LBFGSParam :=
  mkParam micro (double_to_int E (FLAGS_optimization_iters F)).

(** Lines 178-201 without their effects: the trajectory that the
    calibration of one window yields, if none of its three calls aborts. *)
Definition window_trajectory
    (gps_velocities : list TimestampedVelocity)
    (rotations accelerations : list Timestamped3D)
    (param : LBFGSParam) (w : Z * Z)
    : option (gmap N MotionIntegrationOutcome) :=
  let reference_interval := subvector w.1 w.2 gps_velocities in
  calibrator ←
    AccelerometerCalibrator E reference_interval rotations accelerations;
  r ← minimize E param calibrator Vector9_Zero;
  let x := r.1.1 in
  IntegrateTrajectory E calibrator
    (mkVec3 (x0 x) (x1 x) (x2 x))
    (mkVec3 (x3 x) (x4 x) (x5 x))
    (mkVec3 (x6 x) (x7 x) (x8 x)).

(** Lines 170-207: the body of the sliding-window loop. *)
Definition window_body
    (gps_velocities : list TimestampedVelocity)
    (rotations accelerations : list Timestamped3D)
    (param : LBFGSParam) (w : Z * Z)
    (integrated_velocities : gmap N (list float))
    : M (gmap N (list float)) :=
  let reference_interval := subvector w.1 w.2 gps_velocities in
  calibrator ←
    call (EvCompute StCalibrator (Some w)) StCalibrator 178
      (AccelerometerCalibrator E reference_interval rotations accelerations);
  r ← call (EvCompute StMinimize (Some w)) StMinimize 184
        (minimize E param calibrator Vector9_Zero);
  let x := r.1.1 in
  let acceleration_global_bias := mkVec3 (x0 x) (x1 x) (x2 x) in
  let acceleration_local_bias := mkVec3 (x3 x) (x4 x) (x5 x) in
  let initial_velocity := mkVec3 (x6 x) (x7 x) (x8 x) in
  integrated_trajectory ←
    call (EvCompute StIntegrate (Some w)) StIntegrate 199
      (IntegrateTrajectory E calibrator acceleration_global_bias
         acceleration_local_bias initial_velocity);
  mret (store_magnitudes integrated_trajectory integrated_velocities).

(** Lines 166-208. *)
Definition calibrate_windows (fuel : nat)
    (gps_velocities : list TimestampedVelocity)
    (rotations accelerations : list Timestamped3D)
    (param : LBFGSParam) (batch step : Z) : M (gmap N (list float)) :=
  sliding_loop fuel (Z.of_nat (length gps_velocities)) batch step
    (window_body gps_velocities rotations accelerations param) 0 ∅.

(** Lines 222-230: the body of the averaging loop. *)
Definition average_step (calibrator : Calibrator E) (point : N * list float)
    (acc : list float * list float * list Z)
    : M (list float * list float * list Z) :=
  let '(averaged_integrated_velocities, timestamps_sec, timestamps_usec) :=
    acc in
  time_usec ←
    quiet StMergedTime 223 (MergedEventTimeUsec E calibrator point.1);
  let timestamps_usec := timestamps_usec ++ [time_usec] in
  let elapsed := default 0 (last timestamps_usec)
                 - default 0 (head timestamps_usec) in
  let timestamps_sec :=
    timestamps_sec ++ [(double_of_long elapsed * micro)%float] in
  mret (averaged_integrated_velocities ++ [average point.2],
        timestamps_sec, timestamps_usec).

(** Lines 216-231. *)
Definition average_all (calibrator : Calibrator E)
    (integrated_velocities : gmap N (list float))
    : M (list float * list float * list Z) :=
  foldM (average_step calibrator) (sorted_entries integrated_velocities)
        ([], [], []).

(** Lines 109-242. The result is the exit status. *)
Definition main (fuel : nat) (F : Flags) : M Z :=
  sanity_checks F;;
  rotations ← ReadTimestamp3DData (FLAGS_rotations_json F) (kRotations E);
  accelerations ←
    ReadTimestamp3DData (FLAGS_accelerations_json F) (kAccelerations E);
  gps_velocities ← ReadGpsVelocities (FLAGS_locations_json F);
  pca_axes ←
    call (EvCompute StPrincipalAxes None) StPrincipalAxes 140
      (GetPrincipalRotationAxes E rotations 500000);
  let vertical_axis :=
    mkVec3 (mat_at pca_axes 0 0) (mat_at pca_axes 0 1) (mat_at pca_axes 0 2) in
  steering_angles ←
    call (EvCompute StTurnAngles None) StTurnAngles 145
      (GetHorizontalTurnAngles E rotations vertical_axis);
  CHECK 146 (bool_decide (length steering_angles = length rotations));;
  let rotation_timestamps := ExtractTimestamps rotations in
  written
    (EvWrite 151 (FLAGS_steering_out_json F) (kSteering E)
       (kAngularVelocity E) rotation_timestamps steering_angles) 151
    (JsonWriteTimestampedRealData E rotation_timestamps steering_angles
       (FLAGS_steering_out_json F) (kSteering E) (kAngularVelocity E));;
  let param := main_param F in
  integrated_velocities ←
    calibrate_windows fuel gps_velocities rotations accelerations param
      (FLAGS_locations_batch_size F) (FLAGS_locations_shift_step F);
  calibrator ←
    call (EvCompute StCalibrator None) StCalibrator 213
      (AccelerometerCalibrator E gps_velocities rotations accelerations);
  averaged ← average_all calibrator integrated_velocities;
  let averaged_integrated_velocities := averaged.1.1 in
  let timestamps_sec := averaged.1.2 in
  let timestamps_usec := averaged.2 in
  smoothed_velocities ←
    call (EvSmooth averaged_integrated_velocities timestamps_sec
            (FLAGS_post_smoothing_sigma_sec F)) StSmooth 233
      (SmoothTimeSeries E averaged_integrated_velocities timestamps_sec
         timestamps_sec (FLAGS_post_smoothing_sigma_sec F));
  written
    (EvWrite 237 (FLAGS_velocities_out_json F) (kVelocities E) (kSpeedMS E)
       timestamps_usec smoothed_velocities) 237
    (JsonWriteTimestampedRealData E timestamps_usec smoothed_velocities
       (FLAGS_velocities_out_json F) (kVelocities E) (kSpeedMS E));;
  mret 0.

End program.

(* ================================================================== *)
(** ** More about doubles *)

(** A non-negative number: the sign bit is clear and the value is not a
    NaN ([+0], a positive finite number or [+inf]). *)
Definition SF_nonneg_number (X : spec_float) : bool :=
  match X with
  | S754_nan => false
  | S754_zero s | S754_infinity s | S754_finite s _ _ => negb s
  end.

Definition SF_positive_finite (X : spec_float) : bool :=
  match X with
  | S754_finite s _ _ => negb s
  | _ => false
  end.

Definition SF_is_nan (X : spec_float) : bool :=
  match X with S754_nan => true | _ => false end.

Definition nonneg_number (x : float) : Prop :=
  SF_nonneg_number (Prim2SF x) = true.

Definition not_nan (x : float) : Prop := SF_is_nan (Prim2SF x) = false.

Definition no_nan_components (v : Vec3) : Prop :=
  not_nan (vx v) ∧ not_nan (vy v) ∧ not_nan (vz v).

(* ================================================================== *)
(** ** Invariants of the accumulation map and of runs *)

Definition nonempty_lists (iv : gmap N (list float)) : Prop :=
  ∀ k vs, iv !! k = Some vs → vs ≠ [].

Definition guard_nonempty (vs : list float) : option (list float) :=
  match vs with [] => None | _ => Some vs end.

Definition window_events (w : Z * Z) : list Event :=
  [EvCompute StCalibrator (Some w); EvCompute StMinimize (Some w);
   EvCompute StIntegrate (Some w)].

(** What holds of every event of a run and of the fatal error that ended
    it, if any. *)
Definition run_satisfies {A} (P : Event → Prop) (Q : Fatal → Prop)
    (D : Prop) (m : M A) : Prop :=
  Forall P m.1 ∧ (∀ f, m.2 = Abort f → Q f) ∧ (m.2 = OutOfFuel → D).

Definition is_write (ev : Event) : bool :=
  match ev with
  | EvWrite _ _ _ _ _ _ => true
  | _ => false
  end.

(** Before any window is calibrated, a run only reads and extracts the
    steering signal. *)
Definition is_preparation (ev : Event) : Prop :=
  match ev with
  | EvRead _ | EvCompute _ None => True
  | _ => False
  end.

(* ================================================================== *)
(** ** The phases of [main], and what the claims speak about *)

Section phases.
Context (E : Externals).

(** Lines 114-146: everything [main] does before it writes the steering
    file. *)
Definition before_steering (F : Flags)
    : M (list Timestamped3D * list Timestamped3D
         * list TimestampedVelocity * list float) :=
  sanity_checks F;;
  rotations ← ReadTimestamp3DData E (FLAGS_rotations_json F) (kRotations E);
  accelerations ←
    ReadTimestamp3DData E (FLAGS_accelerations_json F) (kAccelerations E);
  gps_velocities ← ReadGpsVelocities E (FLAGS_locations_json F);
  pca_axes ←
    call (EvCompute StPrincipalAxes None) StPrincipalAxes 140
      (GetPrincipalRotationAxes E rotations 500000);
  let vertical_axis :=
    mkVec3 (mat_at pca_axes 0 0) (mat_at pca_axes 0 1) (mat_at pca_axes 0 2) in
  steering_angles ←
    call (EvCompute StTurnAngles None) StTurnAngles 145
      (GetHorizontalTurnAngles E rotations vertical_axis);
  CHECK 146 (bool_decide (length steering_angles = length rotations));;
  mret (rotations, accelerations, gps_velocities, steering_angles).

(** Lines 149-153. *)
Definition write_steering (F : Flags) (rotations : list Timestamped3D)
    (steering_angles : list float) : M unit :=
  written
    (EvWrite 151 (FLAGS_steering_out_json F) (kSteering E)
       (kAngularVelocity E) (ExtractTimestamps rotations) steering_angles) 151
    (JsonWriteTimestampedRealData E (ExtractTimestamps rotations)
       steering_angles (FLAGS_steering_out_json F) (kSteering E)
       (kAngularVelocity E)).

(** Lines 157-235: everything between the two writes. *)
Definition between_writes (fuel : nat) (F : Flags)
    (rotations accelerations : list Timestamped3D)
    (gps_velocities : list TimestampedVelocity) : M (list Z * list float) :=
  let param := main_param E F in
  integrated_velocities ←
    calibrate_windows E fuel gps_velocities rotations accelerations param
      (FLAGS_locations_batch_size F) (FLAGS_locations_shift_step F);
  calibrator ←
    call (EvCompute StCalibrator None) StCalibrator 213
      (AccelerometerCalibrator E gps_velocities rotations accelerations);
  averaged ← average_all E calibrator integrated_velocities;
  smoothed_velocities ←
    call (EvSmooth averaged.1.1 averaged.1.2
            (FLAGS_post_smoothing_sigma_sec F)) StSmooth 233
      (SmoothTimeSeries E averaged.1.1 averaged.1.2 averaged.1.2
         (FLAGS_post_smoothing_sigma_sec F));
  mret (averaged.2, smoothed_velocities).

(** Lines 237-239. *)
Definition write_velocities (F : Flags) (timestamps_usec : list Z)
    (smoothed_velocities : list float) : M unit :=
  written
    (EvWrite 237 (FLAGS_velocities_out_json F) (kVelocities E) (kSpeedMS E)
       timestamps_usec smoothed_velocities) 237
    (JsonWriteTimestampedRealData E timestamps_usec smoothed_velocities
       (FLAGS_velocities_out_json F) (kVelocities E) (kSpeedMS E)).

(** An input stream is empty: the file is read, and the value under the
    stream's key is [empty()]. *)
Definition stream_empty (filename field_name : string) : Prop :=
  ∃ root entries,
    ReadJsonFile E filename = Some root
    ∧ json_index root field_name = Some entries
    ∧ json_empty entries = true.

End phases.

(** The numeric flags as the configuration surface describes them. *)
Definition config_valid (F : Flags) : Prop :=
  0 < FLAGS_locations_batch_size F
  ∧ 0 < FLAGS_locations_shift_step F
  ∧ FLAGS_locations_shift_step F ≤ FLAGS_locations_batch_size F
  ∧ (0 <? FLAGS_optimization_iters F)%float = true
  ∧ (0 <? FLAGS_post_smoothing_sigma_sec F)%float = true.

Definition config_invalid (F : Flags) : Prop :=
  FLAGS_locations_batch_size F ≤ 0
  ∨ FLAGS_locations_shift_step F ≤ 0
  ∨ FLAGS_locations_batch_size F < FLAGS_locations_shift_step F
  ∨ (FLAGS_optimization_iters F <=? 0)%float = true
  ∨ (FLAGS_post_smoothing_sigma_sec F <=? 0)%float = true.

(* ================================================================== *)
(** ** A small world to run [main] in *)

Definition sim_to_double (j : json) : option float :=
  match j with
  | JFloat f => Some f
  | JInt z => Some (double_of_long z)
  | _ => None
  end.

Definition sim_to_long (j : json) : option Z :=
  match j with
  | JInt z => Some z
  | _ => None
  end.

(** Truncation towards zero. *)
Definition sim_double_to_int (f : float) : Z :=
  match Prim2SF f with
  | S754_finite s m e =>
      let magnitude := if 0 <=? e then Z.pos m * 2 ^ e else Z.pos m / 2 ^ (- e) in
      if s then - magnitude else magnitude
  | _ => 0
  end.

Definition sim_axes (rotations : list Timestamped3D) (max_samples : Z)
    : option Mat :=
  Some (mkMat (λ row col, if Nat.eqb row col then 1%float else 0%float)).

(** The rate of turn about the axis. *)
Definition sim_rate (r : Timestamped3D) (axis : Vec3) : float :=
  (t3_x r * vx axis + (t3_y r * vy axis + t3_z r * vz axis))%float.

Definition sim_turn_angles (rotations : list Timestamped3D) (axis : Vec3)
    : option (list float) :=
  Some (turn_angles sim_rate rotations axis).

Fixpoint increasing (ts : list Z) : bool :=
  match ts with
  | a :: (b :: _) as rest => (a <? b) && increasing rest
  | _ => true
  end.

(** Modelled from the spec: the calibrator of [calibration/velocity.hpp]
    is not in [fit_motion.cc]. It merges the inertial streams (the comment
    of line 210 says so), and the Time-Series Merger "fails with DataError
    if either input sequence is empty or not monotonically ordered by
    timestamp". The model keeps the reference interval and the rotation
    samples, which stand for the merged timeline. *)
Definition sim_calibrator (reference : list TimestampedVelocity)
    (rotations accelerations : list Timestamped3D)
    : option (list TimestampedVelocity * list Timestamped3D) :=
  if increasing (t3_time_usec <$> rotations) then Some (reference, rotations)
  else None.

Definition sim_minimize (solve : Vector9 → Vector9) (param : LBFGSParam)
    (c : list TimestampedVelocity * list Timestamped3D) (x : Vector9)
    : option (Vector9 * float * Z) :=
  Some (solve x, 0%float, 1).

(** Modelled from the spec: a full integration run over a window covers
    "every merged-timeline index whose timestamp falls inside that window's
    time span". Here every such index moves with the speed of the first
    reference sample, plus the fitted initial velocity. *)
Definition sim_integrate (c : list TimestampedVelocity * list Timestamped3D)
    (global_bias local_bias initial_velocity : Vec3)
    : option (gmap N MotionIntegrationOutcome) :=
  match head c.1, last c.1 with
  | Some first, Some final =>
      Some (list_to_map (omap id (imap (λ i r,
        if bool_decide (tv_time_usec first ≤ t3_time_usec r
                        ≤ tv_time_usec final)
        then Some (N.of_nat i,
                   mkOutcome
                     (mkVec3 (tv_velocity first + vx initial_velocity)
                             (vy initial_velocity) (vz initial_velocity)))
        else None) c.2)))
  | _, _ => None
  end.

Definition sim_merged_time (c : list TimestampedVelocity * list Timestamped3D)
    (index : N) : option Z :=
  t3_time_usec <$> c.2 !! N.to_nat index.

Definition sim (files : list (string * json)) (solve : Vector9 → Vector9)
    : Externals := {|
  ReadJsonFile := json_member files;
  JsonWriteTimestampedRealData := λ _ _ _ _ _, Some ();
  kRotations := "rotations"; kAccelerations := "accelerations";
  kLocations := "locations";
  kX := "x"; kY := "y"; kZ := "z";
  kTimeUsec := "time_usec"; kSpeedMS := "speed_m_s";
  kSteering := "steering"; kAngularVelocity := "angular_velocity";
  kVelocities := "velocities";
  json_to_double := sim_to_double;
  json_to_long := sim_to_long;
  double_to_int := sim_double_to_int;
  GetPrincipalRotationAxes := sim_axes;
  GetHorizontalTurnAngles := sim_turn_angles;
  Calibrator := list TimestampedVelocity * list Timestamped3D;
  AccelerometerCalibrator := sim_calibrator;
  minimize := sim_minimize solve;
  IntegrateTrajectory := sim_integrate;
  MergedEventTimeUsec := sim_merged_time;
  SmoothTimeSeries := λ values _ _ _, Some values
|}.

Definition json_of_sample (s : Timestamped3D) : json :=
  JObject [("x"%string, JFloat (t3_x s)); ("y"%string, JFloat (t3_y s));
           ("z"%string, JFloat (t3_z s));
           ("time_usec"%string, JInt (t3_time_usec s))].

Definition json_of_fix (v : TimestampedVelocity) : json :=
  JObject [("speed_m_s"%string, JFloat (tv_velocity v));
           ("time_usec"%string, JInt (tv_time_usec v))].

Definition sim_files (rotations accelerations : list Timestamped3D)
    (fixes : list TimestampedVelocity) : list (string * json) :=
  [("r.json"%string,
    JObject [("rotations"%string, JArray (json_of_sample <$> rotations))]);
   ("a.json"%string,
    JObject [("accelerations"%string,
              JArray (json_of_sample <$> accelerations))]);
   ("l.json"%string,
    JObject [("locations"%string, JArray (json_of_fix <$> fixes))])].

Definition sim_flags (batch step : Z) : Flags := {|
  FLAGS_rotations_json := "r.json";
  FLAGS_accelerations_json := "a.json";
  FLAGS_locations_json := "l.json";
  FLAGS_velocities_out_json := "v.json";
  FLAGS_steering_out_json := "s.json";
  FLAGS_locations_batch_size := batch;
  FLAGS_locations_shift_step := step;
  FLAGS_optimization_iters := 500;
  FLAGS_post_smoothing_sigma_sec := 0.5
|}.

(** Four inertial samples and three GPS fixes with the speeds 13, 0.1 and
    0.2 m/s. *)
Definition gyro (times : list Z) : list Timestamped3D :=
  (λ t, mkT3D 0 0 1 t) <$> times.

Definition accel (times : list Z) : list Timestamped3D :=
  (λ t, mkT3D 0 0 0.5 t) <$> times.

Definition fixes : list TimestampedVelocity :=
  [mkTV 13 10; mkTV 0x1.999999999999ap-4 20; mkTV 0x1.999999999999ap-3 40].

Definition world : Externals :=
  sim (sim_files (gyro [10; 20; 30; 40]) (accel [10; 20; 30; 40]) fixes) id.

(** The same recording with two inertial samples out of order. *)
Definition world_unordered : Externals :=
  sim (sim_files (gyro [10; 30; 20; 40]) (accel [10; 30; 20; 40]) fixes) id.

(** The same recording without any GPS fix. *)
Definition world_without_fixes : Externals :=
  sim (sim_files (gyro [10; 20; 30; 40]) (accel [10; 20; 30; 40]) []) id.

(** The same recording with a solver that diverges. *)
Definition world_diverging : Externals :=
  sim (sim_files (gyro [10; 20; 30; 40]) (accel [10; 20; 30; 40]) fixes)
      (λ _, mkVector9 nan nan nan nan nan nan nan nan nan).

(** The value that a run returned. *)
Definition result_value {A} (r : Result A) : option A :=
  match r with
  | Ok a => Some a
  | _ => None
  end.

(** The recording of [world] as [main] has read it. *)
Definition world_rotations : list Timestamped3D := gyro [10; 20; 30; 40].
Definition world_accelerations : list Timestamped3D := accel [10; 20; 30; 40].

(** The sliding-window loop of [main] in [world]. *)
Definition world_windows (E : Externals) (fuel : nat) (batch step : Z)
    : M (gmap N (list float)) :=
  calibrate_windows E fuel fixes world_rotations world_accelerations
    (main_param E (sim_flags batch step)) batch step.

(** The loop body of [main] in [world], run on a given list of windows. *)
Definition world_body (ws : list (Z * Z)) : M (gmap N (list float)) :=
  foldM (window_body world fixes world_rotations world_accelerations
           (main_param world (sim_flags 3 1))) ws ∅.

(* ================================================================== *)
(** ** More of [fit_motion.cc]: what the readers build, the time axis *)

(** The sample that lines 88-89 build from one JSON entry, if every field
    is there and converts. *)
Definition sample_of_entry (E : Externals) (entry : json)
    : option Timestamped3D :=
  x ← json_at entry (kX E) ≫= json_to_double E;
  y ← json_at entry (kY E) ≫= json_to_double E;
  z ← json_at entry (kZ E) ≫= json_to_double E;
  time_usec ← json_at entry (kTimeUsec E) ≫= json_to_long E;
  Some (mkT3D x y z time_usec).

(** The GPS fix that line 103 builds from one JSON entry. *)
Definition fix_of_entry (E : Externals) (location : json)
    : option TimestampedVelocity :=
  speed ← json_at location (kSpeedMS E) ≫= json_to_double E;
  time_usec ← json_at location (kTimeUsec E) ≫= json_to_long E;
  Some (mkTV speed time_usec).

(** The time axis that lines 224-226 build from the timestamps: seconds
    since the first timestamp. *)
Definition seconds_since_first (timestamps_usec : list Z) : list float :=
  (λ time_usec,
     let elapsed := time_usec - default 0 (head timestamps_usec) in
     (double_of_long elapsed * micro)%float) <$> timestamps_usec.

(** The same recording with an angle extractor that drops the last
    angle. *)
Definition world_short_angles : Externals := {|
  ReadJsonFile := ReadJsonFile world;
  JsonWriteTimestampedRealData := JsonWriteTimestampedRealData world;
  kRotations := kRotations world; kAccelerations := kAccelerations world;
  kLocations := kLocations world;
  kX := kX world; kY := kY world; kZ := kZ world;
  kTimeUsec := kTimeUsec world; kSpeedMS := kSpeedMS world;
  kSteering := kSteering world; kAngularVelocity := kAngularVelocity world;
  kVelocities := kVelocities world;
  json_to_double := json_to_double world;
  json_to_long := json_to_long world;
  double_to_int := double_to_int world;
  GetPrincipalRotationAxes := GetPrincipalRotationAxes world;
  GetHorizontalTurnAngles := λ rotations axis,
    (λ angles, removelast angles)
      <$> GetHorizontalTurnAngles world rotations axis;
  Calibrator := Calibrator world;
  AccelerometerCalibrator := AccelerometerCalibrator world;
  minimize := minimize world;
  IntegrateTrajectory := IntegrateTrajectory world;
  MergedEventTimeUsec := MergedEventTimeUsec world;
  SmoothTimeSeries := SmoothTimeSeries world
|}.

(* ================================================================== *)
(** ** kia-spoof-steering: the integers of the Arduino targets *)

Definition UINT16_MAX : Z := 65535.
Definition INT16_MIN : Z := -32768.
Definition INT16_MAX : Z := 32767.

Definition uint16_wrap (z : Z) : Z := z mod 2 ^ 16.
Definition int16_wrap (z : Z) : Z := (z + 2 ^ 15) mod 2 ^ 16 - 2 ^ 15.

(** The width of [int]: 16 bits on the AVR boards, 32 bits on the ARM
    boards. It decides how the 16-bit operands of an expression are
    promoted. *)
Inductive IntWidth := Int16 | Int32.

(** The value of an expression computed in [int]. Where [int] has 32 bits
    no expression of this file leaves its range; where it has 16 bits the
    value wraps, as the AVR compiler makes it. *)
Definition as_int (w : IntWidth) (z : Z) : Z :=
  match w with
  | Int16 => int16_wrap z
  | Int32 => z
  end.

(** The value of an operand or of a result after the usual arithmetic
    conversions of an expression that has a [uint16_t] operand: where [int]
    has 16 bits the expression is computed in [unsigned int], modulo
    [2^16]; where it has 32 bits it is computed in [int]. *)
Definition as_promoted (w : IntWidth) (z : Z) : Z :=
  match w with
  | Int16 => uint16_wrap z
  | Int32 => z
  end.

(** The macros of [Arduino.h]. *)
Definition arduino_min (a b : Z) : Z := if a <? b then a else b.
Definition arduino_max (a b : Z) : Z := if a >? b then a else b.
Definition constrain (amt low high : Z) : Z :=
  if amt <? low then low else if amt >? high then high else amt.

(* ================================================================== *)
(** ** kia-spoof-steering: the target voltage smoother (lines 243-356)

    The header [kia-spoof-steering.h] is not part of the file. The fields
    have the types that the accessors, the parameters and the guards of
    this file give them: the voltages and the step counter are [uint16_t],
    the offsets are [int16_t]; the settings are numbers in the ranges that
    the properties state. A smoother is a value that every member function
    maps to the smoother after the call. *)

Record SteeringSpoofSettings := mkSettings {
  max_steering_magnitude : Z;
  steps_per_adjustment_level : Z;
  steps_at_target_level : Z;
  voltage_update_hystheresis : Z
}.

Record InstantVoltageData := mkInstantVoltageData {
  blue_voltage : Z;
  green_voltage : Z
}.

(** Lines 257-263: [smooth_voltage] of the anonymous namespace. The
    difference is computed after the promotion of its operands. *)
Definition smooth_voltage (w : IntWidth)
    (old_smooth_voltage new_voltage voltage_update_hystheresis : Z) : Z :=
  if as_promoted w (arduino_max old_smooth_voltage new_voltage
                    - arduino_min old_smooth_voltage new_voltage)
     >? voltage_update_hystheresis
  then new_voltage
  else old_smooth_voltage.

(** Lines 265-273: [add_offset] of the anonymous namespace. [base] is a
    [uint16_t], [offset] an [int16_t], the result a [uint16_t]. *)
Definition add_offset (w : IntWidth) (base offset : Z) : Z :=
  if offset =? 0 then base
  else if offset >? 0 then
    if as_promoted w (UINT16_MAX - base) >? as_promoted w offset
    then uint16_wrap (as_promoted w (base + offset))
    else UINT16_MAX
  else
    if base >? as_promoted w (as_int w (- offset))
    then uint16_wrap (as_promoted w (base + offset))
    else 0.

(** [snprintf(buf, n, format, ...)] once the format has been rendered to
    [text]: with [n = 0] nothing is written; otherwise the first [n - 1]
    characters of the text and a terminating zero. It returns the length
    of the whole text. The array behind [buf] is the list. *)
Definition snprintf (buf : list Ascii.ascii) (n : Z) (text : list Ascii.ascii)
    : list Ascii.ascii * Z :=
  (if n =? 0 then buf
   else
     let written := take (Z.to_nat (n - 1)) text in
     written ++ [Ascii.zero] ++ drop (length written + 1) buf,
   Z.of_nat (length text)).

(** The comma. *)
Definition comma : Ascii.ascii := Ascii.ascii_of_nat 44.

(** The text of the format ["%d,%d,%d,%d"], for a given rendering of
    [%d]. *)
Definition format_4d (printf_d : Z → list Ascii.ascii) (a b c d : Z)
    : list Ascii.ascii :=
  printf_d a ++ [comma] ++ printf_d b ++ [comma]
  ++ printf_d c ++ [comma] ++ printf_d d.

Module TargetVoltageSmoother.

Record SmoothedVoltageState := mkSmoothedVoltageState {
  smoothed_blue_voltage_ : Z;
  smoothed_green_voltage_ : Z;
  current_offset_ : Z;
  target_offset_ : Z
}.

(** Lines 247-255: [SmoothedVoltageState::make_string]. A null [buf] is
    [None]; the result is the array afterwards and the value returned. *)
Definition make_string (printf_d : Z → list Ascii.ascii)
    (v : SmoothedVoltageState) (buf : option (list Ascii.ascii)) (buf_size : Z)
    : option (list Ascii.ascii) * Z :=
  match buf with
  | None => (None, -1)
  | Some b =>
      if buf_size <? 1 then (Some b, -1)
      else
        let r :=
          snprintf b (buf_size - 1)
            (format_4d printf_d (smoothed_blue_voltage_ v)
               (smoothed_green_voltage_ v) (current_offset_ v)
               (target_offset_ v)) in
        (Some r.1, r.2)
  end.

Record t := mk {
  steering_spoof_settings_ : SteeringSpoofSettings;
  voltage_state_ : SmoothedVoltageState;
  steps_spent_at_current_offset_ : Z
}.

(** Lines 280-289. The magnitude, a signed setting, is negated in [int];
    the clamped value is converted to the [int16_t] field. *)
Definition set_target_offset (w : IntWidth) (s : t) (new_target_offset : Z)
    : t :=
  let settings := steering_spoof_settings_ s in
  let v := voltage_state_ s in
  let target :=
    int16_wrap
      (constrain new_target_offset
         (as_int w (- max_steering_magnitude settings))
         (max_steering_magnitude settings)) in
  let v' :=
    mkSmoothedVoltageState (smoothed_blue_voltage_ v)
      (smoothed_green_voltage_ v) (current_offset_ v) target in
  if target =? current_offset_ v then
    mk settings v'
       (uint16_wrap
          (arduino_min (steps_spent_at_current_offset_ s)
             (steps_per_adjustment_level settings)))
  else mk settings v' (steps_spent_at_current_offset_ s).

(** Lines 291-315. The incremented counter is kept in every branch but
    the one that moves the offset, which restarts it. *)
Definition step (w : IntWidth) (s : t) : t :=
  let settings := steering_spoof_settings_ s in
  let v := voltage_state_ s in
  let steps :=
    if steps_spent_at_current_offset_ s <? UINT16_MAX
    then uint16_wrap (steps_spent_at_current_offset_ s + 1)
    else steps_spent_at_current_offset_ s in
  if negb (target_offset_ v =? current_offset_ v) then
    if steps >? steps_per_adjustment_level settings then
      let current :=
        int16_wrap
          (as_int w (current_offset_ v
                     + (if target_offset_ v >? current_offset_ v
                        then 1 else -1))) in
      mk settings
         (mkSmoothedVoltageState (smoothed_blue_voltage_ v)
            (smoothed_green_voltage_ v) current (target_offset_ v))
         0
    else mk settings v steps
  else if negb (target_offset_ v =? 0)
          && (steps >? as_promoted w (steps_at_target_level settings
                                      + steps_per_adjustment_level settings))
  then
    mk settings
       (mkSmoothedVoltageState (smoothed_blue_voltage_ v)
          (smoothed_green_voltage_ v) (current_offset_ v) 0)
       steps
  else mk settings v steps.

(** Lines 317-325. *)
Definition update_measurments (w : IntWidth) (s : t)
    (voltage_data : InstantVoltageData) : t :=
  let settings := steering_spoof_settings_ s in
  let v := voltage_state_ s in
  let blue :=
    smooth_voltage w (smoothed_blue_voltage_ v) (blue_voltage voltage_data)
      (voltage_update_hystheresis settings) in
  let green :=
    smooth_voltage w (smoothed_green_voltage_ v) (green_voltage voltage_data)
      (voltage_update_hystheresis settings) in
  mk settings
     (mkSmoothedVoltageState blue green (current_offset_ v) (target_offset_ v))
     (steps_spent_at_current_offset_ s).

(** Lines 327-356: the accessors. *)
Definition get_smoothed_blue_voltage (s : t) : Z :=
  smoothed_blue_voltage_ (voltage_state_ s).

Definition get_smoothed_green_voltage (s : t) : Z :=
  smoothed_green_voltage_ (voltage_state_ s).

(** The argument [-current_offset_] is computed in [int] and converted to
    the [int16_t] parameter. *)
Definition get_target_blue_voltage (w : IntWidth) (s : t) : Z :=
  add_offset w (smoothed_blue_voltage_ (voltage_state_ s))
    (int16_wrap (as_int w (- current_offset_ (voltage_state_ s)))).

Definition get_target_green_voltage (w : IntWidth) (s : t) : Z :=
  add_offset w (smoothed_green_voltage_ (voltage_state_ s))
    (current_offset_ (voltage_state_ s)).

Definition get_current_offset (s : t) : Z :=
  current_offset_ (voltage_state_ s).

(** Lines 349-351: as in the source, this accessor reads
    [current_offset_]. *)
Definition get_target_offset (s : t) : Z :=
  current_offset_ (voltage_state_ s).

Definition get_voltage_state (s : t) : SmoothedVoltageState :=
  voltage_state_ s.

End TargetVoltageSmoother.

(** The ranges of the types. *)
Definition is_uint16 (z : Z) : Prop := 0 ≤ z ≤ UINT16_MAX.
Definition is_int16 (z : Z) : Prop := INT16_MIN ≤ z ≤ INT16_MAX.

(** Settings with a magnitude that can be negated and counters that fit
    the step counter. *)
Definition settings_in_range (c : SteeringSpoofSettings) : Prop :=
  0 ≤ max_steering_magnitude c ≤ INT16_MAX
  ∧ is_uint16 (steps_per_adjustment_level c)
  ∧ is_uint16 (steps_at_target_level c)
  ∧ is_uint16 (voltage_update_hystheresis c).

Definition state_in_range (s : TargetVoltageSmoother.t) : Prop :=
  let v := TargetVoltageSmoother.voltage_state_ s in
  settings_in_range (TargetVoltageSmoother.steering_spoof_settings_ s)
  ∧ is_uint16 (TargetVoltageSmoother.smoothed_blue_voltage_ v)
  ∧ is_uint16 (TargetVoltageSmoother.smoothed_green_voltage_ v)
  ∧ is_int16 (TargetVoltageSmoother.current_offset_ v)
  ∧ is_int16 (TargetVoltageSmoother.target_offset_ v)
  ∧ is_uint16 (TargetVoltageSmoother.steps_spent_at_current_offset_ s).

(** Both offsets are within the configured magnitude. *)
Definition offsets_bounded (s : TargetVoltageSmoother.t) : Prop :=
  let v := TargetVoltageSmoother.voltage_state_ s in
  let m := max_steering_magnitude
             (TargetVoltageSmoother.steering_spoof_settings_ s) in
  - m ≤ TargetVoltageSmoother.current_offset_ v ≤ m
  ∧ - m ≤ TargetVoltageSmoother.target_offset_ v ≤ m.

(** The calls a sketch makes on the smoother. *)
Inductive SmootherCall :=
| CallSetTargetOffset (new_target_offset : Z)
| CallStep
| CallUpdateMeasurments (voltage_data : InstantVoltageData).

Definition do_call (w : IntWidth) (s : TargetVoltageSmoother.t)
    (c : SmootherCall) : TargetVoltageSmoother.t :=
  match c with
  | CallSetTargetOffset x => TargetVoltageSmoother.set_target_offset w s x
  | CallStep => TargetVoltageSmoother.step w s
  | CallUpdateMeasurments d => TargetVoltageSmoother.update_measurments w s d
  end.

Definition do_calls (w : IntWidth) (s : TargetVoltageSmoother.t)
    (cs : list SmootherCall) : TargetVoltageSmoother.t :=
  foldl (do_call w) s cs.

(** [n] calls of [step] in a row. *)
Definition steps (w : IntWidth) (n : nat) (s : TargetVoltageSmoother.t)
    : TargetVoltageSmoother.t :=
  Nat.iter n (TargetVoltageSmoother.step w) s.

(** A call whose arguments have the types of the parameters. *)
Definition call_in_range (c : SmootherCall) : Prop :=
  match c with
  | CallSetTargetOffset x => is_int16 x
  | CallStep => True
  | CallUpdateMeasurments d =>
      is_uint16 (blue_voltage d) ∧ is_uint16 (green_voltage d)
  end.

(** The number of [step] calls among the calls. *)
Fixpoint count_steps (cs : list SmootherCall) : nat :=
  match cs with
  | [] => 0
  | CallStep :: cs' => S (count_steps cs')
  | _ :: cs' => count_steps cs'
  end.

(** A smoother to try the properties on: magnitude 5, four steps per
    level, thirty steps at the target, hysteresis 1; the offset is at 2 on
    its way to 5. *)
Definition example_settings : SteeringSpoofSettings := mkSettings 5 4 30 1.

Definition example_smoother : TargetVoltageSmoother.t :=
  TargetVoltageSmoother.mk example_settings
    (TargetVoltageSmoother.mkSmoothedVoltageState 500 520 2 5) 3.

(* ================================================================== *)
(** ** Facts about doubles *)

Lemma binary_round_aux_sign_clear m e l :
  SF_sign_clear (binary_round_aux prec emax false m e l) = true.
Proof.
  unfold binary_round_aux.
  destruct (shr_fexp prec emax m e l) as [mrs' e'].
  destruct (shr_fexp prec emax _ e' loc_Exact) as [mrs'' e''].
  destruct (shr_m mrs''); try reflexivity.
  destruct (Z.leb e'' (Z.sub emax prec)); reflexivity.
Qed.

Lemma binary_round_sign_clear m e :
  SF_sign_clear (binary_round prec emax false m e) = true.
Proof.
  unfold binary_round.
  destruct (shl_align m e _) as [mz ez].
  apply binary_round_aux_sign_clear.
Qed.

Lemma SFadd_sign_clear X Y :
  SF_sign_clear X = true → SF_sign_clear Y = true →
  SF_sign_clear (SF64add X Y) = true.
Proof.
  destruct X as [[]|[]| |[] mx ex], Y as [[]|[]| |[] my ey];
    intros HX HY; try discriminate; try reflexivity.
  unfold SF64add, SFadd. cbv zeta.
  apply binary_round_sign_clear.
Qed.

Lemma SFmul_self_sign_clear X : SF_sign_clear (SF64mul X X) = true.
Proof.
  destruct X as [[]|[]| |[] mx ex]; try reflexivity;
    apply binary_round_aux_sign_clear.
Qed.

Lemma SFsqrt_sign_clear X :
  SF_sign_clear X = true → SF_sign_clear (SF64sqrt X) = true.
Proof.
  destruct X as [[]|[]| |[] mx ex]; intros HX; try discriminate; try reflexivity.
  unfold SF64sqrt, SFsqrt.
  destruct (SFsqrt_core_binary prec emax (Z.pos mx) ex) as [[mz ez] lz].
  apply binary_round_aux_sign_clear.
Qed.

Lemma SFdiv_sign_clear X Y :
  SF_sign_clear X = true → SF_sign_clear Y = true →
  SF_sign_clear (SF64div X Y) = true.
Proof.
  destruct X as [[]|[]| |[] mx ex], Y as [[]|[]| |[] my ey];
    intros HX HY; try discriminate; try reflexivity.
  unfold SF64div, SFdiv.
  destruct (SFdiv_core_binary prec emax (Z.pos mx) ex (Z.pos my) ey) as [[mz ez] lz].
  apply binary_round_aux_sign_clear.
Qed.

Lemma never_negative_add x y :
  never_negative x → never_negative y → never_negative (x + y)%float.
Proof. unfold never_negative. rewrite FloatAxioms.add_spec. apply SFadd_sign_clear. Qed.

Lemma never_negative_square x : never_negative (x * x)%float.
Proof. unfold never_negative. rewrite FloatAxioms.mul_spec. apply SFmul_self_sign_clear. Qed.

Lemma never_negative_sqrt x : never_negative x → never_negative (PrimFloat.sqrt x).
Proof. unfold never_negative. rewrite FloatAxioms.sqrt_spec. apply SFsqrt_sign_clear. Qed.

Lemma never_negative_div x y :
  never_negative x → never_negative y → never_negative (x / y)%float.
Proof. unfold never_negative. rewrite FloatAxioms.div_spec. apply SFdiv_sign_clear. Qed.

Lemma never_negative_of_uint63 n : never_negative (of_uint63 n).
Proof.
  unfold never_negative. rewrite of_uint63_spec.
  pose proof (Uint63.to_Z_bounded n) as Hb.
  destruct (Uint63.to_Z n) as [|p|p]; [reflexivity| |lia].
  apply binary_round_sign_clear.
Qed.

Lemma never_negative_zero : never_negative 0%float.
Proof. reflexivity. Qed.

Lemma never_negative_not_lt x : never_negative x → (x <? 0)%float = false.
Proof.
  unfold never_negative. rewrite FloatAxioms.ltb_spec.
  change (Prim2SF 0) with (S754_zero false).
  destruct (Prim2SF x) as [[]|[]| |[] m e]; intros H; try discriminate; reflexivity.
Qed.

Lemma never_negative_nan_or_le x :
  never_negative x → PrimFloat.is_nan x = true ∨ (0 <=? x)%float = true.
Proof.
  unfold never_negative, PrimFloat.is_nan. rewrite FloatAxioms.leb_spec, FloatAxioms.eqb_spec.
  change (Prim2SF 0) with (S754_zero false).
  destruct (Prim2SF x) as [[]|[]| |[] m e]; intros H; try discriminate;
    (left; reflexivity) || (right; reflexivity).
Qed.

Lemma float_add_zero_l x : never_negative x → (0 + x)%float = x.
Proof.
  unfold never_negative. intros H. apply Prim2SF_inj. rewrite FloatAxioms.add_spec.
  change (Prim2SF 0) with (S754_zero false).
  destruct (Prim2SF x) as [[]|[]| |[] m e]; try discriminate; reflexivity.
Qed.

Lemma SFadd_comm X Y : SF64add X Y = SF64add Y X.
Proof.
  destruct X as [[]|[]| |sx mx ex], Y as [[]|[]| |sy my ey]; try reflexivity.
  unfold SF64add, SFadd. cbv zeta.
  rewrite (Z.min_comm ey ex).
  f_equal. apply Z.add_comm.
Qed.

Lemma float_add_comm x y : (x + y)%float = (y + x)%float.
Proof. apply Prim2SF_inj. rewrite !FloatAxioms.add_spec. apply SFadd_comm. Qed.

Lemma leb_zero_not_gt x : (x <=? 0)%float = true → (0 <? x)%float = false.
Proof.
  rewrite FloatAxioms.leb_spec, FloatAxioms.ltb_spec.
  change (Prim2SF 0) with (S754_zero false).
  destruct (Prim2SF x) as [[]|[]| |[] m e]; intros H; try discriminate; reflexivity.
Qed.

Lemma fexp_eq z : fexp prec emax z = Z.max (z - 53) (-1074).
Proof. reflexivity. Qed.

Lemma div_eucl_mul a b : 0 < b -> Z.div_eucl (a * b) b = (a, 0).
Proof.
  intros Hb.
  pose proof (Z.div_mul a b ltac:(lia)) as Hd.
  pose proof (Z.mod_mul a b ltac:(lia)) as Hm.
  unfold Z.div, Z.modulo in *.
  destruct (Z.div_eucl (a * b) b) as [q r]. congruence.
Qed.

Lemma shr_fexp_no_shift m e l :
  fexp prec emax (Zdigits2 m + e) - e <= 0 ->
  shr_fexp prec emax m e l = (shr_record_of_loc m l, e).
Proof.
  intros H. unfold shr_fexp, shr.
  destruct (Z.sub (fexp prec emax (Z.add (Zdigits2 m) e)) e) eqn:E;
    try reflexivity.
  exfalso. change (fexp prec emax (Zdigits2 m + e) - e = Z.pos p) in E. lia.
Qed.

Lemma shr_fexp_one_bit m e :
  fexp prec emax (Zdigits2 (Z.pos m~0) + e) - e = 1 ->
  shr_fexp prec emax (Z.pos m~0) e loc_Exact
  = ({| shr_m := Z.pos m; shr_r := false; shr_s := false |}, e + 1).
Proof.
  intros H. unfold shr_fexp.
  change (Z.sub (fexp prec emax (Z.add (Zdigits2 (Z.pos m~0)) e)) e)
    with (fexp prec emax (Zdigits2 (Z.pos m~0) + e) - e).
  rewrite H. reflexivity.
Qed.

Lemma binary_round_aux_canonical s m e :
  fexp prec emax (Z.pos (digits2_pos m) + e) = e -> e <= 971 ->
  binary_round_aux prec emax s (Z.pos m) e loc_Exact = S754_finite s m e.
Proof.
  intros Hc He. unfold binary_round_aux.
  rewrite shr_fexp_no_shift by (change (Zdigits2 (Z.pos m)) with (Z.pos (digits2_pos m)); lia).
  cbn [shr_record_of_loc shr_m loc_of_shr_record round_nearest_even].
  rewrite shr_fexp_no_shift by (change (Zdigits2 (Z.pos m)) with (Z.pos (digits2_pos m)); lia).
  cbn [shr_record_of_loc shr_m].
  change (Z.sub emax prec) with 971.
  destruct (Z.leb_spec e 971); [reflexivity|lia].
Qed.

Lemma binary_round_aux_twice s m e :
  Z.pos (digits2_pos m) = 53 -> -1074 < e -> e <= 971 ->
  binary_round_aux prec emax s (Z.pos m~0) (e - 1) loc_Exact = S754_finite s m e.
Proof.
  intros HD Hlo He. unfold binary_round_aux.
  rewrite shr_fexp_one_bit.
  2:{ change (Zdigits2 (Z.pos m~0)) with (Z.pos (Pos.succ (digits2_pos m))).
      rewrite Pos2Z.inj_succ, HD, fexp_eq. lia. }
  cbn [shr_m loc_of_shr_record round_nearest_even].
  replace (e - 1 + 1) with e by lia.
  rewrite shr_fexp_no_shift.
  2:{ change (Zdigits2 (Z.pos m)) with (Z.pos (digits2_pos m)).
      rewrite HD, fexp_eq. lia. }
  cbn [shr_record_of_loc shr_m].
  change (Z.sub emax prec) with 971.
  destruct (Z.leb_spec e 971); [reflexivity|lia].
Qed.

Lemma SFdiv_one X : valid_binary X = true -> SF64div X SF_one = X.
Proof.
  destruct X as [s|s| |s m e]; intros Hv; try reflexivity; try (destruct s; reflexivity).
  unfold valid_binary, bounded, canonical_mantissa in Hv.
  apply andb_prop in Hv as [Hc He].
  apply Z.eqb_eq in Hc. apply Z.leb_le in He.
  change (Z.sub emax prec) with 971 in He.
  change (Z.add (Z.pos (digits2_pos m)) e) with (Z.pos (digits2_pos m) + e) in Hc.
  pose proof Hc as Hc'. rewrite fexp_eq in Hc'.
  unfold SF64div, SFdiv, SF_one.
  unfold SFdiv_core_binary.
  change (Zdigits2 (Z.pos 4503599627370496)) with 53.
  change (Zdigits2 (Z.pos m)) with (Z.pos (digits2_pos m)).
  set (D := Z.pos (digits2_pos m)) in *.
  assert (1 <= D) by (unfold D; lia).
  rewrite fexp_eq.
  rewrite xorb_false_r.
  destruct (Z.eq_dec e (-1074)) as [->|Hne].
  - (* subnormal range *)
    assert (D <= 53) by lia.
    replace (Z.min (Z.max (Z.sub (Z.sub (Z.add D (-1074)) (Z.add 53 (-52))) 53) (-1074)) (Z.sub (-1074) (-52))) with (-1074) by lia.
    change (Z.sub (Z.sub (-1074) (-52)) (-1074)) with 52.
    cbv iota beta.
    rewrite Z.shiftl_mul_pow2 by lia.
    rewrite div_eucl_mul by lia.
    change (new_location (Z.pos 4503599627370496) 0) with loc_Exact.
    cbv iota beta.
    apply binary_round_aux_canonical; [exact Hc|lia].
  - assert (D = 53) by lia.
    replace (Z.min (Z.max (Z.sub (Z.sub (Z.add D e) (Z.add 53 (-52))) 53) (-1074)) (Z.sub e (-52))) with (e - 1) by lia.
    replace (Z.sub (Z.sub e (-52)) (e - 1)) with 53 by lia.
    cbv iota beta.
    rewrite Z.shiftl_mul_pow2 by lia.
    replace (Z.pos m * 2 ^ 53) with (Z.pos m~0 * 2 ^ 52) by lia.
    rewrite div_eucl_mul by lia.
    change (new_location (Z.pos 4503599627370496) 0) with loc_Exact.
    cbv iota beta.
    apply binary_round_aux_twice; [assumption|lia|lia].
Qed.

Lemma float_div_one (x : float) : (x / 1)%float = x.
Proof.
  apply Prim2SF_inj. rewrite FloatAxioms.div_spec.
  change (Prim2SF 1) with SF_one.
  apply SFdiv_one, Prim2SF_valid.
Qed.

(* ================================================================== *)
(** ** Monad facts *)

Lemma M_bind_ret_l {A B} (a : A) (f : A → M B) : (mret a ≫= f) = f a.
Proof.
  unfold mbind, M_mbind, mret, M_mret, M_bind, M_ret.
  destruct (f a) as [t r]. reflexivity.
Qed.

Lemma M_bind_ok {A B} (t : list Event) (a : A) (f : A → M B) :
  ((t, Ok a) ≫= f) = (t ++ (f a).1, (f a).2).
Proof.
  unfold mbind, M_mbind, M_bind. destruct (f a); reflexivity.
Qed.

Lemma M_bind_abort {A B} (t : list Event) (e : Fatal) (f : A → M B) :
  ((t, Abort e) ≫= f) = (t, Abort e).
Proof. reflexivity. Qed.

Lemma foldM_app {A S} (body : A → S → M S) (l1 l2 : list A) (s : S) :
  foldM body (l1 ++ l2) s = (foldM body l1 s ≫= foldM body l2).
Proof.
  revert s. induction l1 as [|a l1 IH]; intros s; simpl.
  - symmetry. apply M_bind_ret_l.
  - destruct (body a s) as [t [s'| |]]; try reflexivity.
    unfold mbind, M_mbind, M_bind in *. rewrite IH.
    destruct (foldM body l1 s') as [t1 [s1| |]]; try reflexivity.
    destruct (foldM body l2 s1) as [t2 r2]. by rewrite app_assoc.
Qed.

(* ================================================================== *)
(** ** The sliding-window loop: iteration count and coverage *)

Lemma ceil_div_bounds n d :
  0 < d → (ceil_div n d - 1) * d < n ≤ ceil_div n d * d.
Proof.
  intros Hd. unfold ceil_div.
  pose proof (Z.div_mod (n + d - 1) d ltac:(lia)) as Hdm.
  pose proof (Z.mod_pos_bound (n + d - 1) d Hd) as Hm.
  nia.
Qed.

Lemma lt_ceil_div n d j : 0 < d → (j * d < n ↔ j < ceil_div n d).
Proof.
  intros Hd. pose proof (ceil_div_bounds n d Hd) as [H1 H2]. split; nia.
Qed.

Lemma windows_from_nil n batch step j :
  ceil_div n step - j ≤ 0 → windows_from n batch step j = [].
Proof.
  intros H. unfold windows_from.
  destruct (ceil_div n step - j) eqn:E; try reflexivity; lia.
Qed.

Lemma windows_from_cons n batch step j :
  0 < ceil_div n step - j →
  windows_from n batch step j
  = (j * step, Z.min (j * step + batch) n) :: windows_from n batch step (j + 1).
Proof.
  intros H. unfold windows_from.
  rewrite (seqZ_cons j) by lia. rewrite fmap_cons.
  replace (Z.succ j) with (j + 1) by lia.
  replace (Z.pred (ceil_div n step - j))
    with (ceil_div n step - (j + 1)) by lia.
  reflexivity.
Qed.

Section loop.
Context {S : Type} (n batch step : Z) (body : Z * Z → S → M S).
Hypothesis Hn : 0 ≤ n ≤ PTRDIFF_MAX.
Hypothesis Hstep : 0 < step ≤ INT64_MAX.
Hypothesis Hbatch : 0 < batch ≤ INT64_MAX.

(** From the start of the [j]-th iteration the loop runs the body on the
    remaining windows, in order, and needs one unit of fuel per window
    and one for the final test. *)
Lemma sliding_loop_from (k : nat) : ∀ (j : Z) (fuel : nat) (s : S),
  0 ≤ j →
  ceil_div n step - j = Z.of_nat k →
  (k < fuel)%nat →
  sliding_loop fuel n batch step body (j * step) s
  = foldM body (windows_from n batch step j) s.
Proof.
  unfold PTRDIFF_MAX, INT64_MAX in *.
  induction k as [|k IH]; intros j fuel s Hj Hk Hfuel;
    (destruct fuel as [|fuel]; [lia|]); simpl.
  - assert (¬ j * step < n) as Hge by (rewrite lt_ceil_div; lia).
    destruct (Z.ltb_spec (j * step) n) as [?|_]; [lia|].
    rewrite windows_from_nil by lia. reflexivity.
  - assert (j * step < n) as Hlt by (rewrite lt_ceil_div; lia).
    destruct (Z.ltb_spec (j * step) n) as [_|?]; [|lia].
    assert (0 ≤ j * step) by nia.
    rewrite windows_from_cons by lia. simpl.
    unfold size_t_wrap.
    rewrite !Z.mod_small by lia.
    replace (j * step + step) with ((j + 1) * step) by lia.
    destruct (body (j * step, Z.min (j * step + batch) n) s)
      as [t [s'| |]]; try reflexivity.
    unfold mbind, M_mbind, M_bind.
    rewrite (IH (j + 1) fuel s') by lia. reflexivity.
Qed.

Lemma sliding_loop_windows (fuel : nat) (s : S) :
  (Z.to_nat (ceil_div n step) < fuel)%nat →
  sliding_loop fuel n batch step body 0 s
  = foldM body (windows_of n batch step) s.
Proof.
  intros Hfuel.
  assert (0 ≤ ceil_div n step) as Hc.
  { unfold ceil_div. apply Z.div_pos; lia. }
  apply (sliding_loop_from (Z.to_nat (ceil_div n step)) 0 fuel s); lia.
Qed.
End loop.

Lemma foldM_record_window (ws acc : list (Z * Z)) :
  foldM record_window ws acc = ([], Ok (acc ++ ws)).
Proof.
  revert acc. induction ws as [|w ws IH]; intros acc; simpl.
  - by rewrite app_nil_r.
  - unfold record_window at 1.
    unfold mbind, M_mbind, M_bind, mret, M_mret, M_ret.
    rewrite IH. simpl. by rewrite <- app_assoc.
Qed.

Lemma length_windows_of n batch step :
  0 ≤ n → 0 < step →
  Z.of_nat (length (windows_of n batch step)) = ceil_div n step.
Proof.
  intros Hn Hstep. unfold windows_of, windows_from.
  rewrite length_fmap, length_seqZ.
  assert (0 ≤ ceil_div n step) by (unfold ceil_div; apply Z.div_pos; lia).
  lia.
Qed.

Lemma elem_of_windows_of n batch step (w : Z * Z) :
  w ∈ windows_of n batch step ↔
  ∃ k, 0 ≤ k < ceil_div n step ∧ w = window_at n batch step k.
Proof.
  unfold windows_of, windows_from. rewrite list_elem_of_fmap.
  split.
  - intros (k & -> & Hk). apply elem_of_seqZ in Hk. exists k. split; [lia|done].
  - intros (k & Hk & ->). exists k. split; [done|].
    apply elem_of_seqZ. lia.
Qed.

Lemma digits2_pos_bounds p :
  2 ^ (Z.pos (digits2_pos p) - 1) ≤ Z.pos p < 2 ^ Z.pos (digits2_pos p).
Proof.
  induction p as [p IH|p IH|]; simpl digits2_pos.
  - rewrite Pos2Z.inj_succ. change (Z.pos p~1) with (2 * Z.pos p + 1).
    replace (Z.succ (Z.pos (digits2_pos p)) - 1)
      with (Z.succ (Z.pos (digits2_pos p) - 1)) by lia.
    rewrite !Z.pow_succ_r by lia.
    set (A := 2 ^ (Z.pos (digits2_pos p) - 1)) in *.
    set (B := 2 ^ Z.pos (digits2_pos p)) in *. clearbody A B. lia.
  - rewrite Pos2Z.inj_succ. change (Z.pos p~0) with (2 * Z.pos p).
    replace (Z.succ (Z.pos (digits2_pos p)) - 1)
      with (Z.succ (Z.pos (digits2_pos p) - 1)) by lia.
    rewrite !Z.pow_succ_r by lia.
    set (A := 2 ^ (Z.pos (digits2_pos p) - 1)) in *.
    set (B := 2 ^ Z.pos (digits2_pos p)) in *. clearbody A B. lia.
  - split; by vm_compute.
Qed.

Lemma digits2_pos_le p k : Z.pos p < 2 ^ k → Z.pos (digits2_pos p) ≤ k.
Proof.
  intros H. pose proof (digits2_pos_bounds p) as [Hlo _].
  destruct (Z.le_gt_cases (Z.pos (digits2_pos p)) k) as [?|Hgt]; [done|].
  exfalso.
  assert (0 ≤ k).
  { destruct (Z.le_gt_cases 0 k); [done|]. rewrite Z.pow_neg_r in H; lia. }
  assert (2 ^ k ≤ 2 ^ (Z.pos (digits2_pos p) - 1))
    by (apply Z.pow_le_mono_r; lia).
  lia.
Qed.

Lemma shr_1_m mrs : 0 ≤ shr_m mrs → shr_m (shr_1 mrs) = shr_m mrs / 2.
Proof.
  destruct mrs as [m r s]. simpl. intros Hm.
  destruct m as [|[p|p|]|p]; simpl; try lia; try reflexivity.
  - change (Z.pos p~1) with (2 * Z.pos p + 1).
    apply (Z.div_unique_pos _ _ _ 1); lia.
  - change (Z.pos p~0) with (2 * Z.pos p).
    apply (Z.div_unique_pos _ _ _ 0); lia.
Qed.

Lemma shr_m_iter_pos n : ∀ mrs,
  0 ≤ shr_m mrs →
  shr_m (SpecFloat.iter_pos shr_1 n mrs) = shr_m mrs / 2 ^ Z.pos n.
Proof.
  induction n as [n IH|n IH|]; intros mrs Hm; cbn [SpecFloat.iter_pos].
  - assert (0 ≤ shr_m (shr_1 mrs)) as H1
      by (rewrite shr_1_m by done; apply Z.div_pos; lia).
    assert (0 ≤ shr_m (SpecFloat.iter_pos shr_1 n (shr_1 mrs))) as H2
      by (rewrite IH by done; apply Z.div_pos; lia).
    rewrite IH, IH, shr_1_m by done.
    rewrite !Z.div_div by lia. f_equal.
    change (Z.pos n~1) with (2 * Z.pos n + 1).
    replace (2 * Z.pos n + 1) with (1 + Z.pos n + Z.pos n) by lia.
    rewrite !Z.pow_add_r by lia. lia.
  - assert (0 ≤ shr_m (SpecFloat.iter_pos shr_1 n mrs)) as H2
      by (rewrite IH by done; apply Z.div_pos; lia).
    rewrite IH, IH by done.
    rewrite !Z.div_div by lia. f_equal.
    change (Z.pos n~0) with (2 * Z.pos n).
    replace (2 * Z.pos n) with (Z.pos n + Z.pos n) by lia.
    rewrite !Z.pow_add_r by lia. lia.
  - by apply shr_1_m.
Qed.

Lemma shr_fexp_spec m e l :
  0 ≤ m →
  let k := Z.max 0 (fexp prec emax (Zdigits2 m + e) - e) in
  (shr_m (shr_fexp prec emax m e l).1 = m / 2 ^ k)
  ∧ (shr_fexp prec emax m e l).2 = e + k.
Proof.
  intros Hm k. unfold shr_fexp, shr.
  assert (shr_m (shr_record_of_loc m l) = m) as Hrec
    by (by destruct l as [|[]]).
  change (Z.sub (fexp prec emax (Z.add (Zdigits2 m) e)) e)
    with (fexp prec emax (Zdigits2 m + e) - e).
  subst k.
  destruct (fexp prec emax (Zdigits2 m + e) - e) as [|n|n] eqn:Hn;
    cbn [fst snd].
  - rewrite Hrec. simpl. rewrite Z.div_1_r. split; [done|lia].
  - rewrite shr_m_iter_pos by (rewrite Hrec; lia).
    rewrite Hrec. rewrite Z.max_r by lia. done.
  - rewrite Hrec. rewrite Z.max_l by lia. simpl. rewrite Z.div_1_r.
    split; [done|lia].
Qed.

Lemma round_nearest_even_bounds m l :
  m ≤ round_nearest_even m l ≤ m + 1.
Proof.
  unfold round_nearest_even. destruct l as [|[]]; try lia.
  destruct (Z.even m); lia.
Qed.

(** Rounding a non-negative mantissa never yields a NaN or a set sign. *)
Lemma binary_round_aux_nonneg m e l :
  0 ≤ m → SF_nonneg_number (binary_round_aux prec emax false m e l) = true.
Proof.
  intros Hm. unfold binary_round_aux.
  pose proof (shr_fexp_spec m e l Hm) as [H1 _].
  destruct (shr_fexp prec emax m e l) as [mrs1 e1]. cbn [fst snd] in *.
  pose proof (round_nearest_even_bounds (shr_m mrs1)
                (loc_of_shr_record mrs1)) as Hr.
  assert (0 ≤ shr_m mrs1) by (rewrite H1; apply Z.div_pos; lia).
  set (m1 := round_nearest_even (shr_m mrs1) (loc_of_shr_record mrs1)) in *.
  pose proof (shr_fexp_spec m1 e1 loc_Exact ltac:(lia)) as [H2 _].
  destruct (shr_fexp prec emax m1 e1 loc_Exact) as [mrs2 e2].
  cbn [fst snd] in *.
  assert (0 ≤ shr_m mrs2) by (rewrite H2; apply Z.div_pos; lia).
  destruct (shr_m mrs2); [reflexivity| |lia].
  destruct (Z.leb e2 (Z.sub emax prec)); reflexivity.
Qed.

(** Rounding a positive mantissa that is neither below the subnormal
    range nor above the largest exponent yields a finite number. *)
Lemma binary_round_aux_finite s p e l :
  -1073 ≤ Z.pos (digits2_pos p) + e ≤ 1023 → e ≤ 971 →
  ∃ m' e', binary_round_aux prec emax s (Z.pos p) e l = S754_finite s m' e'.
Proof.
  intros HD He. unfold binary_round_aux.
  pose proof (digits2_pos_bounds p) as [Hlo Hhi].
  set (D := Z.pos (digits2_pos p)) in *.
  assert (1 ≤ D) by (unfold D; lia).
  pose proof (shr_fexp_spec (Z.pos p) e l ltac:(lia)) as [Hs1 Hs1e].
  change (Zdigits2 (Z.pos p)) with D in Hs1, Hs1e.
  rewrite fexp_eq in Hs1, Hs1e.
  set (k1 := Z.max 0 (Z.max (D + e - 53) (-1074) - e)) in *.
  assert (0 ≤ k1 ≤ D - 1) by lia.
  destruct (shr_fexp prec emax (Z.pos p) e l) as [mrs1 e1].
  cbn [fst snd] in *.
  pose proof (round_nearest_even_bounds (shr_m mrs1)
                (loc_of_shr_record mrs1)) as Hr.
  set (m1 := round_nearest_even (shr_m mrs1) (loc_of_shr_record mrs1)) in *.
  assert (1 ≤ shr_m mrs1) as Hq1lo.
  { rewrite Hs1. apply Z.div_le_lower_bound; [lia|].
    assert (2 ^ k1 ≤ 2 ^ (D - 1)) by (apply Z.pow_le_mono_r; lia). lia. }
  assert (shr_m mrs1 < 2 ^ (D - k1)) as Hq1hi.
  { rewrite Hs1. apply Z.div_lt_upper_bound; [lia|].
    rewrite <- Z.pow_add_r by lia. replace (k1 + (D - k1)) with D by lia.
    done. }
  destruct m1 as [|p1|p1] eqn:Hm1; [lia| |lia].
  pose proof (digits2_pos_bounds p1) as [Hlo1 Hhi1].
  assert (Z.pos (digits2_pos p1) ≤ D - k1 + 1) as HD1.
  { apply digits2_pos_le. rewrite Z.pow_add_r by lia. lia. }
  set (D1 := Z.pos (digits2_pos p1)) in *.
  assert (1 ≤ D1) by (unfold D1; lia).
  pose proof (shr_fexp_spec (Z.pos p1) e1 loc_Exact ltac:(lia)) as [Hs2 Hs2e].
  change (Zdigits2 (Z.pos p1)) with D1 in Hs2, Hs2e.
  rewrite fexp_eq in Hs2, Hs2e.
  set (k2 := Z.max 0 (Z.max (D1 + e1 - 53) (-1074) - e1)) in *.
  assert (0 ≤ k2 ≤ D1 - 1) by lia.
  destruct (shr_fexp prec emax (Z.pos p1) e1 loc_Exact) as [mrs2 e2].
  cbn [fst snd] in *.
  assert (1 ≤ shr_m mrs2) as Hq2.
  { rewrite Hs2. apply Z.div_le_lower_bound; [lia|].
    assert (2 ^ k2 ≤ 2 ^ (D1 - 1)) by (apply Z.pow_le_mono_r; lia). lia. }
  destruct (shr_m mrs2) as [|p2|p2]; [lia| |lia].
  change (Z.sub emax prec) with 971.
  destruct (Z.leb_spec e2 971); [eauto|lia].
Qed.

Lemma pos_iter_xO p d : Z.pos (Pos.iter xO p d) = Z.pos p * 2 ^ Z.pos d.
Proof.
  rewrite <- Z.shiftl_mul_pow2 by lia. simpl.
  apply Pos.iter_swap_gen. reflexivity.
Qed.

(** The conversion of a positive integer below [2^63] is a positive
    finite double. *)
Lemma binary_normalize_positive_finite z :
  0 < z < 2 ^ 63 →
  SF_positive_finite (binary_normalize prec emax z 0 false) = true.
Proof.
  intros Hz. destruct z as [|p|p]; [lia| |lia].
  unfold binary_normalize, binary_round.
  pose proof (digits2_pos_bounds p) as [Hlo Hhi].
  assert (Z.pos (digits2_pos p) ≤ 63) as HD by (apply digits2_pos_le; lia).
  set (D := Z.pos (digits2_pos p)) in *.
  assert (1 ≤ D) by (unfold D; lia).
  change (Z.add (Z.pos (digits2_pos p)) 0) with (D + 0).
  rewrite fexp_eq. unfold shl_align.
  change (Z.sub (Z.max (D + 0 - 53) (-1074)) 0)
    with (Z.max (D + 0 - 53) (-1074) - 0).
  destruct (Z.max (D + 0 - 53) (-1074) - 0) as [|d|d] eqn:Hd.
  - destruct (binary_round_aux_finite false p 0 loc_Exact)
      as (m' & e' & ->); [fold D; lia|lia|done].
  - destruct (binary_round_aux_finite false p 0 loc_Exact)
      as (m' & e' & ->); [fold D; lia|lia|done].
  - pose proof (pos_iter_xO p d) as Hmz.
    pose proof (digits2_pos_bounds (Pos.iter xO p d)) as [Hlo' Hhi'].
    assert (Z.pos (digits2_pos (Pos.iter xO p d)) ≤ D + Z.pos d) as Hle.
    { apply digits2_pos_le. rewrite Hmz, Z.pow_add_r by lia.
      apply Z.mul_lt_mono_pos_r; lia. }
    destruct (binary_round_aux_finite false (Pos.iter xO p d)
                (Z.max (D + 0 - 53) (-1074)) loc_Exact)
      as (m' & e' & ->); [lia|lia|done].
Qed.

Lemma double_of_size_positive_finite n :
  (1 ≤ n)%nat → Z.of_nat n ≤ PTRDIFF_MAX →
  SF_positive_finite (Prim2SF (double_of_size n)) = true.
Proof.
  intros Hn Hmax. unfold double_of_size, PTRDIFF_MAX in *.
  rewrite of_uint63_spec.
  rewrite Uint63.of_Z_spec.
  change wB with (2 ^ 63).
  rewrite Z.mod_small by lia.
  apply binary_normalize_positive_finite. lia.
Qed.

Lemma binary_round_nonneg m e :
  SF_nonneg_number (binary_round prec emax false m e) = true.
Proof.
  unfold binary_round. destruct (shl_align m e _) as [mz ez].
  by apply binary_round_aux_nonneg.
Qed.

Lemma SFadd_nonneg X Y :
  SF_nonneg_number X = true → SF_nonneg_number Y = true →
  SF_nonneg_number (SF64add X Y) = true.
Proof.
  destruct X as [[]|[]| |[] mx ex], Y as [[]|[]| |[] my ey];
    intros HX HY; try discriminate; try reflexivity.
  unfold SF64add, SFadd. cbv zeta.
  apply binary_round_nonneg.
Qed.

Lemma SFmul_self_nonneg X :
  SF_is_nan X = false → SF_nonneg_number (SF64mul X X) = true.
Proof.
  destruct X as [[]|[]| |[] mx ex]; intros HX; try discriminate;
    try reflexivity; by apply binary_round_aux_nonneg.
Qed.

Lemma sqrt_core_nonneg m e :
  0 ≤ m → 0 ≤ (SFsqrt_core_binary prec emax m e).1.1.
Proof.
  intros Hm. unfold SFsqrt_core_binary.
  match goal with |- context [Z.sqrtrem ?x] =>
    assert (0 ≤ x) as Hx; [|pose proof (Z.sqrtrem_spec x Hx) as Hspec;
                            destruct (Z.sqrtrem x) as [q r]]
  end.
  { destruct (Z.sub e _) as [|s|s]; [done| |done].
    apply Z.shiftl_nonneg. done. }
  cbn [fst snd]. nia.
Qed.

Lemma SFsqrt_nonneg X :
  SF_nonneg_number X = true → SF_nonneg_number (SF64sqrt X) = true.
Proof.
  destruct X as [[]|[]| |[] mx ex]; intros HX; try discriminate;
    try reflexivity.
  unfold SF64sqrt, SFsqrt.
  pose proof (sqrt_core_nonneg (Z.pos mx) ex ltac:(lia)) as Hq.
  destruct (SFsqrt_core_binary prec emax (Z.pos mx) ex) as [[mz ez] lz].
  by apply binary_round_aux_nonneg.
Qed.

Lemma div_core_nonneg m1 e1 m2 e2 :
  0 ≤ m1 → 0 < m2 → 0 ≤ (SFdiv_core_binary prec emax m1 e1 m2 e2).1.1.
Proof.
  intros Hm1 Hm2. unfold SFdiv_core_binary.
  match goal with |- context [Z.div_eucl ?x m2] =>
    assert (0 ≤ x) as Hx;
      [|pose proof (Z_div_mod x m2 ltac:(lia)) as Hspec;
        destruct (Z.div_eucl x m2) as [q r]]
  end.
  { destruct (Z.sub _ _) as [|s|s]; [done| |done].
    apply Z.shiftl_nonneg. done. }
  cbn [fst snd]. nia.
Qed.

Lemma SFdiv_nonneg X Y :
  SF_nonneg_number X = true → SF_positive_finite Y = true →
  SF_nonneg_number (SF64div X Y) = true.
Proof.
  destruct X as [[]|[]| |[] mx ex], Y as [[]|[]| |[] my ey];
    intros HX HY; try discriminate; try reflexivity.
  unfold SF64div, SFdiv.
  pose proof (div_core_nonneg (Z.pos mx) ex (Z.pos my) ey
                ltac:(lia) ltac:(lia)) as Hq.
  destruct (SFdiv_core_binary prec emax (Z.pos mx) ex (Z.pos my) ey)
    as [[mz ez] lz].
  by apply binary_round_aux_nonneg.
Qed.

Lemma nonneg_number_add x y :
  nonneg_number x → nonneg_number y → nonneg_number (x + y)%float.
Proof. unfold nonneg_number. rewrite FloatAxioms.add_spec. apply SFadd_nonneg. Qed.

Lemma nonneg_number_square x : not_nan x → nonneg_number (x * x)%float.
Proof.
  unfold nonneg_number, not_nan. rewrite FloatAxioms.mul_spec.
  apply SFmul_self_nonneg.
Qed.

Lemma nonneg_number_sqrt x :
  nonneg_number x → nonneg_number (PrimFloat.sqrt x).
Proof.
  unfold nonneg_number. rewrite FloatAxioms.sqrt_spec. apply SFsqrt_nonneg.
Qed.

Lemma nonneg_number_div x y :
  nonneg_number x → SF_positive_finite (Prim2SF y) = true →
  nonneg_number (x / y)%float.
Proof.
  unfold nonneg_number. rewrite FloatAxioms.div_spec. apply SFdiv_nonneg.
Qed.

Lemma nonneg_number_zero : nonneg_number 0%float.
Proof. reflexivity. Qed.

Lemma nonneg_number_le x : nonneg_number x → (0 <=? x)%float = true.
Proof.
  unfold nonneg_number. rewrite FloatAxioms.leb_spec.
  change (Prim2SF 0) with (S754_zero false).
  by destruct (Prim2SF x) as [[]|[]| |[] m e].
Qed.

Lemma positive_finite_not_zero x :
  SF_positive_finite (Prim2SF x) = true → (x =? 0)%float = false.
Proof.
  rewrite FloatAxioms.eqb_spec.
  change (Prim2SF 0) with (S754_zero false).
  by destruct (Prim2SF x) as [[]|[]| |[] m e].
Qed.

Lemma is_nan_spec x : PrimFloat.is_nan x = SF_is_nan (Prim2SF x).
Proof.
  unfold PrimFloat.is_nan. rewrite FloatAxioms.eqb_spec.
  destruct (Prim2SF x) as [[]|[]| |[] m e]; try reflexivity;
    unfold SFeqb, SFcompare; rewrite Z.compare_refl, Pos.compare_cont_refl;
    reflexivity.
Qed.

(* ================================================================== *)
(** ** The accumulation map *)

Section entries.
Context {T : Type}.
Implicit Types m : gmap N T.

Lemma sorted_entries_perm m : sorted_entries m ≡ₚ map_to_list m.
Proof. apply merge_sort_Permutation. Qed.

Lemma elem_of_sorted_entries m k v :
  (k, v) ∈ sorted_entries m ↔ m !! k = Some v.
Proof. rewrite sorted_entries_perm. apply elem_of_map_to_list. Qed.

Lemma NoDup_fst_sorted_entries m : NoDup (sorted_entries m).*1.
Proof. rewrite sorted_entries_perm. apply NoDup_fst_map_to_list. Qed.

Lemma length_sorted_entries m : length (sorted_entries m) = size m.
Proof. rewrite sorted_entries_perm. apply length_map_to_list. Qed.

Lemma sorted_entries_lookup m k v :
  m !! k = Some v → ∃ i, sorted_entries m !! i = Some (k, v).
Proof. intros H. apply list_elem_of_lookup, elem_of_sorted_entries, H. Qed.

End entries.

Lemma lookup_push_back_at k v iv k' :
  push_back_at k v iv !! k'
  = if decide (k = k') then Some (default [] (iv !! k) ++ [v]) else iv !! k'.
Proof. unfold push_back_at. apply lookup_insert. Qed.

Lemma foldl_push_back_lookup (l : list (N * MotionIntegrationOutcome)) :
  ∀ iv k, NoDup l.*1 →
  foldl (λ iv point, push_back_at point.1 (norm (velocity point.2)) iv) iv l !! k
  = match list_find (λ p, p.1 = k) l with
    | Some (_, p) => Some (default [] (iv !! k) ++ [norm (velocity p.2)])
    | None => iv !! k
    end.
Proof.
  induction l as [|[k0 o] l IH]; intros iv k Hnd; [reflexivity|].
  apply NoDup_cons in Hnd as [Hk0 Hnd]. simpl in *.
  rewrite IH by done. rewrite lookup_push_back_at.
  destruct (decide (k0 = k)) as [->|Hne]; simpl.
  - destruct (list_find (λ p, p.1 = k) l) as [[i p]|] eqn:Hf; [|done].
    apply list_find_Some in Hf as (Hl & Hp & _).
    exfalso. apply Hk0. rewrite <- Hp.
    apply list_elem_of_fmap. exists p. split; [done|].
    by eapply list_elem_of_lookup_2.
  - by destruct (list_find (λ p, p.1 = k) l) as [[i p]|].
Qed.

Lemma lookup_store_magnitudes traj iv k :
  store_magnitudes traj iv !! k
  = match traj !! k with
    | Some o => Some (default [] (iv !! k) ++ [norm (velocity o)])
    | None => iv !! k
    end.
Proof.
  unfold store_magnitudes.
  rewrite foldl_push_back_lookup by apply NoDup_fst_sorted_entries.
  destruct (list_find _ _) as [[i [k' o]]|] eqn:Hf.
  - apply list_find_Some in Hf as (Hl & Hp & _). simpl in Hp. subst k'.
    apply list_elem_of_lookup_2, elem_of_sorted_entries in Hl.
    by rewrite Hl.
  - destruct (traj !! k) as [o|] eqn:Hk; [|done].
    apply elem_of_sorted_entries in Hk.
    eapply list_find_None, Forall_forall in Hf; [|exact Hk]. done.
Qed.

Lemma nonempty_lists_empty : nonempty_lists ∅.
Proof. intros k vs H. by rewrite lookup_empty in H. Qed.

Lemma nonempty_lists_store traj iv :
  nonempty_lists iv → nonempty_lists (store_magnitudes traj iv).
Proof.
  intros Hiv k vs. rewrite lookup_store_magnitudes.
  destruct (traj !! k) as [o|]; [|apply Hiv].
  intros [= <-]. by destruct (default [] (iv !! k)).
Qed.

Lemma nonempty_lists_collect trajs : ∀ iv,
  nonempty_lists iv → nonempty_lists (collect trajs iv).
Proof.
  induction trajs as [|traj trajs IH]; intros iv Hiv; [done|].
  apply IH, nonempty_lists_store, Hiv.
Qed.

Lemma lookup_collect trajs : ∀ iv k,
  nonempty_lists iv →
  collect trajs iv !! k
  = guard_nonempty (default [] (iv !! k) ++ estimates_for k trajs).
Proof.
  induction trajs as [|traj trajs IH]; intros iv k Hiv; simpl.
  - rewrite app_nil_r. destruct (iv !! k) as [vs|] eqn:Hk; [|done].
    simpl. apply Hiv in Hk. by destruct vs.
  - unfold collect in *. simpl. rewrite IH by by apply nonempty_lists_store.
    rewrite lookup_store_magnitudes. unfold estimates_for. simpl.
    destruct (traj !! k) as [o|]; simpl; [|done].
    by rewrite <- app_assoc.
Qed.

Lemma lookup_collect_empty trajs k :
  collect trajs ∅ !! k = guard_nonempty (estimates_for k trajs).
Proof.
  rewrite lookup_collect by apply nonempty_lists_empty.
  by rewrite lookup_empty.
Qed.

Lemma lookup_collect_Some trajs k vs :
  collect trajs ∅ !! k = Some vs ↔ vs = estimates_for k trajs ∧ vs ≠ [].
Proof.
  rewrite lookup_collect_empty. unfold guard_nonempty.
  destruct (estimates_for k trajs) as [|v l]; split.
  - done.
  - intros [-> H]. done.
  - intros [= <-]. done.
  - intros [-> _]. done.
Qed.

Lemma run_satisfies_bind {A B} P Q D (m : M A) (f : A → M B) :
  run_satisfies P Q D m → (∀ a, run_satisfies P Q D (f a)) →
  run_satisfies P Q D (m ≫= f).
Proof.
  intros (Hm1 & Hm2 & Hm3) Hf. destruct m as [t [a|e|]]; simpl in *.
  - unfold mbind, M_mbind, M_bind. destruct (Hf a) as (Hf1 & Hf2 & Hf3).
    destruct (f a) as [t' r]. simpl in *. split; [|done].
    by apply Forall_app.
  - split; [done|]. split; [|intros [=]]. intros f' [= <-]. by apply Hm2.
  - split; [done|]. split; [intros f' [=]|]. intros _. by apply Hm3.
Qed.

Lemma run_satisfies_ret {A} P Q D (a : A) : run_satisfies P Q D (mret a).
Proof. split; [constructor|]. split; [intros f [=]|intros [=]]. Qed.

Lemma run_satisfies_abort {A} P Q D (f : Fatal) :
  Q f → run_satisfies P Q D (([], Abort f) : M A).
Proof.
  intros HQ. split; [constructor|]. split; [|intros [=]].
  by intros f' [= <-].
Qed.

Lemma run_satisfies_CHECK P Q D line cond :
  Q (CheckFailed line) → run_satisfies P Q D (CHECK line cond).
Proof.
  intros HQ. unfold CHECK. destruct cond; [apply run_satisfies_ret|].
  by apply run_satisfies_abort.
Qed.

Lemma run_satisfies_call {A} P Q D ev st line (r : option A) :
  P ev → Q (Aborted st line) → run_satisfies P Q D (call ev st line r).
Proof.
  intros HP HQ. unfold call.
  destruct r; (split; [by repeat constructor|]); (split; [|intros [=]]).
  - intros f [=].
  - by intros f [= <-].
Qed.

Lemma run_satisfies_quiet {A} P Q D st line (r : option A) :
  Q (Aborted st line) → run_satisfies P Q D (quiet st line r).
Proof.
  intros HQ. unfold quiet. destruct r; [apply run_satisfies_ret|].
  by apply run_satisfies_abort.
Qed.

Lemma run_satisfies_written P Q D ev line r :
  P ev → Q (Aborted StWriteJson line) →
  run_satisfies P Q D (written ev line r).
Proof.
  intros HP HQ. unfold written. destruct r.
  - split; [by repeat constructor|]. split; [intros f [=]|intros [=]].
  - by apply run_satisfies_abort.
Qed.

Lemma run_satisfies_foldM {A S} P Q D (body : A → S → M S) (l : list A) :
  (∀ a s, run_satisfies P Q D (body a s)) →
  ∀ s, run_satisfies P Q D (foldM body l s).
Proof.
  intros Hbody. induction l as [|a l IH]; intros s; simpl.
  - apply run_satisfies_ret.
  - apply run_satisfies_bind; [apply Hbody|apply IH].
Qed.

Lemma run_satisfies_sliding_loop {S} P Q fuel n batch step
    (body : Z * Z → S → M S) :
  (∀ w s, run_satisfies P Q True (body w s)) →
  ∀ start s,
    run_satisfies P Q True (sliding_loop fuel n batch step body start s).
Proof.
  intros Hbody. induction fuel as [|fuel IH]; intros start s; simpl.
  - split; [constructor|]. split; [intros f [=]|done].
  - destruct (start <? n); [|apply run_satisfies_ret].
    apply run_satisfies_bind; [apply Hbody|]. intros s'. apply IH.
Qed.

Lemma run_satisfies_impl {A} (P P' : Event → Prop) (Q Q' : Fatal → Prop)
    (D D' : Prop) (m : M A) :
  (∀ ev, P ev → P' ev) → (∀ f, Q f → Q' f) → (D → D') →
  run_satisfies P Q D m → run_satisfies P' Q' D' m.
Proof.
  intros HP HQ HD (H1 & H2 & H3).
  split; [by eapply Forall_impl|]. split; eauto.
Qed.

(** Inversion of a bind that did not fail. *)
Lemma bind_Ok_inv {A B} (m : M A) (f : A → M B) t b :
  (m ≫= f) = (t, Ok b) →
  ∃ t1 a t2, m = (t1, Ok a) ∧ f a = (t2, Ok b) ∧ t = t1 ++ t2.
Proof.
  destruct m as [t1 [a|e|]]; unfold mbind, M_mbind, M_bind; try done.
  destruct (f a) as [t2 r] eqn:Hf. intros [= <- ->]. eauto 6.
Qed.

Section windows.
Context (E : Externals).
Context (gps : list TimestampedVelocity) (rot acc : list Timestamped3D).
Context (param : LBFGSParam).

Lemma window_body_ok w traj iv :
  window_trajectory E gps rot acc param w = Some traj →
  window_body E gps rot acc param w iv
  = (window_events w, Ok (store_magnitudes traj iv)).
Proof.
  unfold window_trajectory, window_body.
  destruct (AccelerometerCalibrator E _ rot acc) as [c|]; [|done]. simpl.
  destruct (minimize E param c Vector9_Zero) as [r|]; [|done]. simpl.
  intros ->. reflexivity.
Qed.

Lemma window_body_ok_inv w iv t iv' :
  window_body E gps rot acc param w iv = (t, Ok iv') →
  ∃ traj, window_trajectory E gps rot acc param w = Some traj
    ∧ iv' = store_magnitudes traj iv ∧ t = window_events w.
Proof.
  unfold window_trajectory, window_body.
  destruct (AccelerometerCalibrator E _ rot acc) as [c|]; [|done]. simpl.
  destruct (minimize E param c Vector9_Zero) as [r|]; [|done]. simpl.
  destruct (IntegrateTrajectory E c _ _ _) as [traj|]; [|done]. simpl.
  intros [= <- <-]. eauto.
Qed.

Lemma window_body_run w iv :
  run_satisfies (λ ev, ∃ st, ev = EvCompute st (Some w))
    (λ f, ∃ st line, f = Aborted st line ∧ (178 ≤ line ≤ 199)%nat) False
    (window_body E gps rot acc param w iv).
Proof.
  unfold window_body.
  repeat first
    [ apply run_satisfies_ret
    | apply run_satisfies_bind; [|intros ?]
    | apply run_satisfies_call; [by eexists|do 2 eexists; split; [done|lia]] ].
Qed.

Lemma foldM_window_body_ok ws : ∀ trajs iv,
  Forall2 (λ w traj, window_trajectory E gps rot acc param w = Some traj)
    ws trajs →
  foldM (window_body E gps rot acc param) ws iv
  = (ws ≫= window_events, Ok (collect trajs iv)).
Proof.
  induction ws as [|w ws IH]; intros trajs iv Hall; inversion Hall; subst.
  - reflexivity.
  - simpl. erewrite window_body_ok by done.
    unfold mbind at 1, M_mbind, M_bind. by erewrite IH by done.
Qed.

Lemma foldM_window_body_ok_inv ws : ∀ iv t iv',
  foldM (window_body E gps rot acc param) ws iv = (t, Ok iv') →
  ∃ trajs,
    Forall2 (λ w traj, window_trajectory E gps rot acc param w = Some traj)
      ws trajs
    ∧ iv' = collect trajs iv ∧ t = ws ≫= window_events.
Proof.
  induction ws as [|w ws IH]; intros iv t iv' Hrun; simpl in Hrun.
  - injection Hrun as <- <-. exists []. by repeat constructor.
  - apply bind_Ok_inv in Hrun as (t1 & iv1 & t2 & Hw & Hrest & ->).
    apply window_body_ok_inv in Hw as (traj & Htraj & -> & ->).
    apply IH in Hrest as (trajs & Hall & -> & ->).
    exists (traj :: trajs). by repeat constructor.
Qed.

End windows.

(** A loop that ended normally ran its body on a list of windows. *)
Lemma sliding_loop_Ok_inv {S} fuel n batch step (body : Z * Z → S → M S) :
  ∀ start s t s',
  sliding_loop fuel n batch step body start s = (t, Ok s') →
  ∃ ws, foldM body ws s = (t, Ok s').
Proof.
  induction fuel as [|fuel IH]; intros start s t s' Hrun; [done|].
  simpl in *. destruct (start <? n).
  - apply bind_Ok_inv in Hrun as (t1 & s1 & t2 & Hb & Hrest & ->).
    apply IH in Hrest as (ws & Hfold).
    exists ((start, Z.min (size_t_wrap (start + batch)) n) :: ws).
    simpl. rewrite Hb. unfold mbind, M_mbind, M_bind. by rewrite Hfold.
  - injection Hrun as <- <-. by exists [].
Qed.

Section averaging.
Context (E : Externals) (calibrator : Calibrator E).

Lemma average_step_run point acc :
  run_satisfies (λ _, False) (λ f, f = Aborted StMergedTime 223) False
    (average_step E calibrator point acc).
Proof.
  unfold average_step. destruct acc as [[a s] u].
  apply run_satisfies_bind; [by apply run_satisfies_quiet|].
  intros time. apply run_satisfies_ret.
Qed.

Lemma average_step_ok_inv point a s u t a' s' u' :
  average_step E calibrator point (a, s, u) = (t, Ok (a', s', u')) →
  ∃ time, MergedEventTimeUsec E calibrator point.1 = Some time
    ∧ a' = a ++ [average point.2] ∧ u' = u ++ [time]
    ∧ length s' = Datatypes.S (length s).
Proof.
  unfold average_step.
  destruct (MergedEventTimeUsec E calibrator point.1) as [time|]; [|done].
  simpl. intros [= <- <- <- <-]. exists time.
  rewrite length_app. simpl. repeat split; lia.
Qed.

Lemma foldM_average_step_ok_inv l : ∀ a s u t a' s' u',
  foldM (average_step E calibrator) l (a, s, u) = (t, Ok (a', s', u')) →
  ∃ times,
    Forall2 (λ point time,
               MergedEventTimeUsec E calibrator point.1 = Some time) l times
    ∧ a' = a ++ ((λ point, average point.2) <$> l)
    ∧ u' = u ++ times
    ∧ length s' = (length s + length l)%nat.
Proof.
  induction l as [|point l IH]; intros a s u t a' s' u' Hrun; simpl in Hrun.
  - injection Hrun as <- <- <- <-. exists [].
    rewrite !app_nil_r. repeat split; [constructor|simpl; lia].
  - apply bind_Ok_inv in Hrun as (t1 & [[a1 s1] u1] & t2 & Hs & Hrest & ->).
    apply average_step_ok_inv in Hs as (time & Htime & -> & -> & Hlen).
    apply IH in Hrest as (times & Hall & -> & -> & Hlen').
    exists (time :: times). rewrite <- !app_assoc. simpl.
    repeat split; [by constructor|lia].
Qed.

Lemma average_all_ok_inv iv t averaged timestamps_sec timestamps_usec :
  average_all E calibrator iv
  = (t, Ok (averaged, timestamps_sec, timestamps_usec)) →
  averaged = averages iv
  ∧ Forall2 (λ point time,
               MergedEventTimeUsec E calibrator point.1 = Some time)
      (sorted_entries iv) timestamps_usec
  ∧ length timestamps_sec = size iv.
Proof.
  intros Hrun. apply foldM_average_step_ok_inv in Hrun
    as (times & Hall & -> & -> & Hlen).
  rewrite length_sorted_entries in Hlen. done.
Qed.

End averaging.

Lemma M_bind_assoc {A B C} (m : M A) (f : A → M B) (g : B → M C) :
  ((m ≫= f) ≫= g) = (m ≫= λ a, f a ≫= g).
Proof.
  destruct m as [t [a|e|]]; try reflexivity.
  unfold mbind, M_mbind, M_bind.
  destruct (f a) as [t1 [b|e|]]; try reflexivity.
  destruct (g b) as [t2 r]. by rewrite app_assoc.
Qed.

Lemma M_bind_ext {A B} (m : M A) (f g : A → M B) :
  (∀ a, f a = g a) → (m ≫= f) = (m ≫= g).
Proof.
  intros H. destruct m as [t [a|e|]]; try reflexivity.
  unfold mbind, M_mbind, M_bind. by rewrite H.
Qed.

Section phases.
Context (E : Externals).

Lemma main_phases fuel F :
  main E fuel F
  = (inputs ← before_steering E F;
     write_steering E F inputs.1.1.1 inputs.2;;
     result ← between_writes E fuel F inputs.1.1.1 inputs.1.1.2 inputs.1.2;
     write_velocities E F result.1 result.2;;
     mret 0).
Proof.
  unfold main, before_steering.
  repeat (rewrite M_bind_assoc; apply M_bind_ext; intros ?).
  rewrite M_bind_ret_l. cbn [fst snd].
  apply M_bind_ext; intros _.
  unfold between_writes.
  repeat (rewrite M_bind_assoc; apply M_bind_ext; intros ?).
  rewrite M_bind_ret_l. reflexivity.
Qed.

End phases.

Lemma is_preparation_not_write ev : is_preparation ev → is_write ev = false.
Proof. by destruct ev as [|? []| |]. Qed.

Lemma is_preparation_not_optimization ev :
  is_preparation ev → is_optimization ev = false.
Proof. by destruct ev as [|? []| |]. Qed.

Lemma output_files_app t1 t2 :
  output_files (t1 ++ t2) = output_files t1 ++ output_files t2.
Proof. apply omap_app. Qed.

Lemma output_files_no_writes t :
  Forall (λ ev, is_write ev = false) t → output_files t = [].
Proof.
  induction 1 as [|ev t Hev _ IH]; [done|].
  destruct ev; try discriminate; exact IH.
Qed.

Lemma sanity_checks_cases F :
  sanity_checks F = ([], Ok ())
  ∨ ∃ line, (115 ≤ line ≤ 124)%nat
      ∧ sanity_checks F = ([], Abort (CheckFailed line)).
Proof.
  unfold sanity_checks, CHECK.
  repeat match goal with
  | |- context [if ?c then mret () else _] =>
      destruct c;
      [rewrite ?M_bind_ret_l
      |right; eexists; split; [|reflexivity]; lia]
  end.
  by left.
Qed.

Section readers.
Context (E : Externals).

Lemma ReadTimestamp3DData_run filename field_name :
  run_satisfies (λ ev, ev = EvRead filename)
    (λ f, (82 ≤ fatal_line f ≤ 89)%nat) False
    (ReadTimestamp3DData E filename field_name).
Proof.
  unfold ReadTimestamp3DData.
  apply run_satisfies_bind; [apply run_satisfies_call; [done|simpl; lia]|].
  intros root.
  apply run_satisfies_bind; [apply run_satisfies_quiet; simpl; lia|].
  intros entries.
  apply run_satisfies_bind; [apply run_satisfies_CHECK; simpl; lia|].
  intros _. apply run_satisfies_foldM. intros entry result.
  repeat (apply run_satisfies_bind;
          [apply run_satisfies_quiet; simpl; lia|intros ?]).
  apply run_satisfies_ret.
Qed.

Lemma ReadGpsVelocities_run filename :
  run_satisfies (λ ev, ev = EvRead filename)
    (λ f, (97 ≤ fatal_line f ≤ 103)%nat) False
    (ReadGpsVelocities E filename).
Proof.
  unfold ReadGpsVelocities.
  apply run_satisfies_bind; [apply run_satisfies_call; [done|simpl; lia]|].
  intros root.
  apply run_satisfies_bind; [apply run_satisfies_quiet; simpl; lia|].
  intros entries.
  apply run_satisfies_bind; [apply run_satisfies_CHECK; simpl; lia|].
  intros _. apply run_satisfies_foldM. intros entry result.
  repeat (apply run_satisfies_bind;
          [apply run_satisfies_quiet; simpl; lia|intros ?]).
  apply run_satisfies_ret.
Qed.

Lemma ReadTimestamp3DData_empty filename field_name :
  stream_empty E filename field_name →
  ReadTimestamp3DData E filename field_name
  = ([EvRead filename], Abort (CheckFailed 84)).
Proof.
  intros (root & entries & Hroot & Hentries & Hempty).
  unfold ReadTimestamp3DData. rewrite Hroot. simpl.
  rewrite Hentries. simpl. by rewrite Hempty.
Qed.

Lemma ReadGpsVelocities_empty filename :
  stream_empty E filename (kLocations E) →
  ReadGpsVelocities E filename = ([EvRead filename], Abort (CheckFailed 99)).
Proof.
  intros (root & entries & Hroot & Hentries & Hempty).
  unfold ReadGpsVelocities. rewrite Hroot. simpl.
  rewrite Hentries. simpl. by rewrite Hempty.
Qed.

Lemma before_steering_run F :
  run_satisfies is_preparation (λ f, (fatal_line f ≤ 146)%nat) False
    (before_steering E F).
Proof.
  unfold before_steering.
  apply run_satisfies_bind.
  { destruct (sanity_checks_cases F) as [->|(line & Hline & ->)].
    - apply run_satisfies_ret.
    - apply run_satisfies_abort. simpl. lia. }
  intros _.
  apply run_satisfies_bind.
  { eapply run_satisfies_impl; [| | |apply ReadTimestamp3DData_run].
    - by intros ev ->.
    - simpl. lia.
    - done. }
  intros rotations.
  apply run_satisfies_bind.
  { eapply run_satisfies_impl; [| | |apply ReadTimestamp3DData_run].
    - by intros ev ->.
    - simpl. lia.
    - done. }
  intros accelerations.
  apply run_satisfies_bind.
  { eapply run_satisfies_impl; [| | |apply ReadGpsVelocities_run].
    - by intros ev ->.
    - simpl. lia.
    - done. }
  intros gps.
  apply run_satisfies_bind; [apply run_satisfies_call; [done|simpl; lia]|].
  intros axes.
  apply run_satisfies_bind; [apply run_satisfies_call; [done|simpl; lia]|].
  intros angles.
  apply run_satisfies_bind; [apply run_satisfies_CHECK; simpl; lia|].
  intros _. apply run_satisfies_ret.
Qed.

Lemma before_steering_Ok_inv F t rotations accelerations gps angles :
  before_steering E F = (t, Ok (rotations, accelerations, gps, angles)) →
  sanity_checks F = ([], Ok ())
  ∧ (∃ t', ReadTimestamp3DData E (FLAGS_rotations_json F) (kRotations E)
           = (t', Ok rotations))
  ∧ (∃ t', ReadTimestamp3DData E (FLAGS_accelerations_json F)
             (kAccelerations E) = (t', Ok accelerations))
  ∧ (∃ t', ReadGpsVelocities E (FLAGS_locations_json F) = (t', Ok gps))
  ∧ (∃ axis, GetHorizontalTurnAngles E rotations axis = Some angles)
  ∧ length angles = length rotations.
Proof.
  unfold before_steering. intros Hrun.
  apply bind_Ok_inv in Hrun as (t0 & [] & ? & Hs & Hrun & ->).
  apply bind_Ok_inv in Hrun as (t1 & rot & ? & Hrot & Hrun & ->).
  apply bind_Ok_inv in Hrun as (t2 & acc & ? & Hacc & Hrun & ->).
  apply bind_Ok_inv in Hrun as (t3 & gps' & ? & Hgps & Hrun & ->).
  apply bind_Ok_inv in Hrun as (t4 & axes & ? & Haxes & Hrun & ->).
  apply bind_Ok_inv in Hrun as (t5 & angles' & ? & Hangles & Hrun & ->).
  apply bind_Ok_inv in Hrun as (t6 & [] & ? & Hcheck & Hrun & ->).
  injection Hrun as <- <- <- <- <-.
  unfold CHECK in Hcheck. case_bool_decide; [|done].
  unfold call in Hangles.
  destruct (GetHorizontalTurnAngles E rot _) as [a|] eqn:Ha; [|done].
  injection Hangles as <- <-.
  destruct (sanity_checks_cases F) as [Hs'|(line & _ & Hs')];
    [|by rewrite Hs' in Hs].
  repeat split; eauto.
Qed.

Lemma between_writes_run fuel F rotations accelerations gps :
  run_satisfies (λ ev, is_write ev = false)
    (λ f, (178 ≤ fatal_line f ≤ 233)%nat) True
    (between_writes E fuel F rotations accelerations gps).
Proof.
  unfold between_writes, calibrate_windows.
  apply run_satisfies_bind.
  { apply run_satisfies_sliding_loop. intros w s.
    eapply run_satisfies_impl; [| | |apply window_body_run].
    - by intros ev (st & ->).
    - intros f (st & line & -> & Hline). simpl. lia.
    - done. }
  intros iv.
  apply run_satisfies_bind; [apply run_satisfies_call; [done|simpl; lia]|].
  intros calibrator.
  apply run_satisfies_bind.
  { unfold average_all. apply run_satisfies_foldM. intros point acc'.
    eapply run_satisfies_impl; [| | |apply average_step_run].
    - done.
    - intros f ->. simpl. lia.
    - done. }
  intros averaged.
  apply run_satisfies_bind; [apply run_satisfies_call; [done|simpl; lia]|].
  intros smoothed. apply run_satisfies_ret.
Qed.

End readers.

Lemma main_sanity_abort E fuel F f :
  sanity_checks F = ([], Abort f) → main E fuel F = ([], Abort f).
Proof. intros H. unfold main. by rewrite H. Qed.

Lemma sanity_checks_invalid F :
  config_invalid F →
  ∃ line, (115 ≤ line ≤ 124)%nat
    ∧ sanity_checks F = ([], Abort (CheckFailed line)).
Proof.
  intros Hbad.
  destruct (sanity_checks_cases F) as [Hok|Habort]; [|done].
  exfalso. revert Hok. unfold sanity_checks, CHECK.
  repeat match goal with
  | |- context [if ?c then mret () else _] =>
      destruct c eqn:?; [rewrite ?M_bind_ret_l|discriminate]
  end.
  intros _.
  destruct Hbad as [H|[H|[H|[H|H]]]];
    try (apply leb_zero_not_gt in H; congruence); lia.
Qed.

Lemma sanity_checks_valid F line :
  config_valid F → (120 ≤ line ≤ 124)%nat →
  (sanity_checks F).2 ≠ Abort (CheckFailed line).
Proof.
  intros (Hb & Hs & Hsb & Hi & Hg) Hline.
  unfold sanity_checks, CHECK. rewrite Hi, Hg.
  destruct (Z.ltb_spec 0 (FLAGS_locations_batch_size F)); [|lia].
  destruct (Z.ltb_spec 0 (FLAGS_locations_shift_step F)); [|lia].
  destruct (Z.leb_spec (FLAGS_locations_shift_step F)
              (FLAGS_locations_batch_size F)); [|lia].
  repeat match goal with
  | |- context [if ?c then mret () else _] =>
      destruct c; [rewrite ?M_bind_ret_l|simpl; intros [=]; lia]
  end.
  done.
Qed.

Lemma M_bind_fuel {A B} (t : list Event) (f : A → M B) :
  ((t, OutOfFuel) ≫= f) = (t, OutOfFuel).
Proof. reflexivity. Qed.

Lemma written_cases ev line r :
  written ev line r = ([ev], Ok ())
  ∨ written ev line r = ([], Abort (Aborted StWriteJson line)).
Proof. unfold written. destruct r; auto. Qed.

Lemma M_bind_nil_ok {A B} (a : A) (f : A → M B) :
  (([], Ok a) ≫= f) = f a.
Proof. apply M_bind_ret_l. Qed.

Lemma bind_fst {A B} (m : M A) (f : A → M B) :
  (m ≫= f).1
  = m.1 ++ match m.2 with Ok a => (f a).1 | _ => [] end.
Proof.
  destruct m as [t [a|e|]]; unfold mbind, M_mbind, M_bind; cbn [fst snd];
    [by destruct (f a)|by rewrite app_nil_r..].
Qed.

Lemma bind_snd {A B} (m : M A) (f : A → M B) :
  (m ≫= f).2
  = match m.2 with
    | Ok a => (f a).2
    | Abort e => Abort e
    | OutOfFuel => OutOfFuel
    end.
Proof.
  destruct m as [t [a|e|]]; unfold mbind, M_mbind, M_bind; cbn [fst snd];
    [by destruct (f a)|done..].
Qed.

Lemma before_steering_empty_stream E F :
  stream_empty E (FLAGS_rotations_json F) (kRotations E)
  ∨ stream_empty E (FLAGS_accelerations_json F) (kAccelerations E)
  ∨ stream_empty E (FLAGS_locations_json F) (kLocations E) →
  ∃ f, (before_steering E F).2 = Abort f ∧ (fatal_line f ≤ 124)%nat.
Proof.
  intros Hempty. unfold before_steering.
  rewrite bind_snd.
  destruct (sanity_checks_cases F) as [->|(line & Hl & ->)]; cbn [snd].
  2:{ eexists. split; [done|]. simpl. lia. }
  rewrite bind_snd.
  pose proof (ReadTimestamp3DData_run E (FLAGS_rotations_json F)
                (kRotations E)) as (_ & Hq1 & Hd1).
  destruct (ReadTimestamp3DData E (FLAGS_rotations_json F) (kRotations E))
    as [t1 [rot|f|]] eqn:H1; cbn [snd] in *; [| |by destruct Hd1].
  2:{ exists f. split; [done|]. specialize (Hq1 f eq_refl). lia. }
  destruct Hempty as [Hempty|Hempty].
  { apply ReadTimestamp3DData_empty in Hempty. congruence. }
  rewrite bind_snd.
  pose proof (ReadTimestamp3DData_run E (FLAGS_accelerations_json F)
                (kAccelerations E)) as (_ & Hq2 & Hd2).
  destruct (ReadTimestamp3DData E (FLAGS_accelerations_json F)
              (kAccelerations E))
    as [t2 [acc|f|]] eqn:H2; cbn [snd] in *; [| |by destruct Hd2].
  2:{ exists f. split; [done|]. specialize (Hq2 f eq_refl). lia. }
  destruct Hempty as [Hempty|Hempty].
  { apply ReadTimestamp3DData_empty in Hempty. congruence. }
  rewrite bind_snd.
  apply ReadGpsVelocities_empty in Hempty. rewrite Hempty. cbn [snd].
  eexists. split; [done|]. simpl. lia.
Qed.

Lemma length_turn_angles_from rate axis rotations : ∀ previous heading,
  length (turn_angles_from rate axis previous heading rotations)
  = length rotations.
Proof.
  induction rotations as [|r rest IH]; intros previous heading; simpl;
    [done|by rewrite IH].
Qed.

Lemma take_turn_angles_from rate axis rotations : ∀ n previous heading,
  take n (turn_angles_from rate axis previous heading rotations)
  = turn_angles_from rate axis previous heading (take n rotations).
Proof.
  induction rotations as [|r rest IH]; intros [|n] previous heading; simpl;
    [done..|by rewrite IH].
Qed.

Lemma length_turn_angles rate rotations axis :
  length (turn_angles rate rotations axis) = length rotations.
Proof.
  destruct rotations as [|r rest]; [done|].
  apply length_turn_angles_from.
Qed.

Lemma take_turn_angles rate rotations axis n :
  take n (turn_angles rate rotations axis)
  = turn_angles rate (take n rotations) axis.
Proof.
  destruct rotations as [|r rest]; [by destruct n|].
  unfold turn_angles. rewrite take_turn_angles_from. by destruct n.
Qed.

Lemma steering_write_inv (E : Externals) (fuel : nat)
    (F : Flags) (filename root_key value_key : string)
    (timestamps : list Z) (values : list float) :
  EvWrite 151 filename root_key value_key timestamps values
    ∈ (main E fuel F).1 →
  ∃ rotations axis,
    (∃ t, ReadTimestamp3DData E (FLAGS_rotations_json F) (kRotations E)
          = (t, Ok rotations))
    ∧ GetHorizontalTurnAngles E rotations axis = Some values
    ∧ length values = length rotations
    ∧ length timestamps = length rotations
    ∧ ∀ i sample, rotations !! i = Some sample →
        timestamps !! i = Some (t3_time_usec sample)
        ∧ ∃ angle, values !! i = Some angle.
Proof.
  rewrite main_phases, bind_fst.
  pose proof (before_steering_run E F) as (Hp1 & _ & _).
  destruct (before_steering E F) as [t1 r1] eqn:H1. cbn [fst snd] in *.
  intros [Hin|Hin]%elem_of_app.
  { eapply Forall_forall in Hp1; [|exact Hin]. done. }
  destruct r1 as [[[[rot acc] gps] angles]| |];
    [|by apply elem_of_nil in Hin..].
  cbn [fst snd] in Hin.
  apply before_steering_Ok_inv in H1
    as (_ & Hrot & _ & _ & (axis & Haxis) & Hlen).
  assert (timestamps = ExtractTimestamps rot ∧ values = angles) as [-> ->].
  { rewrite bind_fst in Hin. apply elem_of_app in Hin as [Hin|Hin].
    - unfold write_steering in Hin.
      destruct (written_cases
        (EvWrite 151 (FLAGS_steering_out_json F) (kSteering E)
           (kAngularVelocity E) (ExtractTimestamps rot) angles) 151
        (JsonWriteTimestampedRealData E (ExtractTimestamps rot) angles
           (FLAGS_steering_out_json F) (kSteering E)
           (kAngularVelocity E))) as [Hw|Hw];
        rewrite Hw in Hin; cbn [fst] in Hin.
      + apply list_elem_of_singleton in Hin. by injection Hin as -> -> -> -> ->.
      + by apply elem_of_nil in Hin.
    - exfalso.
      destruct (write_steering E F rot angles).2; [|by apply elem_of_nil in Hin..].
      rewrite bind_fst in Hin. apply elem_of_app in Hin as [Hin|Hin].
      + pose proof (between_writes_run E fuel F rot acc gps) as (Hp2 & _ & _).
        eapply Forall_forall in Hp2; [|exact Hin]. done.
      + destruct (between_writes E fuel F rot acc gps).2 as [[ts sm]| |];
          [|by apply elem_of_nil in Hin..].
        rewrite bind_fst in Hin. cbn [fst snd] in Hin.
        unfold write_velocities in Hin.
        destruct (written_cases
          (EvWrite 237 (FLAGS_velocities_out_json F) (kVelocities E)
             (kSpeedMS E) ts sm) 237
          (JsonWriteTimestampedRealData E ts sm
             (FLAGS_velocities_out_json F) (kVelocities E)
             (kSpeedMS E))) as [Hw|Hw];
          rewrite Hw in Hin; cbn [fst snd] in Hin.
        * apply elem_of_app in Hin as [Hin|Hin];
            [|by apply elem_of_nil in Hin].
          apply list_elem_of_singleton in Hin. discriminate Hin.
        * by apply elem_of_nil in Hin. }
  exists rot, axis. unfold ExtractTimestamps.
  repeat split; [done..|by rewrite length_fmap| |].
  - rewrite list_lookup_fmap. by rewrite H.
  - apply lookup_lt_is_Some. rewrite Hlen. by eapply lookup_lt_Some.
Qed.

Lemma never_negative_norm v : never_negative (norm v).
Proof.
  unfold norm. apply never_negative_sqrt.
  repeat apply never_negative_add; apply never_negative_square.
Qed.

Lemma never_negative_fold_add vs : ∀ acc,
  never_negative acc → Forall never_negative vs →
  never_negative (fold_left PrimFloat.add vs acc).
Proof.
  induction vs as [|v vs IH]; intros acc Hacc Hvs; [done|].
  apply Forall_cons in Hvs as [Hv Hvs]. simpl.
  apply IH; [by apply never_negative_add|done].
Qed.

Lemma never_negative_average vs :
  Forall never_negative vs → never_negative (average vs).
Proof.
  intros Hvs. unfold average, velocity_sum, double_of_size.
  apply never_negative_div; [|apply never_negative_of_uint63].
  by apply never_negative_fold_add.
Qed.

Lemma double_of_size_1 : double_of_size 1 = 1%float.
Proof. reflexivity. Qed.

Lemma average_singleton v : never_negative v → average [v] = v.
Proof.
  intros Hv. unfold average, velocity_sum. simpl.
  rewrite double_of_size_1, float_add_zero_l by done.
  apply float_div_one.
Qed.

Lemma elem_of_estimates_for v index trajs :
  v ∈ estimates_for index trajs ↔
  ∃ traj o, traj ∈ trajs ∧ traj !! index = Some o ∧ v = norm (velocity o).
Proof.
  unfold estimates_for. rewrite list_elem_of_omap. split.
  - intros (traj & Hin & Hv). destruct (traj !! index) as [o|] eqn:Ho; [|done].
    injection Hv as <-. eauto.
  - intros (traj & o & Hin & Ho & ->). exists traj. by rewrite Ho.
Qed.

Lemma estimates_for_never_negative index trajs :
  Forall never_negative (estimates_for index trajs).
Proof.
  apply Forall_forall. intros v (traj & o & _ & _ & ->)%elem_of_estimates_for.
  apply never_negative_norm.
Qed.

Lemma ceil_div_self n : 1 ≤ n → ceil_div n n = 1.
Proof.
  intros Hn. unfold ceil_div.
  replace (n + n - 1) with (1 * n + (n - 1)) by lia.
  rewrite Z.div_add_l by lia. rewrite Z.div_small by lia. lia.
Qed.

Lemma windows_of_single n : 1 ≤ n → windows_of n n n = [(0, n)].
Proof.
  intros Hn. unfold windows_of, windows_from.
  rewrite ceil_div_self by done. simpl.
  unfold window_at. f_equal. f_equal. lia.
Qed.

Lemma subvector_all {T} (v : list T) :
  subvector 0 (Z.of_nat (length v)) v = v.
Proof.
  unfold subvector. simpl. rewrite Z.sub_0_r, Nat2Z.id. apply firstn_all.
Qed.

Section claims.
Context (E : Externals).
Context (gps : list TimestampedVelocity) (rot acc : list Timestamped3D).
Context (param : LBFGSParam).

(** What the loop of lines 167-208 leaves in the map. *)
Lemma calibrate_windows_Ok_inv fuel batch step t iv :
  calibrate_windows E fuel gps rot acc param batch step = (t, Ok iv) →
  ∃ ws trajs,
    Forall2 (λ w traj, window_trajectory E gps rot acc param w = Some traj)
      ws trajs
    ∧ iv = collect trajs ∅.
Proof.
  unfold calibrate_windows. intros Hrun.
  apply sliding_loop_Ok_inv in Hrun as (ws & Hrun).
  apply foldM_window_body_ok_inv in Hrun as (trajs & Hall & -> & _).
  eauto.
Qed.

Lemma calibrate_windows_nonempty fuel batch step t iv :
  calibrate_windows E fuel gps rot acc param batch step = (t, Ok iv) →
  nonempty_lists iv.
Proof.
  intros Hrun.
  apply calibrate_windows_Ok_inv in Hrun as (ws & trajs & _ & ->).
  apply nonempty_lists_collect, nonempty_lists_empty.
Qed.

End claims.

Lemma average_short_permutation es es' :
  es ≡ₚ es' → (length es ≤ 2)%nat → Forall never_negative es →
  average es' = average es.
Proof.
  intros Hperm Hlen Hsign.
  destruct es as [|a [|b [|c es]]]; [| | |simpl in Hlen; lia].
  - by apply Permutation_nil_l in Hperm as ->.
  - by apply Permutation_singleton_l in Hperm as ->.
  - apply Permutation_length_2_inv in Hperm as [->| ->]; [done|].
    apply Forall_cons in Hsign as [Ha Hsign].
    apply Forall_cons in Hsign as [Hb _].
    unfold average, velocity_sum. simpl.
    rewrite !float_add_zero_l by done.
    by rewrite (float_add_comm b a).
Qed.

Section order.
Context (E : Externals).
Context (gps : list TimestampedVelocity) (rot acc : list Timestamped3D).
Context (param : LBFGSParam).

Lemma trajectories_permutation ws ws' :
  ws ≡ₚ ws' → ∀ trajs,
  Forall2 (λ w traj, window_trajectory E gps rot acc param w = Some traj)
    ws trajs →
  ∃ trajs',
    Forall2 (λ w traj, window_trajectory E gps rot acc param w = Some traj)
      ws' trajs'
    ∧ trajs ≡ₚ trajs'.
Proof.
  induction 1 as [|w ws ws' _ IH|w1 w2 ws|ws ws' ws'' _ IH1 _ IH2];
    intros trajs Hall.
  - apply Forall2_nil_inv_l in Hall as ->. by exists [].
  - apply Forall2_cons_inv_l in Hall as (traj & trajs0 & Hw & Hall & ->).
    destruct (IH _ Hall) as (trajs' & Hall' & Hperm).
    exists (traj :: trajs'). split; [by constructor|by constructor].
  - apply Forall2_cons_inv_l in Hall as (traj1 & trajs0 & Hw1 & Hall & ->).
    apply Forall2_cons_inv_l in Hall as (traj2 & trajs1 & Hw2 & Hall & ->).
    exists (traj2 :: traj1 :: trajs1).
    split; [by repeat constructor|apply perm_swap].
  - destruct (IH1 _ Hall) as (trajs' & Hall' & Hperm').
    destruct (IH2 _ Hall') as (trajs'' & Hall'' & Hperm'').
    exists trajs''. split; [done|by etrans].
Qed.

End order.

Lemma nonneg_number_norm v : no_nan_components v → nonneg_number (norm v).
Proof.
  intros (Hx & Hy & Hz). unfold norm. apply nonneg_number_sqrt.
  repeat apply nonneg_number_add; by apply nonneg_number_square.
Qed.

Lemma never_negative_number x :
  never_negative x → PrimFloat.is_nan x = false → nonneg_number x.
Proof.
  unfold never_negative, nonneg_number. rewrite is_nan_spec.
  by destruct (Prim2SF x) as [[]|[]| |[] m e].
Qed.

Lemma nonneg_number_fold_add vs : ∀ acc,
  nonneg_number acc → Forall nonneg_number vs →
  nonneg_number (fold_left PrimFloat.add vs acc).
Proof.
  induction vs as [|v vs IH]; intros acc Hacc Hvs; [done|].
  apply Forall_cons in Hvs as [Hv Hvs]. simpl.
  apply IH; [by apply nonneg_number_add|done].
Qed.

Lemma nonneg_number_average vs :
  (1 ≤ length vs)%nat → Z.of_nat (length vs) ≤ PTRDIFF_MAX →
  Forall nonneg_number vs → nonneg_number (average vs).
Proof.
  intros Hlen Hmax Hvs. unfold average, velocity_sum.
  apply nonneg_number_div; [|by apply double_of_size_positive_finite].
  by apply nonneg_number_fold_add; [apply nonneg_number_zero|].
Qed.

Lemma call_trace {A} ev st line (r : option A) : (call ev st line r).1 = [ev].
Proof. by destruct r. Qed.

Section smoother.
Context (E : Externals).

Lemma between_writes_smoother_input fuel F rot acc gps values times sigma :
  EvSmooth values times sigma ∈ (between_writes E fuel F rot acc gps).1 →
  ∃ t iv calibrator t' timestamps_usec,
    calibrate_windows E fuel gps rot acc
      (main_param E F)
      (FLAGS_locations_batch_size F) (FLAGS_locations_shift_step F)
    = (t, Ok iv)
    ∧ average_all E calibrator iv
      = (t', Ok (values, times, timestamps_usec))
    ∧ sigma = FLAGS_post_smoothing_sigma_sec F.
Proof.
  unfold between_writes. rewrite bind_fst.
  set (param := main_param E F).
  pose proof (run_satisfies_sliding_loop
    (λ ev, ∃ st w, ev = EvCompute st (Some w))
    (λ _, True) fuel (Z.of_nat (length gps))
    (FLAGS_locations_batch_size F) (FLAGS_locations_shift_step F)
    (window_body E gps rot acc param)) as Hloop.
  destruct (Hloop) with (start := 0) (s := (∅ : gmap N (list float)))
    as (Hp & _ & _).
  { intros w s. eapply run_satisfies_impl; [| | |apply window_body_run].
    - intros ev (st & ->). eauto.
    - done.
    - done. }
  fold (calibrate_windows E fuel gps rot acc param
          (FLAGS_locations_batch_size F) (FLAGS_locations_shift_step F))
    in Hp |- *.
  destruct (calibrate_windows E fuel gps rot acc param _ _) as [t r].
  cbn [fst snd] in *.
  intros [Hin|Hin]%elem_of_app.
  { eapply Forall_forall in Hp; [|exact Hin]. by destruct Hp as (st & w & [=]). }
  destruct r as [iv| |]; [|by apply elem_of_nil in Hin..].
  rewrite bind_fst, call_trace in Hin.
  apply elem_of_app in Hin as [Hin|Hin].
  { by apply list_elem_of_singleton in Hin. }
  destruct (call _ StCalibrator 213 _).2 as [calibrator| |];
    [|by apply elem_of_nil in Hin..].
  rewrite bind_fst in Hin.
  pose proof (run_satisfies_foldM (λ _, False)
    (λ f, f = Aborted StMergedTime 223) False
    (average_step E calibrator) (sorted_entries iv)
    (average_step_run E calibrator) ([], [], [])) as (Hpa & _ & _).
  fold (average_all E calibrator iv) in Hpa.
  destruct (average_all E calibrator iv) as [t' ra] eqn:Havg.
  cbn [fst snd] in *.
  apply elem_of_app in Hin as [Hin|Hin].
  { eapply Forall_forall in Hpa; [|exact Hin]. done. }
  destruct ra as [[[averaged ts_sec] ts_usec]| |];
    [|by apply elem_of_nil in Hin..].
  rewrite bind_fst, call_trace in Hin. cbn [fst snd] in Hin.
  apply elem_of_app in Hin as [Hin|Hin].
  - apply list_elem_of_singleton in Hin. injection Hin as -> -> ->.
    by exists t, iv, calibrator, t', ts_usec.
  - destruct (call _ StSmooth 233 _).2; by apply elem_of_nil in Hin.
Qed.

(** The series that [main] hands to the smoother is the result of the
    averaging loop on the map that the sliding-window loop has filled. *)
Lemma main_smoother_input fuel F values times sigma :
  EvSmooth values times sigma ∈ (main E fuel F).1 →
  ∃ rot acc gps t iv calibrator t' timestamps_usec,
    (∃ t0 angles, before_steering E F = (t0, Ok (rot, acc, gps, angles)))
    ∧ calibrate_windows E fuel gps rot acc
        (main_param E F)
        (FLAGS_locations_batch_size F) (FLAGS_locations_shift_step F)
      = (t, Ok iv)
    ∧ average_all E calibrator iv
      = (t', Ok (values, times, timestamps_usec))
    ∧ sigma = FLAGS_post_smoothing_sigma_sec F.
Proof.
  rewrite main_phases, bind_fst.
  pose proof (before_steering_run E F) as (Hp1 & _ & _).
  destruct (before_steering E F) as [t1 r1] eqn:H1. cbn [fst snd] in *.
  intros [Hin|Hin]%elem_of_app.
  { eapply Forall_forall in Hp1; [|exact Hin]. done. }
  destruct r1 as [[[[rot acc] gps] angles]| |];
    [|by apply elem_of_nil in Hin..].
  cbn [fst snd] in Hin. rewrite bind_fst in Hin.
  apply elem_of_app in Hin as [Hin|Hin].
  { unfold write_steering in Hin.
    destruct (written_cases
      (EvWrite 151 (FLAGS_steering_out_json F) (kSteering E)
         (kAngularVelocity E) (ExtractTimestamps rot) angles) 151
      (JsonWriteTimestampedRealData E (ExtractTimestamps rot) angles
         (FLAGS_steering_out_json F) (kSteering E)
         (kAngularVelocity E))) as [Hw|Hw];
      rewrite Hw in Hin; cbn [fst] in Hin.
    - by apply list_elem_of_singleton in Hin.
    - by apply elem_of_nil in Hin. }
  destruct (write_steering E F rot angles).2; [|by apply elem_of_nil in Hin..].
  rewrite bind_fst in Hin. apply elem_of_app in Hin as [Hin|Hin].
  { apply between_writes_smoother_input in Hin
      as (t & iv & calibrator & t' & ts_usec & Hloop & Havg & ->).
    exists rot, acc, gps, t, iv, calibrator, t', ts_usec. eauto 10. }
  destruct (between_writes E fuel F rot acc gps).2 as [[ts sm]| |];
    [|by apply elem_of_nil in Hin..].
  rewrite bind_fst in Hin. cbn [fst snd] in Hin.
  unfold write_velocities in Hin.
  destruct (written_cases
    (EvWrite 237 (FLAGS_velocities_out_json F) (kVelocities E)
       (kSpeedMS E) ts sm) 237
    (JsonWriteTimestampedRealData E ts sm
       (FLAGS_velocities_out_json F) (kVelocities E)
       (kSpeedMS E))) as [Hw|Hw];
    rewrite Hw in Hin; cbn [fst snd] in Hin.
  - apply elem_of_app in Hin as [Hin|Hin]; [|by apply elem_of_nil in Hin].
    by apply list_elem_of_singleton in Hin.
  - by apply elem_of_nil in Hin.
Qed.

End smoother.

(* ================================================================== *)
(** ** The claims *)

(** C1. For a GPS sequence of [n ≥ 1] samples (a [std::vector], so
    [n ≤ PTRDIFF_MAX]) and flags with [window_size ≥ stride > 0], the
    sliding-window loop of lines 167-175 terminates after exactly
    [⌈n / stride⌉] iterations, where [⌈n / stride⌉] is the least [c] with
    [n ≤ c * stride], and every sample index in [[0, n)] lies in one of the
    windows [[start, min (start + window_size) n)] that the loop visits. *)
Theorem sliding_windows_terminate_and_cover (n batch step : Z) :
  1 ≤ n ≤ PTRDIFF_MAX →
  0 < step ≤ batch →
  batch ≤ INT64_MAX →
  ∃ ws : list (Z * Z),
    (∀ fuel, (Z.to_nat (ceil_div n step) < fuel)%nat →
       window_ranges fuel n batch step = ([], Ok ws))
    ∧ Z.of_nat (length ws) = ceil_div n step
    ∧ (ceil_div n step - 1) * step < n ≤ ceil_div n step * step
    ∧ ∀ i, 0 ≤ i < n →
        ∃ start end_, (start, end_) ∈ ws
          ∧ end_ = Z.min (start + batch) n
          ∧ start ≤ i < end_.
Proof.
  intros Hn Hstep Hbatch. exists (windows_of n batch step).
  split; [|split; [|split]].
  - intros fuel Hfuel. unfold window_ranges.
    rewrite sliding_loop_windows by (unfold INT64_MAX in *; lia).
    apply foldM_record_window.
  - apply length_windows_of; lia.
  - apply ceil_div_bounds; lia.
  - intros i Hi.
    exists (i / step * step), (Z.min (i / step * step + batch) n).
    pose proof (Z.div_mod i step ltac:(lia)) as Hdm.
    pose proof (Z.mod_pos_bound i step ltac:(lia)) as Hm.
    assert (0 ≤ i / step) by (apply Z.div_pos; lia).
    split; [|split; [done|lia]].
    apply elem_of_windows_of. exists (i / step). split; [|done].
    split; [done|]. apply lt_ceil_div; [lia|nia].
Qed.

(** C1 at twelve samples, [window_size = 7] and [stride = 5]. *)
Lemma sliding_windows_terminate_and_cover_witness :
  ∃ ws : list (Z * Z),
    (∀ fuel, (Z.to_nat (ceil_div 12 5) < fuel)%nat →
       window_ranges fuel 12 7 5 = ([], Ok ws))
    ∧ Z.of_nat (length ws) = ceil_div 12 5
    ∧ (ceil_div 12 5 - 1) * 5 < 12 ≤ ceil_div 12 5 * 5
    ∧ ∀ i, 0 ≤ i < 12 →
        ∃ start end_, (start, end_) ∈ ws
          ∧ end_ = Z.min (start + 7) 12
          ∧ start ≤ i < end_.
Proof.
  apply (sliding_windows_terminate_and_cover 12 7 5);
    unfold PTRDIFF_MAX, INT64_MAX; lia.
Defined.

(** C2 (as amended). A GPS stream with exactly [window_size] samples and
    [stride = window_size] gives exactly one sliding window, the whole
    stream; a run of the loop that ends normally has calibrated that one
    window, every merged index of its trajectory ends with exactly one
    estimate, the norm of the integrated velocity there, no other index is
    present, and the average of such an index is that estimate. *)
Theorem stream_of_one_window (E : Externals)
    (gps : list TimestampedVelocity) (rot acc : list Timestamped3D)
    (param : LBFGSParam) (fuel : nat) (batch step : Z)
    (t : list Event) (iv : gmap N (list float)) :
  Z.of_nat (length gps) = batch →
  step = batch →
  1 ≤ batch ≤ PTRDIFF_MAX →
  (2 ≤ fuel)%nat →
  calibrate_windows E fuel gps rot acc param batch step = (t, Ok iv) →
  window_ranges fuel batch batch step = ([], Ok [(0, batch)])
  ∧ t = window_events (0, batch)
  ∧ ∃ traj,
      window_trajectory E gps rot acc param (0, batch) = Some traj
      ∧ subvector 0 batch gps = gps
      ∧ ∀ index,
          iv !! index = (λ o, [norm (velocity o)]) <$> traj !! index
          ∧ average <$> iv !! index
            = (λ o, norm (velocity o)) <$> traj !! index.
Proof.
  intros Hlen -> Hbatch Hfuel Hrun.
  assert (Z.to_nat (ceil_div batch batch) < fuel)%nat as Hfuel'.
  { rewrite ceil_div_self by lia. lia. }
  split; [|].
  { unfold window_ranges.
    rewrite sliding_loop_windows
      by (unfold PTRDIFF_MAX, INT64_MAX in *; lia).
    rewrite windows_of_single by lia. reflexivity. }
  unfold calibrate_windows in Hrun. rewrite Hlen in Hrun.
  rewrite sliding_loop_windows in Hrun
    by (unfold PTRDIFF_MAX, INT64_MAX in *; lia).
  rewrite windows_of_single in Hrun by lia.
  apply foldM_window_body_ok_inv in Hrun as (trajs & Hall & -> & ->).
  apply Forall2_cons_inv_l in Hall as (traj & trajs' & Htraj & Hnil & ->).
  apply Forall2_nil_inv_l in Hnil as ->.
  split; [reflexivity|].
  exists traj. split; [done|]. split; [rewrite <- Hlen; apply subvector_all|].
  intros index. unfold collect. simpl.
  rewrite lookup_store_magnitudes, lookup_empty.
  destruct (traj !! index) as [o|]; simpl; [|done].
  split; [done|]. f_equal. apply average_singleton, never_negative_norm.
Qed.

(** C2, counterexample: three GPS fixes, [window_size = 3] and the valid
    [stride = 1]: the loop visits three windows, and the last merged index
    ends with three estimates. *)
Lemma full_stream_has_several_windows :
  Z.of_nat (length fixes) = 3
  ∧ window_ranges 4 3 3 1 = ([], Ok [(0, 3); (1, 3); (2, 3)])
  ∧ (result_value (world_windows world 4 3 1).2 ≫= (.!! 3%N))
    = Some [13%float; 0x1.999999999999ap-4%float;
            0x1.999999999999ap-3%float].
Proof. vm_compute. repeat split; reflexivity. Qed.

(** C2 (as amended) in [world], with [window_size = stride = 3]. *)
Lemma stream_of_one_window_witness :
  ∃ t iv,
    world_windows world 4 3 3 = (t, Ok iv)
    ∧ window_ranges 4 3 3 3 = ([], Ok [(0, 3)])
    ∧ t = window_events (0, 3)
    ∧ ∃ traj,
        window_trajectory world fixes world_rotations world_accelerations
          (main_param world (sim_flags 3 3)) (0, 3) = Some traj
        ∧ subvector 0 3 fixes = fixes
        ∧ ∀ index,
            iv !! index = (λ o, [norm (velocity o)]) <$> traj !! index
            ∧ average <$> iv !! index
              = (λ o, norm (velocity o)) <$> traj !! index.
Proof.
  exists (window_events (0, 3)),
    (list_to_map [(0%N, [13%float]); (1%N, [13%float]);
                  (2%N, [13%float]); (3%N, [13%float])]).
  assert (world_windows world 4 3 3
          = (window_events (0, 3),
             Ok (list_to_map [(0%N, [13%float]); (1%N, [13%float]);
                              (2%N, [13%float]); (3%N, [13%float])])))
    as Hrun by (vm_compute; reflexivity).
  split; [exact Hrun|].
  apply (stream_of_one_window world fixes world_rotations
           world_accelerations (main_param world (sim_flags 3 3)) 4 3 3);
    [reflexivity|reflexivity|unfold PTRDIFF_MAX; lia|lia|exact Hrun].
Defined.

(** C3 (as amended). A run that completes has written both files, the
    steering file first. A run that aborts at or before the steering write
    of line 151 (flag checks, input reading, axis and angle extraction, the
    size check, the write itself) has produced no file; a run that ends
    after it (in a window's calibration, optimization or integration, in
    the timestamp lookup, in the smoothing or in the velocity write) has
    produced the steering file and nothing else. *)
Theorem outputs_follow_the_abort_point (E : Externals) (fuel : nat)
    (F : Flags) :
  match (main E fuel F).2 with
  | Ok _ =>
      output_files (main E fuel F).1
      = [FLAGS_steering_out_json F; FLAGS_velocities_out_json F]
  | Abort f =>
      output_files (main E fuel F).1
      = if (fatal_line f <=? 151)%nat then []
        else [FLAGS_steering_out_json F]
  | OutOfFuel =>
      output_files (main E fuel F).1 = [FLAGS_steering_out_json F]
  end.
Proof.
  rewrite main_phases.
  pose proof (before_steering_run E F) as (Hp1 & Hq1 & Hd1).
  destruct (before_steering E F) as [t1 [[[[rot acc] gps] angles]|f|]];
    cbn [fst snd] in *; [|rewrite M_bind_abort|by destruct Hd1].
  2:{ specialize (Hq1 f eq_refl). cbn [fst snd].
      destruct (Nat.leb_spec (fatal_line f) 151); [|lia].
      apply output_files_no_writes.
      eapply Forall_impl; [exact Hp1|]. apply is_preparation_not_write. }
  assert (output_files t1 = []) as Ht1.
  { apply output_files_no_writes.
    eapply Forall_impl; [exact Hp1|]. apply is_preparation_not_write. }
  rewrite M_bind_ok. cbn [fst snd].
  destruct (written_cases
              (EvWrite 151 (FLAGS_steering_out_json F) (kSteering E)
                 (kAngularVelocity E) (ExtractTimestamps rot) angles) 151
              (JsonWriteTimestampedRealData E (ExtractTimestamps rot) angles
                 (FLAGS_steering_out_json F) (kSteering E)
                 (kAngularVelocity E))) as [Hw|Hw];
    unfold write_steering; rewrite Hw;
    [rewrite M_bind_ok|rewrite M_bind_abort]; cbn [fst snd].
  2:{ by rewrite app_nil_r. }
  pose proof (between_writes_run E fuel F rot acc gps) as (Hp2 & Hq2 & _).
  destruct (between_writes E fuel F rot acc gps) as [t2 [[ts sm]|f|]];
    cbn [fst snd] in *.
  - rewrite M_bind_ok. cbn [fst snd].
    destruct (written_cases
                (EvWrite 237 (FLAGS_velocities_out_json F) (kVelocities E)
                   (kSpeedMS E) ts sm) 237
                (JsonWriteTimestampedRealData E ts sm
                   (FLAGS_velocities_out_json F) (kVelocities E)
                   (kSpeedMS E))) as [Hv|Hv];
      unfold write_velocities; rewrite Hv;
      [rewrite M_bind_ok|rewrite M_bind_abort]; cbn [fst snd];
      rewrite !output_files_app, Ht1, (output_files_no_writes t2) by done;
      reflexivity.
  - rewrite M_bind_abort. cbn [fst snd].
    specialize (Hq2 f eq_refl).
    destruct (Nat.leb_spec (fatal_line f) 151); [lia|].
    rewrite !output_files_app, Ht1, (output_files_no_writes t2) by done.
    reflexivity.
  - rewrite M_bind_fuel. cbn [fst snd].
    rewrite !output_files_app, Ht1, (output_files_no_writes t2) by done.
    reflexivity.
Qed.

(** C3, counterexample: two inertial samples are out of order; the run
    writes the steering file and then aborts in the calibrator of the first
    window, so one of the two output files exists. *)
Lemma abort_after_the_steering_write :
  (main world_unordered 10 (sim_flags 3 1)).2
  = Abort (Aborted StCalibrator 178)
  ∧ output_files (main world_unordered 10 (sim_flags 3 1)).1
    = ["s.json"%string].
Proof. vm_compute. split; reflexivity. Qed.

(** C4. If [window_size ≤ 0], or [stride ≤ 0], or [stride > window_size],
    or [max_optimizer_iterations ≤ 0], or [smoothing_sigma_seconds ≤ 0],
    [main] ends with a failed [CHECK] of lines 115-124 and an empty trace:
    nothing was read and nothing was computed. With a valid configuration
    none of the five numeric checks (lines 120-124) fires, neither in
    [sanity_checks] nor anywhere in [main]. *)
Theorem config_validation_is_fail_fast (E : Externals) (fuel : nat)
    (F : Flags) :
  (config_invalid F →
     ∃ line, (115 ≤ line ≤ 124)%nat
       ∧ main E fuel F = ([], Abort (CheckFailed line)))
  ∧ (config_valid F →
       ∀ line, (120 ≤ line ≤ 124)%nat →
         (sanity_checks F).2 ≠ Abort (CheckFailed line)
         ∧ (main E fuel F).2 ≠ Abort (CheckFailed line)).
Proof.
  split.
  - intros Hbad.
    destruct (sanity_checks_invalid F Hbad) as (line & Hline & Hs).
    exists line. split; [done|]. by apply main_sanity_abort.
  - intros Hok line Hline. split; [by apply sanity_checks_valid|].
    pose proof (sanity_checks_valid F line Hok Hline) as Hs.
    rewrite main_phases.
    destruct (sanity_checks_cases F) as [Hs'|(line' & _ & Hs')].
    2:{ unfold before_steering. rewrite Hs', !M_bind_abort.
        rewrite Hs' in Hs. cbn [snd] in *. intros [= ->]. by apply Hs. }
    pose proof (before_steering_run E F) as (_ & Hq1 & Hd1).
    assert (run_satisfies (λ _, True)
              (λ f, f ≠ CheckFailed line) True (before_steering E F)) as Hb.
    { unfold before_steering. rewrite Hs', M_bind_nil_ok.
      apply run_satisfies_bind.
      { eapply run_satisfies_impl; [| | |apply ReadTimestamp3DData_run];
          [done| |done]. intros f Hf ->. simpl in Hf. lia. }
      intros rot. apply run_satisfies_bind.
      { eapply run_satisfies_impl; [| | |apply ReadTimestamp3DData_run];
          [done| |done]. intros f Hf ->. simpl in Hf. lia. }
      intros acc. apply run_satisfies_bind.
      { eapply run_satisfies_impl; [| | |apply ReadGpsVelocities_run];
          [done| |done]. intros f Hf ->. simpl in Hf. lia. }
      intros gps.
      apply run_satisfies_bind; [by apply run_satisfies_call|].
      intros axes.
      apply run_satisfies_bind; [by apply run_satisfies_call|].
      intros angles.
      apply run_satisfies_bind;
        [apply run_satisfies_CHECK; intros [= <-]; lia|].
      intros _. apply run_satisfies_ret. }
    match goal with |- ?m.2 ≠ _ =>
      cut (run_satisfies (λ _, True) (λ f, f ≠ CheckFailed line) True m)
    end.
    { intros (_ & Hq & _) Heq. by apply (Hq _ Heq). }
    apply (run_satisfies_bind _ _ _ _ _ Hb).
    intros [[[rot acc] gps] angles]. cbn [fst snd].
    apply run_satisfies_bind; [by apply run_satisfies_written|].
    intros _. apply run_satisfies_bind.
    { eapply run_satisfies_impl; [| | |apply between_writes_run];
        [done| |done]. intros f Hf ->. simpl in Hf. lia. }
    intros [ts sm]. apply run_satisfies_bind; [by apply run_satisfies_written|].
    intros _. apply run_satisfies_ret.
Qed.

(** C4 in [world]: [window_size = 0] is refused at once, and the flags
    [window_size = 3], [stride = 1] pass the check of line 121. *)
Lemma config_validation_is_fail_fast_witness :
  (∃ line, (115 ≤ line ≤ 124)%nat
     ∧ main world 10 (sim_flags 0 1) = ([], Abort (CheckFailed line)))
  ∧ (sanity_checks (sim_flags 3 1)).2 ≠ Abort (CheckFailed 121)
  ∧ (main world 10 (sim_flags 3 1)).2 ≠ Abort (CheckFailed 121).
Proof.
  split.
  - apply (proj1 (config_validation_is_fail_fast world 10 (sim_flags 0 1))).
    left. simpl. lia.
  - apply (proj2 (config_validation_is_fail_fast world 10 (sim_flags 3 1))).
    + repeat split; simpl; try lia; reflexivity.
    + lia.
Defined.

(** C5. Whenever [main] hands a series to the smoother, the
    sliding-window loop has ended normally with a map [iv], the series has
    one value per index of [iv], in the order of the indices, and for every
    index present the value at its position is the sum of the estimates
    collected for it (accumulated from [0.0] in the order of the windows)
    divided by their count; these estimates are exactly the velocity
    magnitudes of the windows whose trajectory has a point at the index. *)
Theorem fused_estimate_is_the_mean (E : Externals) (fuel : nat) (F : Flags)
    (values times : list float) (sigma : float) :
  EvSmooth values times sigma ∈ (main E fuel F).1 →
  ∃ rot acc gps t iv ws trajs,
    calibrate_windows E fuel gps rot acc (main_param E F)
      (FLAGS_locations_batch_size F) (FLAGS_locations_shift_step F)
    = (t, Ok iv)
    ∧ Forall2 (λ w traj,
                 window_trajectory E gps rot acc (main_param E F) w
                 = Some traj) ws trajs
    ∧ length values = size iv
    ∧ ∀ index estimates, iv !! index = Some estimates →
        estimates = estimates_for index trajs
        ∧ ∃ i, sorted_entries iv !! i = Some (index, estimates)
            ∧ values !! i
              = Some (fold_left PrimFloat.add estimates 0
                      / double_of_size (length estimates))%float.
Proof.
  intros Hin.
  apply main_smoother_input in Hin
    as (rot & acc & gps & t & iv & calibrator & t' & ts_usec
        & _ & Hloop & Havg & _).
  pose proof Hloop as Hrun.
  apply calibrate_windows_Ok_inv in Hrun as (ws & trajs & Hall & ->).
  apply average_all_ok_inv in Havg as (-> & Htimes & _).
  exists rot, acc, gps, t, (collect trajs ∅), ws, trajs.
  split; [done|]. split; [done|]. split.
  { unfold averages. by rewrite length_fmap, length_sorted_entries. }
  intros index estimates Hindex. split.
  { by apply lookup_collect_Some in Hindex as [-> _]. }
  destruct (sorted_entries_lookup _ _ _ Hindex) as (i & Hi).
  exists i. split; [done|].
  unfold averages. rewrite list_lookup_fmap, Hi. reflexivity.
Qed.

(** C5 in [world], with [window_size = 3] and [stride = 1]. *)
Lemma fused_estimate_is_the_mean_witness :
  ∃ values times sigma,
    EvSmooth values times sigma ∈ (main world 10 (sim_flags 3 1)).1
    ∧ ∃ rot acc gps t iv ws trajs,
        calibrate_windows world 10 gps rot acc
          (main_param world (sim_flags 3 1)) 3 1 = (t, Ok iv)
        ∧ Forall2 (λ w traj,
                     window_trajectory world gps rot acc
                       (main_param world (sim_flags 3 1)) w = Some traj)
            ws trajs
        ∧ length values = size iv
        ∧ ∀ index estimates, iv !! index = Some estimates →
            estimates = estimates_for index trajs
            ∧ ∃ i, sorted_entries iv !! i = Some (index, estimates)
                ∧ values !! i
                  = Some (fold_left PrimFloat.add estimates 0
                          / double_of_size (length estimates))%float.
Proof.
  assert (∃ values times sigma,
            EvSmooth values times sigma ∈ (main world 10 (sim_flags 3 1)).1)
    as (values & times & sigma & Hin).
  { eexists _, _, _. apply (list_elem_of_lookup_2 _ 16).
    vm_compute. reflexivity. }
  exists values, times, sigma. split; [exact Hin|].
  exact (fused_estimate_is_the_mean world 10 (sim_flags 3 1)
           values times sigma Hin).
Defined.

(** C6 (as amended). If the windows are processed in a permuted order
    and the run in the original order ends normally, so does the permuted
    run; the two maps have the same indices, and for every index the two
    estimate lists are permutations of each other (the same values, the
    same count). The averaged value is the same whenever the index has at
    most two estimates. *)
Theorem window_order_permutes_estimates (E : Externals)
    (gps : list TimestampedVelocity) (rot acc : list Timestamped3D)
    (param : LBFGSParam) (ws ws' : list (Z * Z))
    (t : list Event) (iv : gmap N (list float)) :
  ws ≡ₚ ws' →
  foldM (window_body E gps rot acc param) ws ∅ = (t, Ok iv) →
  ∃ t' iv',
    foldM (window_body E gps rot acc param) ws' ∅ = (t', Ok iv')
    ∧ ∀ index,
        option_Forall2
          (λ estimates estimates',
             estimates ≡ₚ estimates'
             ∧ ((length estimates ≤ 2)%nat →
                average estimates' = average estimates))
          (iv !! index) (iv' !! index).
Proof.
  intros Hperm Hrun.
  apply foldM_window_body_ok_inv in Hrun as (trajs & Hall & -> & ->).
  destruct (trajectories_permutation E gps rot acc param _ _ Hperm _ Hall)
    as (trajs' & Hall' & Hperm').
  exists (ws' ≫= window_events), (collect trajs' ∅).
  split; [by apply foldM_window_body_ok|].
  intros index. rewrite !lookup_collect_empty.
  assert (estimates_for index trajs ≡ₚ estimates_for index trajs') as Hest.
  { unfold estimates_for. by apply omap_Permutation. }
  pose proof (estimates_for_never_negative index trajs) as Hsign.
  unfold guard_nonempty.
  destruct (estimates_for index trajs) as [|v vs] eqn:H1.
  - apply Permutation_nil in Hest. rewrite Hest. constructor.
  - destruct (estimates_for index trajs') as [|v' vs'] eqn:H2.
    + by apply Permutation_nil_r in Hest.
    + constructor. split; [done|]. intros Hlen.
      by apply average_short_permutation.
Qed.

(** C6, counterexample: the three windows of [world] processed in the
    order of the loop and in the reverse order. The last merged index
    collects the same three estimates in the opposite order, and the two
    averages, each the [double] sum from [0.0] divided by [3], differ in
    the last bit. *)
Lemma average_depends_on_window_order :
  [(0, 3); (1, 3); (2, 3)] ≡ₚ [(2, 3); (1, 3); (0, 3)]
  ∧ (result_value (world_body [(0, 3); (1, 3); (2, 3)]).2 ≫= (.!! 3%N))
    = Some [13%float; 0x1.999999999999ap-4%float;
            0x1.999999999999ap-3%float]
  ∧ (result_value (world_body [(2, 3); (1, 3); (0, 3)]).2 ≫= (.!! 3%N))
    = Some [0x1.999999999999ap-3%float; 0x1.999999999999ap-4%float;
            13%float]
  ∧ average [13%float; 0x1.999999999999ap-4%float;
             0x1.999999999999ap-3%float]
    = 0x1.1bbbbbbbbbbbbp+2%float
  ∧ average [0x1.999999999999ap-3%float; 0x1.999999999999ap-4%float;
             13%float]
    = 0x1.1bbbbbbbbbbbcp+2%float
  ∧ (0x1.1bbbbbbbbbbbbp+2 =? 0x1.1bbbbbbbbbbbcp+2)%float = false.
Proof.
  split; [symmetry; apply (reverse_Permutation [(0, 3); (1, 3); (2, 3)])|].
  vm_compute. repeat split; reflexivity.
Qed.

(** C6 (as amended) for the three windows of [world] and their reverse. *)
Lemma window_order_permutes_estimates_witness :
  ∃ t iv,
    world_body [(0, 3); (1, 3); (2, 3)] = (t, Ok iv)
    ∧ ∃ t' iv',
        world_body [(2, 3); (1, 3); (0, 3)] = (t', Ok iv')
        ∧ ∀ index,
            option_Forall2
              (λ estimates estimates',
                 estimates ≡ₚ estimates'
                 ∧ ((length estimates ≤ 2)%nat →
                    average estimates' = average estimates))
              (iv !! index) (iv' !! index).
Proof.
  assert (∃ t iv, world_body [(0, 3); (1, 3); (2, 3)] = (t, Ok iv))
    as (t & iv & Hrun).
  { eexists _, _. vm_compute. reflexivity. }
  exists t, iv. split; [exact Hrun|].
  apply (window_order_permutes_estimates world fixes world_rotations
           world_accelerations (main_param world (sim_flags 3 1))
           [(0, 3); (1, 3); (2, 3)] [(2, 3); (1, 3); (0, 3)] t iv);
    [|exact Hrun].
  symmetry. apply (reverse_Permutation [(0, 3); (1, 3); (2, 3)]).
Defined.

(** C7. If the rotation, the acceleration or the GPS stream is empty,
    [main] ends with a fatal error raised at a line up to 124, that is in
    a reader (lines 82-103) or in a flag check (lines 115-124); no window
    was calibrated, optimized or integrated, and no file was written. *)
Theorem empty_stream_is_fatal (E : Externals) (fuel : nat) (F : Flags) :
  stream_empty E (FLAGS_rotations_json F) (kRotations E)
  ∨ stream_empty E (FLAGS_accelerations_json F) (kAccelerations E)
  ∨ stream_empty E (FLAGS_locations_json F) (kLocations E) →
  ∃ t f, main E fuel F = (t, Abort f)
    ∧ (fatal_line f ≤ 124)%nat
    ∧ Forall (λ ev, is_optimization ev = false) t
    ∧ output_files t = [].
Proof.
  intros Hempty.
  destruct (before_steering_empty_stream E F Hempty) as (f & Hf & Hline).
  pose proof (before_steering_run E F) as (Hp & _ & _).
  rewrite main_phases.
  destruct (before_steering E F) as [t r]. cbn [fst snd] in *. subst r.
  rewrite M_bind_abort. exists t, f. repeat split; [done| |].
  - eapply Forall_impl; [exact Hp|]. apply is_preparation_not_optimization.
  - apply output_files_no_writes.
    eapply Forall_impl; [exact Hp|]. apply is_preparation_not_write.
Qed.

(** C7 in [world_without_fixes], where the GPS stream is an empty array. *)
Lemma empty_stream_is_fatal_witness :
  ∃ t f, main world_without_fixes 10 (sim_flags 3 1) = (t, Abort f)
    ∧ (fatal_line f ≤ 124)%nat
    ∧ Forall (λ ev, is_optimization ev = false) t
    ∧ output_files t = [].
Proof.
  apply (empty_stream_is_fatal world_without_fixes 10 (sim_flags 3 1)).
  right. right. do 2 eexists. split; [reflexivity|]. split; reflexivity.
Defined.

(** C8. The extractor modelled from the specification yields one angle
    per rotation sample, and its first [n] angles are the angles of the
    first [n] samples. For every extractor, whenever [main] writes the
    steering signal (line 151), the signal has exactly one angle and one
    timestamp per rotation sample, the angles are the extractor's output
    in its order, and the [i]-th timestamp is that of the [i]-th sample:
    [CHECK_EQ] at line 146 lets no other signal through. *)
Theorem one_steering_angle_per_rotation_sample :
  (∀ rate rotations axis,
     length (turn_angles rate rotations axis) = length rotations
     ∧ ∀ n, take n (turn_angles rate rotations axis)
            = turn_angles rate (take n rotations) axis)
  ∧ (∀ (E : Externals) (fuel : nat) (F : Flags)
       (filename root_key value_key : string)
       (timestamps : list Z) (values : list float),
       EvWrite 151 filename root_key value_key timestamps values
         ∈ (main E fuel F).1 →
       ∃ rotations axis,
         (∃ t, ReadTimestamp3DData E (FLAGS_rotations_json F) (kRotations E)
               = (t, Ok rotations))
         ∧ GetHorizontalTurnAngles E rotations axis = Some values
         ∧ length values = length rotations
         ∧ length timestamps = length rotations
         ∧ ∀ i sample, rotations !! i = Some sample →
             timestamps !! i = Some (t3_time_usec sample)
             ∧ ∃ angle, values !! i = Some angle).
Proof.
  split.
  - intros rate rotations axis.
    split; [apply length_turn_angles|]. intros n. apply take_turn_angles.
  - apply steering_write_inv.
Qed.

(** C8 in [world]. *)
Lemma one_steering_angle_per_rotation_sample_witness :
  length (turn_angles sim_rate world_rotations (mkVec3 0 0 1))
  = length world_rotations
  ∧ ∃ rotations axis,
      (∃ t, ReadTimestamp3DData world "r.json" "rotations"
            = (t, Ok rotations))
      ∧ GetHorizontalTurnAngles world rotations axis
        = Some [0%float; 0%float; 0%float; 0%float]
      ∧ length [0%float; 0%float; 0%float; 0%float] = length rotations
      ∧ length [10; 20; 30; 40] = length rotations
      ∧ ∀ i sample, rotations !! i = Some sample →
          [10; 20; 30; 40] !! i = Some (t3_time_usec sample)
          ∧ ∃ angle, [0%float; 0%float; 0%float; 0%float] !! i = Some angle.
Proof.
  split.
  - apply (proj1 one_steering_angle_per_rotation_sample).
  - apply (proj2 one_steering_angle_per_rotation_sample
             world 10%nat (sim_flags 3 1)
             "s.json" "steering" "angular_velocity").
    apply (list_elem_of_lookup_2 _ 5). vm_compute. reflexivity.
Defined.

(** C9. After the sliding-window loop every index present in the map has
    at least one estimate, so the divisor of line 230 is the conversion of
    a count of at least one; for every count that a [std::vector] can have
    it is a [double] that is neither zero nor a NaN. *)
Theorem averaging_never_divides_by_zero (E : Externals)
    (gps : list TimestampedVelocity) (rot acc : list Timestamped3D)
    (param : LBFGSParam) (fuel : nat) (batch step : Z)
    (t : list Event) (iv : gmap N (list float)) (index : N)
    (estimates : list float) :
  calibrate_windows E fuel gps rot acc param batch step = (t, Ok iv) →
  iv !! index = Some estimates →
  (1 ≤ length estimates)%nat
  ∧ (Z.of_nat (length estimates) ≤ PTRDIFF_MAX →
     (double_of_size (length estimates) =? 0)%float = false
     ∧ PrimFloat.is_nan (double_of_size (length estimates)) = false).
Proof.
  intros Hrun Hindex.
  apply calibrate_windows_nonempty in Hrun. apply Hrun in Hindex.
  assert (1 ≤ length estimates)%nat as Hlen
    by (destruct estimates; [done|simpl; lia]).
  split; [done|]. intros Hmax.
  pose proof (double_of_size_positive_finite _ Hlen Hmax) as Hpos.
  split; [by apply positive_finite_not_zero|].
  rewrite is_nan_spec.
  by destruct (Prim2SF (double_of_size (length estimates))).
Qed.

(** C9 at the last merged index of [world]. *)
Lemma averaging_never_divides_by_zero_witness :
  ∃ t iv estimates,
    world_windows world 4 3 1 = (t, Ok iv)
    ∧ iv !! 3%N = Some estimates
    ∧ (1 ≤ length estimates)%nat
    ∧ (Z.of_nat (length estimates) ≤ PTRDIFF_MAX →
       (double_of_size (length estimates) =? 0)%float = false
       ∧ PrimFloat.is_nan (double_of_size (length estimates)) = false).
Proof.
  assert (∃ t iv estimates,
            world_windows world 4 3 1 = (t, Ok iv)
            ∧ iv !! 3%N = Some estimates) as (t & iv & es & Hrun & Hes).
  { eexists _, _, _. split; vm_compute; reflexivity. }
  exists t, iv, es. split; [exact Hrun|]. split; [exact Hes|].
  exact (averaging_never_divides_by_zero world fixes world_rotations
           world_accelerations (main_param world (sim_flags 3 1))
           4 3 1 t iv 3%N es Hrun Hes).
Defined.

(** C10 (as amended). Every value in the map is the Euclidean norm of an
    integrated velocity of some window; it is never negative: it is a NaN
    or it is [>= 0], and it is [>= 0] when no component of that velocity is
    a NaN. Every average is never negative either: it is a NaN or it is
    [>= 0], and it is [>= 0] when none of its estimates is a NaN. *)
Theorem estimates_are_never_negative (E : Externals)
    (gps : list TimestampedVelocity) (rot acc : list Timestamped3D)
    (param : LBFGSParam) (fuel : nat) (batch step : Z)
    (t : list Event) (iv : gmap N (list float)) (index : N)
    (estimates : list float) :
  calibrate_windows E fuel gps rot acc param batch step = (t, Ok iv) →
  iv !! index = Some estimates →
  Forall (λ v,
            (∃ w traj o,
               window_trajectory E gps rot acc param w = Some traj
               ∧ traj !! index = Some o ∧ v = norm (velocity o)
               ∧ (no_nan_components (velocity o) → (0 <=? v)%float = true))
            ∧ (PrimFloat.is_nan v = true ∨ (0 <=? v)%float = true)
            ∧ (v <? 0)%float = false)
         estimates
  ∧ (PrimFloat.is_nan (average estimates) = true
     ∨ (0 <=? average estimates)%float = true)
  ∧ (average estimates <? 0)%float = false
  ∧ (Z.of_nat (length estimates) ≤ PTRDIFF_MAX →
     Forall (λ v, PrimFloat.is_nan v = false) estimates →
     (0 <=? average estimates)%float = true).
Proof.
  intros Hrun Hindex.
  assert (1 ≤ length estimates)%nat as Hlen.
  { apply calibrate_windows_nonempty in Hrun. apply Hrun in Hindex.
    destruct estimates; [done|simpl; lia]. }
  apply calibrate_windows_Ok_inv in Hrun as (ws & trajs & Hall & ->).
  apply lookup_collect_Some in Hindex as [-> _].
  pose proof (estimates_for_never_negative index trajs) as Hsign.
  split; [|split; [|split]].
  - apply Forall_forall. intros v Hv. split; [|split].
    + apply elem_of_estimates_for in Hv as (traj & o & Hin & Ho & ->).
      apply list_elem_of_lookup in Hin as (i & Hi).
      destruct (Forall2_lookup_r _ _ _ _ _ Hall Hi) as (w & _ & Hw).
      exists w, traj, o. repeat split; [done..|].
      intros Hnan. by apply nonneg_number_le, nonneg_number_norm.
    + eapply never_negative_nan_or_le, Forall_forall; done.
    + eapply never_negative_not_lt, Forall_forall; done.
  - by apply never_negative_nan_or_le, never_negative_average.
  - by apply never_negative_not_lt, never_negative_average.
  - intros Hmax Hnan. apply nonneg_number_le, nonneg_number_average;
      [done..|].
    apply Forall_forall. intros v Hv. apply never_negative_number.
    + eapply Forall_forall in Hsign; done.
    + eapply Forall_forall in Hnan; done.
Qed.

(** C10, counterexample: the solver diverges and returns NaN parameters,
    which the run uses as its fit. Every estimate and every average that
    reaches the smoother is a NaN, and a NaN is not [>= 0]; the run
    completes. *)
Lemma diverging_solver_gives_nan_estimates :
  (result_value (world_windows world_diverging 4 3 1).2 ≫= (.!! 3%N))
  = Some [nan; nan; nan]
  ∧ average [nan; nan; nan] = nan
  ∧ (0 <=? nan)%float = false
  ∧ (main world_diverging 10 (sim_flags 3 1)).1 !! 16%nat
    = Some (EvSmooth [nan; nan; nan; nan]
              [0%float; 0x1.4f8b588e368f0p-17%float;
               0x1.4f8b588e368f0p-16%float; 0x1.f75104d551d68p-16%float]
              0.5)
  ∧ (main world_diverging 10 (sim_flags 3 1)).2 = Ok 0.
Proof. vm_compute. repeat split; reflexivity. Qed.

(** C10 (as amended) at the last merged index of [world]. *)
Lemma estimates_are_never_negative_witness :
  ∃ t iv estimates,
    world_windows world 4 3 1 = (t, Ok iv)
    ∧ iv !! 3%N = Some estimates
    ∧ Forall (λ v,
                (∃ w traj o,
                   window_trajectory world fixes world_rotations
                     world_accelerations (main_param world (sim_flags 3 1))
                     w = Some traj
                   ∧ traj !! 3%N = Some o ∧ v = norm (velocity o)
                   ∧ (no_nan_components (velocity o) →
                      (0 <=? v)%float = true))
                ∧ (PrimFloat.is_nan v = true ∨ (0 <=? v)%float = true)
                ∧ (v <? 0)%float = false)
             estimates
    ∧ (PrimFloat.is_nan (average estimates) = true
       ∨ (0 <=? average estimates)%float = true)
    ∧ (average estimates <? 0)%float = false
    ∧ (Z.of_nat (length estimates) ≤ PTRDIFF_MAX →
       Forall (λ v, PrimFloat.is_nan v = false) estimates →
       (0 <=? average estimates)%float = true).
Proof.
  assert (∃ t iv estimates,
            world_windows world 4 3 1 = (t, Ok iv)
            ∧ iv !! 3%N = Some estimates) as (t & iv & es & Hrun & Hes).
  { eexists _, _, _. split; vm_compute; reflexivity. }
  exists t, iv, es. split; [exact Hrun|]. split; [exact Hes|].
  exact (estimates_are_never_negative world fixes world_rotations
           world_accelerations (main_param world (sim_flags 3 1))
           4 3 1 t iv 3%N es Hrun Hes).
Defined.

(* ================================================================== *)
(** ** Further properties of [fit_motion.cc] *)

Lemma CHECK_bind_ok {B} line (cond : bool) (k : M B) t b :
  (CHECK line cond;; k) = (t, Ok b) → cond = true ∧ k = (t, Ok b).
Proof.
  unfold CHECK. destruct cond; [|done].
  rewrite M_bind_ret_l. done.
Qed.

Lemma sanity_checks_ok_iff F :
  sanity_checks F = ([], Ok ())
  ↔ string_empty (FLAGS_rotations_json F) = false
    ∧ string_empty (FLAGS_accelerations_json F) = false
    ∧ string_empty (FLAGS_locations_json F) = false
    ∧ string_empty (FLAGS_velocities_out_json F) = false
    ∧ string_empty (FLAGS_steering_out_json F) = false
    ∧ config_valid F.
Proof.
  unfold sanity_checks, config_valid. split.
  - intros H.
    repeat (apply CHECK_bind_ok in H as [? H]).
    unfold CHECK in H.
    repeat match goal with
           | H : negb _ = true |- _ => apply negb_true_iff in H
           end.
    destruct (0 <? FLAGS_post_smoothing_sigma_sec F)%float eqn:Hs; [|done].
    repeat split; try done; lia.
  - intros (-> & -> & -> & -> & -> & Hb & Hs & Hle & -> & ->). cbn [negb].
    destruct (Z.ltb_spec 0 (FLAGS_locations_batch_size F)); [|lia].
    destruct (Z.ltb_spec 0 (FLAGS_locations_shift_step F)); [|lia].
    destruct (Z.leb_spec (FLAGS_locations_shift_step F)
                (FLAGS_locations_batch_size F)); [|lia].
    reflexivity.
Qed.

Lemma nan_not_positive x :
  PrimFloat.is_nan x = true → (0 <? x)%float = false.
Proof.
  rewrite is_nan_spec, FloatAxioms.ltb_spec.
  by destruct (Prim2SF x).
Qed.

(** X1. The flag checks of lines 115-124 pass exactly when the five path
    flags are non-empty and the four numeric flags are valid; a NaN given
    for the iteration count or for the smoothing width is refused like a
    value that is not positive. *)
Theorem flag_checks_pass_exactly_for_valid_flags (F : Flags) :
  (sanity_checks F = ([], Ok ())
   ↔ string_empty (FLAGS_rotations_json F) = false
     ∧ string_empty (FLAGS_accelerations_json F) = false
     ∧ string_empty (FLAGS_locations_json F) = false
     ∧ string_empty (FLAGS_velocities_out_json F) = false
     ∧ string_empty (FLAGS_steering_out_json F) = false
     ∧ 0 < FLAGS_locations_batch_size F
     ∧ 0 < FLAGS_locations_shift_step F
     ∧ FLAGS_locations_shift_step F ≤ FLAGS_locations_batch_size F
     ∧ (0 <? FLAGS_optimization_iters F)%float = true
     ∧ (0 <? FLAGS_post_smoothing_sigma_sec F)%float = true)
  ∧ (PrimFloat.is_nan (FLAGS_optimization_iters F) = true
     ∨ PrimFloat.is_nan (FLAGS_post_smoothing_sigma_sec F) = true →
     sanity_checks F ≠ ([], Ok ())).
Proof.
  split; [apply sanity_checks_ok_iff|].
  intros Hnan Hok. apply sanity_checks_ok_iff in Hok
    as (_ & _ & _ & _ & _ & _ & _ & _ & Hi & Hs).
  destruct Hnan as [Hnan|Hnan]; apply nan_not_positive in Hnan; congruence.
Qed.

Lemma quiet_bind_ok {A B} st line (r : option A) (k : A → M B) t b :
  (quiet st line r ≫= k) = (t, Ok b) → ∃ a, r = Some a ∧ k a = (t, Ok b).
Proof.
  destruct r as [a|]; [|done]. unfold quiet. rewrite M_bind_ret_l. eauto.
Qed.

Lemma call_bind_ok {A B} ev st line (r : option A) (k : A → M B) t b :
  (call ev st line r ≫= k) = (t, Ok b) →
  ∃ a t', r = Some a ∧ k a = (t', Ok b) ∧ t = ev :: t'.
Proof.
  destruct r as [a|]; [|done]. unfold call. rewrite M_bind_ok.
  destruct (k a) as [t' r'] eqn:Hk. cbn [fst snd]. intros [= <- ->].
  by exists a, t'.
Qed.

Lemma json_items_nonempty j : json_empty j = false → json_items j ≠ [].
Proof. by destruct j as [| | | | |[|]|[|]]. Qed.

(** What the loop of lines 87-90 and of lines 101-104 does: a silent
    fold that appends one element per entry. *)
Lemma foldM_push_back_ok {A} (read : json → option A)
    (body : json → list A → M (list A)) (items : list json) :
  ∀ (result : list A) t result',
  (∀ entry result t r,
     body entry result = (t, Ok r) →
     t = [] ∧ ∃ a, read entry = Some a ∧ r = result ++ [a]) →
  foldM body items result = (t, Ok result') →
  t = [] ∧ ∃ new, result' = result ++ new
                 ∧ Forall2 (λ entry a, read entry = Some a) items new.
Proof.
  induction items as [|entry items IH]; intros result t result' Hbody.
  - intros [= <- <-]. split; [done|]. exists []. by rewrite app_nil_r.
  - simpl. intros H.
    apply bind_Ok_inv in H as (t1 & r1 & t2 & H1 & H2 & ->).
    apply Hbody in H1 as (-> & a & Ha & ->).
    apply IH in H2 as (-> & new & -> & Hall); [|done].
    split; [done|]. exists (a :: new). rewrite <- app_assoc.
    split; [done|]. by constructor.
Qed.

(** X2. When [ReadTimestamp3DData] returns, it has opened the one file and
    done nothing else; the field was there and not empty, and the result has
    one sample per entry of the field, in the order of the entries, each
    built from the [x], [y], [z] and timestamp of its entry. The result is
    never empty. *)
Theorem ReadTimestamp3DData_reads_every_entry (E : Externals)
    (filename field_name : string) (t : list Event)
    (result : list Timestamped3D) :
  ReadTimestamp3DData E filename field_name = (t, Ok result) →
  t = [EvRead filename]
  ∧ result ≠ []
  ∧ ∃ json_root entries_list,
      ReadJsonFile E filename = Some json_root
      ∧ json_index json_root field_name = Some entries_list
      ∧ json_empty entries_list = false
      ∧ length result = length (json_items entries_list)
      ∧ ∀ i entry, json_items entries_list !! i = Some entry →
          ∃ sample, result !! i = Some sample
                    ∧ sample_of_entry E entry = Some sample.
Proof.
  unfold ReadTimestamp3DData. intros H.
  apply call_bind_ok in H as (root & t' & Hroot & H & ->).
  apply quiet_bind_ok in H as (entries & Hentries & H).
  apply CHECK_bind_ok in H as [Hempty H].
  apply negb_true_iff in Hempty.
  apply (foldM_push_back_ok (sample_of_entry E)) in H
    as (-> & new & -> & Hall).
  2:{ clear. intros entry result t r H.
      apply quiet_bind_ok in H as (x & Hx & H).
      apply quiet_bind_ok in H as (y & Hy & H).
      apply quiet_bind_ok in H as (z & Hz & H).
      apply quiet_bind_ok in H as (time & Htime & H).
      injection H as <- <-. split; [done|].
      exists (mkT3D x y z time). split; [|done].
      unfold sample_of_entry. rewrite Hx, Hy, Hz, Htime. done. }
  simpl. split; [done|].
  pose proof (json_items_nonempty _ Hempty) as Hne.
  split.
  { intros ->. by inversion Hall; subst. }
  exists root, entries. repeat split; try done.
  - symmetry. by eapply Forall2_length.
  - intros i entry Hi.
    destruct (Forall2_lookup_l _ _ _ _ _ Hall Hi) as (sample & Hs & Hr).
    eauto.
Qed.

(** X2 for the rotations file of [world]. *)
Lemma ReadTimestamp3DData_reads_every_entry_witness :
  [EvRead "r.json"%string] = [EvRead "r.json"%string]
  ∧ world_rotations ≠ []
  ∧ ∃ json_root entries_list,
      ReadJsonFile world "r.json" = Some json_root
      ∧ json_index json_root "rotations" = Some entries_list
      ∧ json_empty entries_list = false
      ∧ length world_rotations = length (json_items entries_list)
      ∧ ∀ i entry, json_items entries_list !! i = Some entry →
          ∃ sample, world_rotations !! i = Some sample
                    ∧ sample_of_entry world entry = Some sample.
Proof.
  apply (ReadTimestamp3DData_reads_every_entry world "r.json" "rotations").
  reflexivity.
Defined.

(** X3. The same for [ReadGpsVelocities] and the [locations] field. *)
Theorem ReadGpsVelocities_reads_every_entry (E : Externals)
    (filename : string) (t : list Event)
    (result : list TimestampedVelocity) :
  ReadGpsVelocities E filename = (t, Ok result) →
  t = [EvRead filename]
  ∧ result ≠ []
  ∧ ∃ locations_json_root locations_json,
      ReadJsonFile E filename = Some locations_json_root
      ∧ json_index locations_json_root (kLocations E) = Some locations_json
      ∧ json_empty locations_json = false
      ∧ length result = length (json_items locations_json)
      ∧ ∀ i location, json_items locations_json !! i = Some location →
          ∃ fix_, result !! i = Some fix_
                  ∧ fix_of_entry E location = Some fix_.
Proof.
  unfold ReadGpsVelocities. intros H.
  apply call_bind_ok in H as (root & t' & Hroot & H & ->).
  apply quiet_bind_ok in H as (entries & Hentries & H).
  apply CHECK_bind_ok in H as [Hempty H].
  apply negb_true_iff in Hempty.
  apply (foldM_push_back_ok (fix_of_entry E)) in H
    as (-> & new & -> & Hall).
  2:{ clear. intros entry result t r H.
      apply quiet_bind_ok in H as (speed & Hspeed & H).
      apply quiet_bind_ok in H as (time & Htime & H).
      injection H as <- <-. split; [done|].
      exists (mkTV speed time). split; [|done].
      unfold fix_of_entry. rewrite Hspeed, Htime. done. }
  simpl. split; [done|].
  pose proof (json_items_nonempty _ Hempty) as Hne.
  split.
  { intros ->. by inversion Hall; subst. }
  exists root, entries. repeat split; try done.
  - symmetry. by eapply Forall2_length.
  - intros i entry Hi.
    destruct (Forall2_lookup_l _ _ _ _ _ Hall Hi) as (fix_ & Hs & Hr).
    eauto.
Qed.

(** X3 for the locations file of [world]. *)
Lemma ReadGpsVelocities_reads_every_entry_witness :
  [EvRead "l.json"%string] = [EvRead "l.json"%string]
  ∧ fixes ≠ []
  ∧ ∃ locations_json_root locations_json,
      ReadJsonFile world "l.json" = Some locations_json_root
      ∧ json_index locations_json_root (kLocations world)
        = Some locations_json
      ∧ json_empty locations_json = false
      ∧ length fixes = length (json_items locations_json)
      ∧ ∀ i location, json_items locations_json !! i = Some location →
          ∃ fix_, fixes !! i = Some fix_
                  ∧ fix_of_entry world location = Some fix_.
Proof.
  apply (ReadGpsVelocities_reads_every_entry world "l.json").
  reflexivity.
Defined.

(** More fuel does not change a run of the loop that has ended. *)
Lemma sliding_loop_more_fuel {S} n batch step (body : Z * Z → S → M S)
    (fuel : nat) : ∀ start s t s' fuel',
  sliding_loop fuel n batch step body start s = (t, Ok s') →
  (fuel ≤ fuel')%nat →
  sliding_loop fuel' n batch step body start s = (t, Ok s').
Proof.
  induction fuel as [|fuel IH]; intros start s t s' fuel' H Hle; [done|].
  destruct fuel' as [|fuel']; [lia|]. simpl in *.
  destruct (start <? n); [|done].
  apply bind_Ok_inv in H as (t1 & s1 & t2 & H1 & H2 & ->).
  rewrite H1, M_bind_ok.
  erewrite IH; [done|exact H2|lia].
Qed.

(** A run of the loop that has ended has gone through the windows
    [k * step, min (k * step + batch) n], [k = 0, 1, ...], in this order. *)
Lemma sliding_loop_Ok_windows {S} n batch step (body : Z * Z → S → M S)
    fuel s t s' :
  0 ≤ n ≤ PTRDIFF_MAX → 0 < step ≤ INT64_MAX → 0 < batch ≤ INT64_MAX →
  sliding_loop fuel n batch step body 0 s = (t, Ok s') →
  foldM body (windows_of n batch step) s = (t, Ok s').
Proof.
  intros Hn Hstep Hbatch H.
  rewrite <- (sliding_loop_windows n batch step body Hn Hstep Hbatch
                (fuel + Datatypes.S (Z.to_nat (ceil_div n step))) s) by lia.
  eapply sliding_loop_more_fuel; [exact H|lia].
Qed.

Lemma length_omap_le {A B} (f : A → option B) (l : list A) :
  (length (omap f l) ≤ length l)%nat.
Proof.
  induction l as [|a l IH]; [done|].
  change (omap f (a :: l))
    with (match f a with Some b => b :: omap f l | None => omap f l end).
  destruct (f a); simpl; lia.
Qed.

Lemma ceil_div_le n d : 0 ≤ n → 0 < d → ceil_div n d ≤ n.
Proof.
  intros Hn Hd. pose proof (ceil_div_bounds n d Hd) as [H1 H2]. nia.
Qed.

Lemma positive_finite_gt_zero x :
  SF_positive_finite (Prim2SF x) = true → (0 <? x)%float = true.
Proof.
  rewrite FloatAxioms.ltb_spec.
  change (Prim2SF 0) with (S754_zero false).
  by destruct (Prim2SF x) as [[]|[]| |[] m e].
Qed.

Lemma calibrate_windows_Ok_windows E gps rot acc param fuel batch step t iv :
  0 < step ≤ batch → batch ≤ INT64_MAX →
  Z.of_nat (length gps) ≤ PTRDIFF_MAX →
  calibrate_windows E fuel gps rot acc param batch step = (t, Ok iv) →
  ∃ trajs,
    Forall2 (λ w traj, window_trajectory E gps rot acc param w = Some traj)
      (windows_of (Z.of_nat (length gps)) batch step) trajs
    ∧ iv = collect trajs ∅
    ∧ t = windows_of (Z.of_nat (length gps)) batch step ≫= window_events.
Proof.
  intros Hstep Hbatch Hn H. unfold calibrate_windows in H.
  apply sliding_loop_Ok_windows in H; [|lia..].
  by apply foldM_window_body_ok_inv in H.
Qed.



(** X5. In a run of the loop that has ended, no index has more estimates
    than there were windows, and there were no more windows than GPS
    samples: the count that line 230 divides by is between one and the
    number of GPS samples, and its conversion to [double] is a positive
    number. *)
Theorem estimate_count_is_at_most_the_window_count (E : Externals)
    (gps : list TimestampedVelocity) (rot acc : list Timestamped3D)
    (param : LBFGSParam) (fuel : nat) (batch step : Z)
    (t : list Event) (iv : gmap N (list float)) (index : N)
    (estimates : list float) :
  0 < step ≤ batch → batch ≤ INT64_MAX →
  Z.of_nat (length gps) ≤ PTRDIFF_MAX →
  calibrate_windows E fuel gps rot acc param batch step = (t, Ok iv) →
  iv !! index = Some estimates →
  1 ≤ Z.of_nat (length estimates)
     ≤ ceil_div (Z.of_nat (length gps)) step
  ∧ ceil_div (Z.of_nat (length gps)) step ≤ Z.of_nat (length gps)
  ∧ (0 <? double_of_size (length estimates))%float = true.
Proof.
  intros Hstep Hbatch Hn Hrun Hindex.
  pose proof (calibrate_windows_nonempty _ _ _ _ _ _ _ _ _ _ Hrun
                _ _ Hindex) as Hne.
  apply calibrate_windows_Ok_windows in Hrun
    as (trajs & Hall & -> & _); [|done..].
  apply lookup_collect_Some in Hindex as [-> _].
  pose proof (length_omap_le
                (λ trajectory : gmap N MotionIntegrationOutcome,
                   (λ o, norm (velocity o)) <$> trajectory !! index)
                trajs) as Hlen.
  fold (estimates_for index trajs) in Hlen.
  apply Forall2_length in Hall.
  pose proof (length_windows_of (Z.of_nat (length gps)) batch step
                ltac:(lia) ltac:(lia)) as Hws.
  pose proof (ceil_div_le (Z.of_nat (length gps)) step ltac:(lia)
                ltac:(lia)) as Hc.
  assert (1 ≤ length (estimates_for index trajs))%nat as H1.
  { destruct (estimates_for index trajs); [done|simpl; lia]. }
  split; [lia|]. split; [done|].
  apply positive_finite_gt_zero, double_of_size_positive_finite; lia.
Qed.

(** X5 at the last merged index of [world]. *)
Lemma estimate_count_is_at_most_the_window_count_witness :
  ∃ estimates,
    result_value (world_windows world 10 3 1).2 ≫= (.!! 3%N) = Some estimates
    ∧ 1 ≤ Z.of_nat (length estimates) ≤ ceil_div (Z.of_nat (length fixes)) 1
    ∧ ceil_div (Z.of_nat (length fixes)) 1 ≤ Z.of_nat (length fixes)
    ∧ (0 <? double_of_size (length estimates))%float = true.
Proof.
  assert (∃ t iv estimates,
            world_windows world 10 3 1 = (t, Ok iv)
            ∧ iv !! 3%N = Some estimates) as (t & iv & es & Hrun & Hes).
  { eexists _, _, _. split; vm_compute; reflexivity. }
  exists es. split; [by rewrite Hrun|].
  apply (estimate_count_is_at_most_the_window_count world fixes
           world_rotations world_accelerations
           (main_param world (sim_flags 3 1)) 10 3 1 t iv 3%N es);
    [lia|unfold INT64_MAX; lia|unfold PTRDIFF_MAX; simpl; lia
    |exact Hrun|exact Hes].
Defined.

Lemma ReadTimestamp3DData_Ok_trace E filename field_name t result :
  ReadTimestamp3DData E filename field_name = (t, Ok result) →
  t = [EvRead filename].
Proof.
  unfold ReadTimestamp3DData. intros H.
  apply call_bind_ok in H as (root & t' & Hroot & H & ->).
  apply quiet_bind_ok in H as (entries & Hentries & H).
  apply CHECK_bind_ok in H as [Hempty H].
  apply (foldM_push_back_ok (sample_of_entry E)) in H as (-> & _); [done|].
  clear. intros entry result t r H.
  apply quiet_bind_ok in H as (x & Hx & H).
  apply quiet_bind_ok in H as (y & Hy & H).
  apply quiet_bind_ok in H as (z & Hz & H).
  apply quiet_bind_ok in H as (time & Htime & H).
  injection H as <- <-. split; [done|].
  exists (mkT3D x y z time). split; [|done].
  unfold sample_of_entry. rewrite Hx, Hy, Hz, Htime. done.
Qed.

Lemma ReadGpsVelocities_Ok_trace E filename t result :
  ReadGpsVelocities E filename = (t, Ok result) →
  t = [EvRead filename] ∧ result ≠ [].
Proof.
  unfold ReadGpsVelocities. intros H.
  apply call_bind_ok in H as (root & t' & Hroot & H & ->).
  apply quiet_bind_ok in H as (entries & Hentries & H).
  apply CHECK_bind_ok in H as [Hempty H].
  apply negb_true_iff, json_items_nonempty in Hempty.
  apply (foldM_push_back_ok (fix_of_entry E)) in H
    as (-> & new & -> & Hall).
  - split; [done|]. intros Hnil. simpl in Hnil. subst new.
    by inversion Hall; subst.
  - clear. intros entry result t r H.
    apply quiet_bind_ok in H as (speed & Hspeed & H).
    apply quiet_bind_ok in H as (time & Htime & H).
    injection H as <- <-. split; [done|].
    exists (mkTV speed time). split; [|done].
    unfold fix_of_entry. rewrite Hspeed, Htime. done.
Qed.

(** What [before_steering] has done when it returns. *)
Lemma before_steering_Ok_trace E F t rot acc gps angles :
  before_steering E F = (t, Ok (rot, acc, gps, angles)) →
  t = [EvRead (FLAGS_rotations_json F);
       EvRead (FLAGS_accelerations_json F);
       EvRead (FLAGS_locations_json F);
       EvCompute StPrincipalAxes None; EvCompute StTurnAngles None]
  ∧ sanity_checks F = ([], Ok ())
  ∧ ReadGpsVelocities E (FLAGS_locations_json F)
    = ([EvRead (FLAGS_locations_json F)], Ok gps)
  ∧ gps ≠ [].
Proof.
  unfold before_steering. intros H.
  apply bind_Ok_inv in H as (t0 & [] & t1 & H0 & H & ->).
  destruct (sanity_checks_cases F) as [Hs|(line & _ & Hs)];
    [|by rewrite Hs in H0].
  rewrite Hs in H0. injection H0 as <-.
  apply bind_Ok_inv in H as (tr & rot' & t2 & Hr & H & ->).
  apply bind_Ok_inv in H as (ta & acc' & t3 & Ha & H & ->).
  apply bind_Ok_inv in H as (tg & gps' & t4 & Hg & H & ->).
  apply call_bind_ok in H as (axes & t5 & _ & H & ->).
  apply call_bind_ok in H as (angles' & t6 & _ & H & ->).
  apply CHECK_bind_ok in H as [_ H]. injection H as <- <- <- <- <-.
  apply ReadTimestamp3DData_Ok_trace in Hr as ->.
  apply ReadTimestamp3DData_Ok_trace in Ha as ->.
  pose proof (ReadGpsVelocities_Ok_trace _ _ _ _ Hg) as [-> Hne].
  done.
Qed.

Lemma seconds_since_first_snoc u time :
  seconds_since_first (u ++ [time])
  = match u with
    | [] => [(double_of_long (time - time) * micro)%float]
    | first :: _ =>
        seconds_since_first u
        ++ [(double_of_long (time - first) * micro)%float]
    end.
Proof.
  unfold seconds_since_first. destruct u as [|first u]; [done|].
  by rewrite fmap_app.
Qed.

(** What the averaging loop has built when it returns. *)
Lemma foldM_average_step_Ok_full E calibrator l : ∀ a s u t a' s' u',
  foldM (average_step E calibrator) l (a, s, u) = (t, Ok (a', s', u')) →
  s = seconds_since_first u →
  t = [] ∧ s' = seconds_since_first u'.
Proof.
  induction l as [|point l IH]; intros a s u t a' s' u' H Hs.
  - injection H as <- <- <- <-. done.
  - simpl in H. apply bind_Ok_inv in H as (t1 & [[a1 s1] u1] & t2 & H1 & H2 & ->).
    unfold average_step in H1.
    apply quiet_bind_ok in H1 as (time & Htime & H1).
    injection H1 as <- <- <- <-.
    apply IH in H2 as [-> ->]; [done|].
    rewrite seconds_since_first_snoc, last_snoc. subst s.
    destruct u as [|first u]; [done|].
    by rewrite <- app_comm_cons.
Qed.

Lemma average_all_Ok_full E calibrator iv t averaged timestamps_sec
    timestamps_usec :
  average_all E calibrator iv
  = (t, Ok (averaged, timestamps_sec, timestamps_usec)) →
  t = [] ∧ averaged = averages iv
  ∧ timestamps_sec = seconds_since_first timestamps_usec
  ∧ Forall2 (λ point time,
               MergedEventTimeUsec E calibrator point.1 = Some time)
      (sorted_entries iv) timestamps_usec.
Proof.
  intros H.
  pose proof (average_all_ok_inv _ _ _ _ _ _ _ H) as (Ha & Hu & _).
  apply foldM_average_step_Ok_full in H as [-> ->]; done.
Qed.

(** What [between_writes] has done when it returns. *)
Lemma between_writes_Ok_inv E fuel F rot acc gps t ts sm :
  between_writes E fuel F rot acc gps = (t, Ok (ts, sm)) →
  ∃ tw iv calibrator,
    calibrate_windows E fuel gps rot acc (main_param E F)
      (FLAGS_locations_batch_size F) (FLAGS_locations_shift_step F)
    = (tw, Ok iv)
    ∧ AccelerometerCalibrator E gps rot acc = Some calibrator
    ∧ Forall2 (λ point time,
                 MergedEventTimeUsec E calibrator point.1 = Some time)
        (sorted_entries iv) ts
    ∧ SmoothTimeSeries E (averages iv) (seconds_since_first ts)
        (seconds_since_first ts) (FLAGS_post_smoothing_sigma_sec F)
      = Some sm
    ∧ t = tw ++ [EvCompute StCalibrator None;
                 EvSmooth (averages iv) (seconds_since_first ts)
                   (FLAGS_post_smoothing_sigma_sec F)].
Proof.
  unfold between_writes. cbn zeta. intros H.
  apply bind_Ok_inv in H as (tw & iv & t1 & Hw & H & ->).
  apply call_bind_ok in H as (calibrator & t2 & Hc & H & ->).
  apply bind_Ok_inv in H as (ta & [[a s] u] & t3 & Ha & H & ->).
  apply average_all_Ok_full in Ha as (-> & -> & -> & Hu).
  cbn [fst snd] in H.
  apply call_bind_ok in H as (sm' & t4 & Hs & H & ->).
  injection H as <- <- <-.
  exists tw, iv, calibrator. repeat split; done.
Qed.

(** What a completed run of [main] has done. *)
Lemma main_Ok_inv E fuel F t status :
  main E fuel F = (t, Ok status) →
  status = 0
  ∧ ∃ rot acc gps angles tw iv calibrator ts sm,
      before_steering E F
      = ([EvRead (FLAGS_rotations_json F);
          EvRead (FLAGS_accelerations_json F);
          EvRead (FLAGS_locations_json F);
          EvCompute StPrincipalAxes None; EvCompute StTurnAngles None],
         Ok (rot, acc, gps, angles))
      ∧ calibrate_windows E fuel gps rot acc (main_param E F)
          (FLAGS_locations_batch_size F) (FLAGS_locations_shift_step F)
        = (tw, Ok iv)
      ∧ AccelerometerCalibrator E gps rot acc = Some calibrator
      ∧ Forall2 (λ point time,
                   MergedEventTimeUsec E calibrator point.1 = Some time)
          (sorted_entries iv) ts
      ∧ SmoothTimeSeries E (averages iv) (seconds_since_first ts)
          (seconds_since_first ts) (FLAGS_post_smoothing_sigma_sec F)
        = Some sm
      ∧ t = [EvRead (FLAGS_rotations_json F);
             EvRead (FLAGS_accelerations_json F);
             EvRead (FLAGS_locations_json F);
             EvCompute StPrincipalAxes None; EvCompute StTurnAngles None;
             EvWrite 151 (FLAGS_steering_out_json F) (kSteering E)
               (kAngularVelocity E) (ExtractTimestamps rot) angles]
            ++ tw
            ++ [EvCompute StCalibrator None;
                EvSmooth (averages iv) (seconds_since_first ts)
                  (FLAGS_post_smoothing_sigma_sec F);
                EvWrite 237 (FLAGS_velocities_out_json F) (kVelocities E)
                  (kSpeedMS E) ts sm].
Proof.
  rewrite main_phases. intros H.
  apply bind_Ok_inv in H as (t1 & [[[rot acc] gps] angles] & t2 & H1 & H & ->).
  cbn [fst snd] in H.
  apply bind_Ok_inv in H as (t3 & [] & t4 & H3 & H & ->).
  apply bind_Ok_inv in H as (t5 & [ts sm] & t6 & H5 & H & ->).
  cbn [fst snd] in H.
  apply bind_Ok_inv in H as (t7 & [] & t8 & H7 & H & ->).
  injection H as <- <-. split; [done|].
  pose proof (before_steering_Ok_trace _ _ _ _ _ _ _ H1) as (-> & _).
  apply between_writes_Ok_inv in H5
    as (tw & iv & calibrator & Hw & Hc & Hu & Hs & ->).
  unfold write_steering in H3. unfold write_velocities in H7.
  destruct (written_cases
              (EvWrite 151 (FLAGS_steering_out_json F) (kSteering E)
                 (kAngularVelocity E) (ExtractTimestamps rot) angles) 151
              (JsonWriteTimestampedRealData E (ExtractTimestamps rot) angles
                 (FLAGS_steering_out_json F) (kSteering E)
                 (kAngularVelocity E))) as [Hw3|Hw3];
    rewrite Hw3 in H3; [|done]. injection H3 as <-.
  destruct (written_cases
              (EvWrite 237 (FLAGS_velocities_out_json F) (kVelocities E)
                 (kSpeedMS E) ts sm) 237
              (JsonWriteTimestampedRealData E ts sm
                 (FLAGS_velocities_out_json F) (kVelocities E)
                 (kSpeedMS E))) as [Hw7|Hw7];
    rewrite Hw7 in H7; [|done]. injection H7 as <-.
  exists rot, acc, gps, angles, tw, iv, calibrator, ts, sm.
  repeat split; try done.
  rewrite app_nil_r. simpl. rewrite <- !app_assoc. done.
Qed.





(** X6. A run of [main] that completes returns the exit status 0 and has
    done, in this order and each once: opened the rotations, the
    accelerations and the locations file, extracted the axes and the
    steering angles, written the steering file, calibrated, optimized and
    integrated the windows [k * stride, min (k * stride + window_size) n]
    for [k = 0, 1, ..., ⌈n / stride⌉ - 1], built the calibrator of the whole
    recording, smoothed, and written the velocity file. *)
Theorem completed_run_trace (E : Externals) (fuel : nat) (F : Flags)
    (t : list Event) (status : Z) :
  FLAGS_locations_batch_size F ≤ INT64_MAX →
  (∀ t' gps, ReadGpsVelocities E (FLAGS_locations_json F) = (t', Ok gps) →
             Z.of_nat (length gps) ≤ PTRDIFF_MAX) →
  main E fuel F = (t, Ok status) →
  status = 0
  ∧ ∃ rot angles gps values times ts sm,
      ReadGpsVelocities E (FLAGS_locations_json F)
      = ([EvRead (FLAGS_locations_json F)], Ok gps)
      ∧ t = [EvRead (FLAGS_rotations_json F);
             EvRead (FLAGS_accelerations_json F);
             EvRead (FLAGS_locations_json F);
             EvCompute StPrincipalAxes None; EvCompute StTurnAngles None;
             EvWrite 151 (FLAGS_steering_out_json F) (kSteering E)
               (kAngularVelocity E) (ExtractTimestamps rot) angles]
            ++ (windows_of (Z.of_nat (length gps))
                  (FLAGS_locations_batch_size F)
                  (FLAGS_locations_shift_step F) ≫= window_events)
            ++ [EvCompute StCalibrator None;
                EvSmooth values times (FLAGS_post_smoothing_sigma_sec F);
                EvWrite 237 (FLAGS_velocities_out_json F) (kVelocities E)
                  (kSpeedMS E) ts sm].
Proof.
  intros Hbatch Hsize Hmain.
  apply main_Ok_inv in Hmain
    as (-> & rot & acc & gps & angles & tw & iv & calibrator & ts & sm
        & Hbefore & Hloop & _ & _ & _ & ->).
  split; [done|].
  apply before_steering_Ok_trace in Hbefore as (_ & Hflags & Hgps & _).
  apply sanity_checks_ok_iff in Hflags
    as (_ & _ & _ & _ & _ & Hb & Hs & Hle & _).
  apply calibrate_windows_Ok_windows in Hloop as (trajs & _ & _ & ->);
    [|lia|done|by eapply Hsize].
  by exists rot, angles, gps, (averages iv), (seconds_since_first ts), ts, sm.
Qed.

Lemma world_fixes_fit t' gps :
  ReadGpsVelocities world "l.json" = (t', Ok gps) →
  Z.of_nat (length gps) ≤ PTRDIFF_MAX.
Proof. intros [= _ <-]. by vm_compute. Qed.

(** X6 in [world]. *)
Lemma completed_run_trace_witness :
  ∃ rot angles gps values times ts sm,
    ReadGpsVelocities world "l.json" = ([EvRead "l.json"%string], Ok gps)
    ∧ (main world 10 (sim_flags 3 1)).1
      = [EvRead "r.json"%string; EvRead "a.json"%string;
         EvRead "l.json"%string;
         EvCompute StPrincipalAxes None; EvCompute StTurnAngles None;
         EvWrite 151 "s.json" "steering" "angular_velocity"
           (ExtractTimestamps rot) angles]
        ++ (windows_of (Z.of_nat (length gps)) 3 1 ≫= window_events)
        ++ [EvCompute StCalibrator None; EvSmooth values times 0.5;
            EvWrite 237 "v.json" "velocities" "speed_m_s" ts sm].
Proof.
  apply (completed_run_trace world 10 (sim_flags 3 1)
           (main world 10 (sim_flags 3 1)).1 0).
  - by vm_compute.
  - exact world_fixes_fit.
  - by vm_compute.
Defined.





(** X9. If the extractor returns a number of angles that differs from the
    number of rotation samples, the run ends at the check of line 146: all
    three inputs were read and both extractions were done, and no file was
    written. *)
Theorem angle_count_mismatch_is_fatal (E : Externals) (fuel : nat)
    (F : Flags) (rot acc : list Timestamped3D)
    (gps : list TimestampedVelocity) (pca_axes : Mat)
    (angles : list float) :
  sanity_checks F = ([], Ok ()) →
  ReadTimestamp3DData E (FLAGS_rotations_json F) (kRotations E)
  = ([EvRead (FLAGS_rotations_json F)], Ok rot) →
  ReadTimestamp3DData E (FLAGS_accelerations_json F) (kAccelerations E)
  = ([EvRead (FLAGS_accelerations_json F)], Ok acc) →
  ReadGpsVelocities E (FLAGS_locations_json F)
  = ([EvRead (FLAGS_locations_json F)], Ok gps) →
  GetPrincipalRotationAxes E rot 500000 = Some pca_axes →
  GetHorizontalTurnAngles E rot
    (mkVec3 (mat_at pca_axes 0 0) (mat_at pca_axes 0 1)
       (mat_at pca_axes 0 2))
  = Some angles →
  length angles ≠ length rot →
  main E fuel F
  = ([EvRead (FLAGS_rotations_json F); EvRead (FLAGS_accelerations_json F);
      EvRead (FLAGS_locations_json F);
      EvCompute StPrincipalAxes None; EvCompute StTurnAngles None],
     Abort (CheckFailed 146))
  ∧ output_files (main E fuel F).1 = [].
Proof.
  intros Hs Hr Ha Hg Hx Hh Hlen.
  assert (main E fuel F
          = ([EvRead (FLAGS_rotations_json F);
              EvRead (FLAGS_accelerations_json F);
              EvRead (FLAGS_locations_json F);
              EvCompute StPrincipalAxes None; EvCompute StTurnAngles None],
             Abort (CheckFailed 146))) as ->; [|done].
  unfold main. rewrite Hs, M_bind_nil_ok.
  rewrite Hr, M_bind_ok. rewrite Ha, M_bind_ok. rewrite Hg, M_bind_ok.
  rewrite Hx.
  change (call ?ev ?st ?line (Some ?a)) with ([ev], Ok a).
  rewrite M_bind_ok. cbn zeta. rewrite Hh.
  change (call ?ev ?st ?line (Some ?a)) with ([ev], Ok a).
  rewrite M_bind_ok.
  rewrite bool_decide_eq_false_2 by done.
  unfold CHECK. rewrite M_bind_abort. reflexivity.
Qed.

(** X9 in [world_short_angles]. *)
Lemma angle_count_mismatch_is_fatal_witness :
  main world_short_angles 10 (sim_flags 3 1)
  = ([EvRead "r.json"%string; EvRead "a.json"%string;
      EvRead "l.json"%string;
      EvCompute StPrincipalAxes None; EvCompute StTurnAngles None],
     Abort (CheckFailed 146))
  ∧ output_files (main world_short_angles 10 (sim_flags 3 1)).1 = [].
Proof.
  apply (angle_count_mismatch_is_fatal world_short_angles 10 (sim_flags 3 1)
           world_rotations world_accelerations fixes
           (mkMat (λ row col, if Nat.eqb row col then 1%float else 0%float))
           [0%float; 0%float; 0%float]);
    try reflexivity.
  simpl. lia.
Defined.

(** X10. A document that lacks the field, or whose root is [null], reads as
    an empty stream: [operator[]] yields a [null], which is [empty()], and
    the run ends at the check of line 84 (line 99 for the GPS fixes) with
    the file opened and nothing else done. *)
Theorem missing_field_fails_the_emptiness_check (E : Externals)
    (filename field_name : string) (json_root : json) :
  ReadJsonFile E filename = Some json_root →
  (json_root = JNull
   ∨ ∃ members, json_root = JObject members
                ∧ json_member members field_name = None) →
  ReadTimestamp3DData E filename field_name
  = ([EvRead filename], Abort (CheckFailed 84))
  ∧ (field_name = kLocations E →
     ReadGpsVelocities E filename
     = ([EvRead filename], Abort (CheckFailed 99))).
Proof.
  intros Hroot Hmissing.
  assert (stream_empty E filename field_name) as Hempty.
  { exists json_root, JNull. split; [done|].
    destruct Hmissing as [->|(members & -> & Hm)]; [done|].
    simpl. by rewrite Hm. }
  split; [by apply ReadTimestamp3DData_empty|].
  intros ->. by apply ReadGpsVelocities_empty.
Qed.

(** X10 for a field that the rotations file of [world] does not have. *)
Lemma missing_field_fails_the_emptiness_check_witness :
  ReadTimestamp3DData world "r.json" "gyroscope"
  = ([EvRead "r.json"%string], Abort (CheckFailed 84))
  ∧ ("gyroscope"%string = kLocations world →
     ReadGpsVelocities world "r.json"
     = ([EvRead "r.json"%string], Abort (CheckFailed 99))).
Proof.
  apply (missing_field_fails_the_emptiness_check world "r.json" "gyroscope"
           (JObject [("rotations"%string,
                      JArray (json_of_sample <$> world_rotations))])).
  - reflexivity.
  - right. eexists. split; reflexivity.
Defined.




(** X12. Storing the trajectory of a window appends exactly one magnitude,
    the norm of the velocity, at every index of the trajectory (a new index
    starts from the empty list) and leaves every other index as it was,
    whatever the order in which the points are visited. *)
Theorem store_magnitudes_appends_one_per_point
    (integrated_trajectory : gmap N MotionIntegrationOutcome)
    (integrated_velocities : gmap N (list float)) (index : N) :
  store_magnitudes integrated_trajectory integrated_velocities !! index
  = match integrated_trajectory !! index with
    | Some point =>
        Some (default [] (integrated_velocities !! index)
              ++ [norm (velocity point)])
    | None => integrated_velocities !! index
    end.
Proof. apply lookup_store_magnitudes. Qed.

(** X13. Later windows only append: what the first windows have stored for
    an index is still there after the others, in the same order, followed by
    at most one estimate for each later window. *)
Theorem earlier_estimates_are_kept (E : Externals)
    (gps : list TimestampedVelocity) (rot acc : list Timestamped3D)
    (param : LBFGSParam) (ws1 ws2 : list (Z * Z)) (t : list Event)
    (iv : gmap N (list float)) :
  foldM (window_body E gps rot acc param) (ws1 ++ ws2) ∅ = (t, Ok iv) →
  ∃ t1 iv1,
    foldM (window_body E gps rot acc param) ws1 ∅ = (t1, Ok iv1)
    ∧ ∀ index estimates, iv1 !! index = Some estimates →
        ∃ later, iv !! index = Some (estimates ++ later)
                 ∧ (length later ≤ length ws2)%nat.
Proof.
  rewrite foldM_app. intros H.
  apply bind_Ok_inv in H as (t1 & iv1 & t2 & H1 & H2 & ->).
  exists t1, iv1. split; [done|]. intros index estimates Hindex.
  apply foldM_window_body_ok_inv in H1 as (trajs1 & _ & -> & _).
  apply foldM_window_body_ok_inv in H2 as (trajs2 & Hall & -> & _).
  exists (estimates_for index trajs2). split.
  - rewrite lookup_collect
      by apply nonempty_lists_collect, nonempty_lists_empty.
    rewrite Hindex. simpl.
    apply lookup_collect_Some in Hindex as [_ Hne].
    unfold guard_nonempty. by destruct estimates.
  - apply Forall2_length in Hall. rewrite Hall. apply length_omap_le.
Qed.

(** X13 for the first window of [world] and the two after it. *)
Lemma earlier_estimates_are_kept_witness :
  ∃ t1 iv1,
    world_body [(0, 3)] = (t1, Ok iv1)
    ∧ ∀ index estimates, iv1 !! index = Some estimates →
        ∃ later,
          (result_value (world_body ([(0, 3)] ++ [(1, 3); (2, 3)])).2
             ≫= (.!! index))
          = Some (estimates ++ later)
          ∧ (length later ≤ length [(1, 3); (2, 3)])%nat.
Proof.
  assert (∃ t iv, world_body ([(0, 3)] ++ [(1, 3); (2, 3)]) = (t, Ok iv))
    as (t & iv & Hrun).
  { eexists _, _. vm_compute. reflexivity. }
  rewrite Hrun. simpl.
  exact (earlier_estimates_are_kept world fixes world_rotations
           world_accelerations (main_param world (sim_flags 3 1))
           [(0, 3)] [(1, 3); (2, 3)] t iv Hrun).
Defined.

(* ================================================================== *)
(** ** kia-spoof-steering: facts about the 16-bit integers *)

Lemma uint16_wrap_small z : is_uint16 z → uint16_wrap z = z.
Proof.
  unfold is_uint16, UINT16_MAX, uint16_wrap. intros H.
  apply Z.mod_small. lia.
Qed.

Lemma int16_wrap_small z : is_int16 z → int16_wrap z = z.
Proof.
  unfold is_int16, INT16_MIN, INT16_MAX, int16_wrap. intros H.
  rewrite Z.mod_small; lia.
Qed.

Lemma as_promoted_small w z : is_uint16 z → as_promoted w z = z.
Proof. destruct w; [apply uint16_wrap_small|done]. Qed.

Lemma as_int_small w z : is_int16 z → as_int w z = z.
Proof. destruct w; [apply int16_wrap_small|done]. Qed.

Lemma uint16_wrap_range z : is_uint16 (uint16_wrap z).
Proof.
  unfold is_uint16, UINT16_MAX, uint16_wrap.
  pose proof (Z.mod_pos_bound z (2 ^ 16)). lia.
Qed.

Lemma int16_wrap_range z : is_int16 (int16_wrap z).
Proof.
  unfold is_int16, INT16_MIN, INT16_MAX, int16_wrap.
  pose proof (Z.mod_pos_bound (z + 2 ^ 15) (2 ^ 16)). lia.
Qed.

(** A negative [int16_t] converted to [unsigned int] or kept in [int]. *)
Lemma as_promoted_negated w offset :
  INT16_MIN ≤ offset < 0 → as_promoted w (as_int w (- offset)) = - offset.
Proof.
  unfold INT16_MIN. intros H. destruct w; simpl; [|done].
  destruct (decide (offset = -32768)) as [->|]; [by vm_compute|].
  rewrite int16_wrap_small by (unfold is_int16, INT16_MIN, INT16_MAX; lia).
  apply uint16_wrap_small. unfold is_uint16, UINT16_MAX. lia.
Qed.

Lemma smooth_voltage_eq w old new h :
  is_uint16 old → is_uint16 new →
  smooth_voltage w old new h = if Z.abs (old - new) >? h then new else old.
Proof.
  unfold is_uint16, UINT16_MAX. intros Ho Hn. unfold smooth_voltage.
  assert (arduino_max old new - arduino_min old new = Z.abs (old - new)) as ->.
  { unfold arduino_max, arduino_min.
    destruct (Z.gtb_spec old new), (Z.ltb_spec old new); lia. }
  rewrite as_promoted_small; [done|]. unfold is_uint16, UINT16_MAX. lia.
Qed.

Lemma add_offset_eq w base offset :
  is_uint16 base → is_int16 offset →
  add_offset w base offset = Z.max 0 (Z.min UINT16_MAX (base + offset)).
Proof.
  unfold is_uint16, is_int16, UINT16_MAX, INT16_MIN, INT16_MAX.
  intros Hb Ho. unfold add_offset.
  destruct (Z.eqb_spec offset 0) as [->|Hz]; [unfold UINT16_MAX; lia|].
  destruct (Z.gtb_spec offset 0) as [Hpos|Hneg].
  - rewrite !as_promoted_small
      by (unfold is_uint16, UINT16_MAX in *; lia).
    unfold UINT16_MAX.
    destruct (Z.gtb_spec (65535 - base) offset).
    + rewrite as_promoted_small, uint16_wrap_small
        by (unfold is_uint16, UINT16_MAX; lia). lia.
    + lia.
  - rewrite as_promoted_negated by (unfold INT16_MIN; lia).
    destruct (Z.gtb_spec base (- offset)).
    + assert (is_uint16 (base + offset))
        by (unfold is_uint16, UINT16_MAX; lia).
      rewrite as_promoted_small, uint16_wrap_small by done.
      unfold UINT16_MAX. lia.
    + unfold UINT16_MAX. lia.
Qed.

Import TargetVoltageSmoother.

Ltac unfold_ranges :=
  unfold state_in_range, settings_in_range, offsets_bounded, is_uint16,
    is_int16, UINT16_MAX, INT16_MIN, INT16_MAX in *; simpl in *.

(** What one [step] does to a state in range, case by case. *)
Lemma step_in_range w c b g cur tgt n :
  state_in_range (mk c (mkSmoothedVoltageState b g cur tgt) n) →
  let n1 := Z.min (n + 1) UINT16_MAX in
  step w (mk c (mkSmoothedVoltageState b g cur tgt) n)
  = if decide (tgt = cur) then
      if decide (tgt ≠ 0
                 ∧ as_promoted w (steps_at_target_level c
                                  + steps_per_adjustment_level c) < n1)
      then mk c (mkSmoothedVoltageState b g cur 0) n1
      else mk c (mkSmoothedVoltageState b g cur tgt) n1
    else if decide (steps_per_adjustment_level c < n1) then
      mk c (mkSmoothedVoltageState b g
              (if decide (cur < tgt) then cur + 1 else cur - 1) tgt) 0
    else mk c (mkSmoothedVoltageState b g cur tgt) n1.
Proof.
  intros Hs n1. unfold step. cbn [steering_spoof_settings_ voltage_state_
    steps_spent_at_current_offset_ target_offset_ current_offset_
    smoothed_blue_voltage_ smoothed_green_voltage_].
  assert ((if n <? UINT16_MAX then uint16_wrap (n + 1) else n) = n1) as ->.
  { subst n1. unfold_ranges. destruct (Z.ltb_spec n 65535).
    - rewrite uint16_wrap_small by (unfold_ranges; lia). lia.
    - lia. }
  destruct (Z.eqb_spec tgt cur) as [->|Hne]; cbn [negb].
  - rewrite decide_True by done.
    destruct (Z.eqb_spec cur 0) as [->|Hnz]; cbn [negb andb].
    + rewrite decide_False by (intros [? _]; done). done.
    + destruct (Z.gtb_spec n1
                  (as_promoted w (steps_at_target_level c
                                  + steps_per_adjustment_level c))).
      * rewrite decide_True by (split; [done|lia]). done.
      * rewrite decide_False by (intros [_ ?]; lia). done.
  - rewrite decide_False by done.
    destruct (Z.gtb_spec n1 (steps_per_adjustment_level c)).
    + rewrite decide_True by lia. do 2 f_equal.
      destruct (Z.gtb_spec tgt cur).
      * rewrite decide_True by lia.
        rewrite as_int_small, int16_wrap_small; [done|..];
          unfold_ranges; lia.
      * rewrite decide_False by lia.
        rewrite as_int_small, int16_wrap_small; [done|..];
          unfold_ranges; lia.
    + rewrite decide_False by lia. done.
Qed.

Lemma step_preserves_range w s :
  state_in_range s → state_in_range (step w s).
Proof.
  destruct s as [c [b g cur tgt] n]. intros Hs.
  rewrite step_in_range by done.
  repeat case_decide; unfold_ranges; lia.
Qed.

Lemma step_preserves_bounds w s :
  state_in_range s → offsets_bounded s → offsets_bounded (step w s).
Proof.
  destruct s as [c [b g cur tgt] n]. intros Hs Hb.
  rewrite step_in_range by done.
  repeat case_decide; unfold_ranges; lia.
Qed.

(** What [set_target_offset] does to a state in range. *)
Lemma set_target_offset_in_range w c b g cur tgt n x :
  state_in_range (mk c (mkSmoothedVoltageState b g cur tgt) n) →
  is_int16 x →
  let m := max_steering_magnitude c in
  let target := Z.max (- m) (Z.min m x) in
  set_target_offset w (mk c (mkSmoothedVoltageState b g cur tgt) n) x
  = mk c (mkSmoothedVoltageState b g cur target)
       (if decide (target = cur)
        then Z.min n (steps_per_adjustment_level c) else n).
Proof.
  intros Hs Hx m target. unfold set_target_offset.
  cbn [steering_spoof_settings_ voltage_state_
    steps_spent_at_current_offset_ target_offset_ current_offset_
    smoothed_blue_voltage_ smoothed_green_voltage_].
  assert (int16_wrap (constrain x (as_int w (- max_steering_magnitude c))
                        (max_steering_magnitude c)) = target) as ->.
  { rewrite as_int_small by (unfold_ranges; lia).
    unfold constrain. subst target m.
    destruct (Z.ltb_spec x (- max_steering_magnitude c));
      [|destruct (Z.gtb_spec x (max_steering_magnitude c))];
      rewrite int16_wrap_small by (unfold_ranges; lia); unfold_ranges; lia. }
  destruct (Z.eqb_spec target cur) as [Heq|Hne].
  - rewrite decide_True by done. f_equal.
    unfold arduino_min.
    destruct (Z.ltb_spec n (steps_per_adjustment_level c));
      rewrite uint16_wrap_small by (unfold_ranges; lia); lia.
  - rewrite decide_False by done. done.
Qed.

Lemma set_target_offset_preserves_range w s x :
  state_in_range s → is_int16 x → state_in_range (set_target_offset w s x).
Proof.
  destruct s as [c [b g cur tgt] n]. intros Hs Hx.
  rewrite set_target_offset_in_range by done.
  case_decide; unfold_ranges; lia.
Qed.

Lemma set_target_offset_preserves_bounds w s x :
  state_in_range s → is_int16 x → offsets_bounded s →
  offsets_bounded (set_target_offset w s x).
Proof.
  destruct s as [c [b g cur tgt] n]. intros Hs Hx Hb.
  rewrite set_target_offset_in_range by done.
  case_decide; unfold_ranges; lia.
Qed.

Lemma update_measurments_preserves_range w s d :
  state_in_range s → is_uint16 (blue_voltage d) →
  is_uint16 (green_voltage d) →
  state_in_range (update_measurments w s d).
Proof.
  destruct s as [c [b g cur tgt] n]. intros Hs Hb Hg.
  unfold update_measurments. cbn [steering_spoof_settings_ voltage_state_
    steps_spent_at_current_offset_ target_offset_ current_offset_
    smoothed_blue_voltage_ smoothed_green_voltage_].
  rewrite !smooth_voltage_eq by (unfold_ranges; lia).
  destruct (Z.abs (b - blue_voltage d) >? voltage_update_hystheresis c),
    (Z.abs (g - green_voltage d) >? voltage_update_hystheresis c);
    unfold_ranges; lia.
Qed.

Lemma do_call_preserves w s c :
  state_in_range s → offsets_bounded s → call_in_range c →
  state_in_range (do_call w s c) ∧ offsets_bounded (do_call w s c).
Proof.
  intros Hs Hb Hc. destruct c as [x| |d]; simpl in *.
  - split; [by apply set_target_offset_preserves_range
           |by apply set_target_offset_preserves_bounds].
  - split; [by apply step_preserves_range|by apply step_preserves_bounds].
  - destruct Hc. split; [by apply update_measurments_preserves_range|].
    destruct s as [c [b g cur tgt] n]. exact Hb.
Qed.

Lemma do_calls_preserve w cs : ∀ s,
  state_in_range s → offsets_bounded s → Forall call_in_range cs →
  state_in_range (do_calls w s cs) ∧ offsets_bounded (do_calls w s cs).
Proof.
  induction cs as [|c cs IH]; intros s Hs Hb Hcs; [done|].
  apply Forall_cons in Hcs as [Hc Hcs].
  destruct (do_call_preserves w s c Hs Hb Hc) as [Hs' Hb'].
  by apply (IH (do_call w s c)).
Qed.

Lemma steps_succ_r w k s : steps w (S k) s = steps w k (step w s).
Proof. apply Nat.iter_succ_r. Qed.

Lemma steps_add w j k s : steps w (j + k) s = steps w j (steps w k s).
Proof. apply Nat.iter_add. Qed.

Lemma steps_preserve_range w k s :
  state_in_range s → state_in_range (steps w k s).
Proof.
  intros Hs. induction k as [|k IH]; [done|].
  by apply step_preserves_range.
Qed.

(** With the offsets apart, the next move comes once the counter has
    passed [steps_per_adjustment_level]. *)
Lemma approach_one w c b g tgt (m : nat) : ∀ cur n,
  state_in_range (mk c (mkSmoothedVoltageState b g cur tgt) n) →
  steps_per_adjustment_level c < UINT16_MAX →
  tgt ≠ cur →
  steps_per_adjustment_level c + 1 - n ≤ Z.of_nat m →
  ∃ k : nat,
    (1 ≤ k)%nat
    ∧ Z.of_nat k ≤ Z.max 1 (steps_per_adjustment_level c + 1 - n)
    ∧ steps w k (mk c (mkSmoothedVoltageState b g cur tgt) n)
      = mk c (mkSmoothedVoltageState b g
                (if decide (cur < tgt) then cur + 1 else cur - 1) tgt) 0.
Proof.
  induction m as [|m IH]; intros cur n Hs HP Hne Hm.
  - exists 1%nat. split; [lia|]. split; [lia|].
    unfold steps. simpl. rewrite step_in_range by done.
    rewrite decide_False by done.
    rewrite decide_True; [done|]. unfold_ranges. lia.
  - destruct (decide (steps_per_adjustment_level c
                      < Z.min (n + 1) UINT16_MAX)) as [Hlt|Hge].
    + exists 1%nat. split; [lia|]. split; [lia|].
      unfold steps. simpl. rewrite step_in_range by done.
      rewrite decide_False by done. by rewrite decide_True.
    + assert (n + 1 ≤ steps_per_adjustment_level c) as Hn
        by (unfold_ranges; lia).
      assert (Z.min (n + 1) UINT16_MAX = n + 1) as Hmin
        by (unfold_ranges; lia).
      destruct (IH cur (n + 1)) as (k & Hk1 & Hk2 & Hk); [|done|done|lia|].
      { unfold_ranges. lia. }
      exists (S k). split; [lia|]. split; [lia|].
      rewrite steps_succ_r, step_in_range by done.
      rewrite decide_False by done. rewrite decide_False by done.
      by rewrite Hmin.
Qed.

(** The current offset reaches the target, one unit at a time. *)
Lemma approach w c b g tgt (d : nat) : ∀ cur n,
  state_in_range (mk c (mkSmoothedVoltageState b g cur tgt) n) →
  steps_per_adjustment_level c < UINT16_MAX →
  Z.abs (tgt - cur) = Z.of_nat d →
  ∃ (k : nat) n',
    Z.of_nat k ≤ (steps_per_adjustment_level c + 1) * Z.of_nat d
    ∧ steps w k (mk c (mkSmoothedVoltageState b g cur tgt) n)
      = mk c (mkSmoothedVoltageState b g tgt tgt) n'.
Proof.
  induction d as [|d IH]; intros cur n Hs HP Hd.
  - exists 0%nat, n. split; [lia|].
    assert (cur = tgt) as -> by lia. done.
  - assert (tgt ≠ cur) as Hne by lia.
    destruct (approach_one w c b g tgt
                (Z.to_nat (steps_per_adjustment_level c + 1 - n)) cur n)
      as (k1 & Hk1 & Hk1' & Hsteps1); [done|done|done|lia|].
    pose proof (steps_preserve_range w k1 _ Hs) as Hs1.
    rewrite Hsteps1 in Hs1.
    destruct (IH _ 0 Hs1 HP) as (k2 & n' & Hk2 & Hsteps2).
    { case_decide; lia. }
    exists (k2 + k1)%nat, n'. split.
    + assert (Z.of_nat k1 ≤ steps_per_adjustment_level c + 1)
        by (unfold_ranges; lia).
      lia.
    + by rewrite steps_add, Hsteps1.
Qed.

(** At a nonzero target, the target is dropped once the counter has
    passed the sum of the two settings. *)
Lemma hold_release w c b g cur (m : nat) : ∀ n,
  state_in_range (mk c (mkSmoothedVoltageState b g cur cur) n) →
  as_promoted w (steps_at_target_level c + steps_per_adjustment_level c)
  < UINT16_MAX →
  cur ≠ 0 →
  as_promoted w (steps_at_target_level c + steps_per_adjustment_level c)
  + 1 - n ≤ Z.of_nat m →
  ∃ (k : nat) n',
    Z.of_nat k
    ≤ Z.max 1 (as_promoted w (steps_at_target_level c
                              + steps_per_adjustment_level c) + 1 - n)
    ∧ steps w k (mk c (mkSmoothedVoltageState b g cur cur) n)
      = mk c (mkSmoothedVoltageState b g cur 0) n'.
Proof.
  set (H := as_promoted w (steps_at_target_level c
                           + steps_per_adjustment_level c)).
  induction m as [|m IH]; intros n Hs HH Hnz Hm.
  - exists 1%nat, (Z.min (n + 1) UINT16_MAX). split; [lia|].
    unfold steps. simpl. rewrite step_in_range by done.
    rewrite decide_True by done. rewrite decide_True; [done|].
    split; [done|]. fold H. unfold_ranges. lia.
  - destruct (decide (H < Z.min (n + 1) UINT16_MAX)) as [Hlt|Hge].
    + exists 1%nat, (Z.min (n + 1) UINT16_MAX). split; [lia|].
      unfold steps. simpl. rewrite step_in_range by done.
      rewrite decide_True by done. by rewrite decide_True.
    + assert (n + 1 ≤ H) as Hn by (unfold_ranges; lia).
      assert (Z.min (n + 1) UINT16_MAX = n + 1) as Hmin
        by (unfold_ranges; lia).
      destruct (IH (n + 1)) as (k & n' & Hk & Hsteps); [|done|done|lia|].
      { unfold_ranges. lia. }
      exists (S k), n'. split; [lia|].
      rewrite steps_succ_r, step_in_range by done.
      rewrite decide_True by done.
      rewrite decide_False by (intros [_ ?]; done).
      by rewrite Hmin.
Qed.

(** With both offsets at zero nothing moves any more. *)
Lemma rest w c b g (k : nat) : ∀ n,
  state_in_range (mk c (mkSmoothedVoltageState b g 0 0) n) →
  ∃ n', steps w k (mk c (mkSmoothedVoltageState b g 0 0) n)
        = mk c (mkSmoothedVoltageState b g 0 0) n'.
Proof.
  induction k as [|k IH]; intros n Hs; [by exists n|].
  rewrite steps_succ_r, step_in_range by done.
  rewrite decide_True by done.
  rewrite decide_False by (intros [? _]; done).
  apply IH.
  pose proof (step_preserves_range w _ Hs) as Hs'.
  rewrite step_in_range in Hs' by done.
  rewrite decide_True in Hs' by done.
  by rewrite decide_False in Hs' by (intros [? _]; done).
Qed.

Lemma settle w c b g cur tgt n :
  state_in_range (mk c (mkSmoothedVoltageState b g cur tgt) n) →
  steps_per_adjustment_level c < UINT16_MAX →
  as_promoted w (steps_at_target_level c + steps_per_adjustment_level c)
  < UINT16_MAX →
  ∃ (k : nat) n',
    Z.of_nat k
    ≤ (steps_per_adjustment_level c + 1) * (Z.abs (tgt - cur) + Z.abs tgt)
      + as_promoted w (steps_at_target_level c
                       + steps_per_adjustment_level c) + 1
    ∧ steps w k (mk c (mkSmoothedVoltageState b g cur tgt) n)
      = mk c (mkSmoothedVoltageState b g 0 0) n'.
Proof.
  set (H := as_promoted w (steps_at_target_level c
                           + steps_per_adjustment_level c)).
  intros Hs HP HH.
  assert (0 ≤ H) as HH0.
  { subst H. destruct w; simpl.
    - apply uint16_wrap_range.
    - unfold_ranges. lia. }
  destruct (approach w c b g tgt (Z.to_nat (Z.abs (tgt - cur))) cur n)
    as (k1 & n1 & Hk1 & Hsteps1); [done|done|lia|].
  pose proof (steps_preserve_range w k1 _ Hs) as Hs1. rewrite Hsteps1 in Hs1.
  destruct (decide (tgt = 0)) as [->|Hnz].
  { exists k1, n1. split; [|done].
    assert (0 ≤ steps_per_adjustment_level c) by (unfold_ranges; lia). nia. }
  destruct (hold_release w c b g tgt (Z.to_nat (H + 1 - n1)) n1)
    as (k2 & n2 & Hk2 & Hsteps2); [done|done|done|fold H; lia|].
  fold H in Hk2.
  pose proof (steps_preserve_range w k2 _ Hs1) as Hs2. rewrite Hsteps2 in Hs2.
  destruct (approach w c b g 0 (Z.to_nat (Z.abs tgt)) tgt n2)
    as (k3 & n3 & Hk3 & Hsteps3); [done|done|lia|].
  exists (k3 + (k2 + k1))%nat, n3. split.
  - assert (0 ≤ n1) by (unfold_ranges; lia).
    assert (0 ≤ steps_per_adjustment_level c) by (unfold_ranges; lia).
    nia.
  - by rewrite !steps_add, Hsteps1, Hsteps2.
Qed.

(** Only [step] raises the counter, and only by one. *)
Lemma counter_after_call w s c :
  state_in_range s → call_in_range c →
  steps_spent_at_current_offset_ (do_call w s c)
  ≤ steps_spent_at_current_offset_ s + Z.of_nat (count_steps [c]).
Proof.
  destruct s as [cfg [b g cur tgt] n]. intros Hs Hc.
  destruct c as [x| |d]; simpl in Hc |- *.
  - rewrite set_target_offset_in_range by done. simpl. case_decide; lia.
  - rewrite step_in_range by done.
    repeat case_decide; simpl; unfold_ranges; lia.
  - lia.
Qed.

Lemma current_after_call w s c :
  state_in_range s → call_in_range c →
  steps_spent_at_current_offset_ s + Z.of_nat (count_steps [c])
  ≤ steps_per_adjustment_level (steering_spoof_settings_ s) →
  current_offset_ (voltage_state_ (do_call w s c))
  = current_offset_ (voltage_state_ s)
  ∧ steering_spoof_settings_ (do_call w s c) = steering_spoof_settings_ s.
Proof.
  destruct s as [cfg [b g cur tgt] n]. intros Hs Hc Hn.
  destruct c as [x| |d]; simpl in Hc, Hn |- *.
  - rewrite set_target_offset_in_range by done. done.
  - rewrite step_in_range by done.
    repeat case_decide; simpl; try done; unfold_ranges; lia.
  - done.
Qed.

Lemma slew_limit w cs : ∀ s,
  state_in_range s → Forall call_in_range cs →
  steps_spent_at_current_offset_ s + Z.of_nat (count_steps cs)
  ≤ steps_per_adjustment_level (steering_spoof_settings_ s) →
  current_offset_ (voltage_state_ (do_calls w s cs))
  = current_offset_ (voltage_state_ s).
Proof.
  induction cs as [|c cs IH]; intros s Hs Hcs Hn; [done|].
  apply Forall_cons in Hcs as [Hc Hcs].
  assert (Z.of_nat (count_steps (c :: cs))
          = Z.of_nat (count_steps [c]) + Z.of_nat (count_steps cs)) as Hcount.
  { destruct c; simpl; lia. }
  rewrite Hcount in Hn.
  pose proof (counter_after_call w s c Hs Hc) as Hcounter.
  destruct (current_after_call w s c Hs Hc) as [Hcur Hcfg]; [lia|].
  unfold do_calls. simpl. fold (do_calls w (do_call w s c) cs).
  rewrite IH; [done| |done|].
  - destruct c as [x| |d]; simpl in Hc |- *.
    + by apply set_target_offset_preserves_range.
    + by apply step_preserves_range.
    + destruct Hc. by apply update_measurments_preserves_range.
  - rewrite Hcfg. lia.
Qed.

Lemma negated_offset w cur :
  INT16_MIN < cur ≤ INT16_MAX → int16_wrap (as_int w (- cur)) = - cur.
Proof.
  intros H.
  rewrite as_int_small, int16_wrap_small; [done|..]; unfold_ranges; lia.
Qed.

Lemma steps_settings w k s :
  steering_spoof_settings_ (steps w k s) = steering_spoof_settings_ s.
Proof.
  induction k as [|k IH]; [done|]. unfold steps in *. simpl. rewrite <- IH.
  generalize (Nat.iter k (step w) s). intros s'. unfold step.
  repeat match goal with |- context [if ?b then _ else _] => destruct b end;
    done.
Qed.

Lemma example_smoother_in_range : state_in_range example_smoother.
Proof. unfold_ranges. lia. Qed.

(* ================================================================== *)
(** ** kia-spoof-steering: properties *)

(** X14. [smooth_voltage] keeps the old value while the measurement is
    within the hysteresis of it and takes the measurement otherwise, on both
    integer widths; the value it returns is never further than the
    hysteresis from the measurement. *)
Theorem smooth_voltage_hysteresis (w : IntWidth) (old new h : Z) :
  is_uint16 old → is_uint16 new → 0 ≤ h →
  (Z.abs (old - new) ≤ h → smooth_voltage w old new h = old)
  ∧ (h < Z.abs (old - new) → smooth_voltage w old new h = new)
  ∧ Z.abs (smooth_voltage w old new h - new) ≤ h.
Proof.
  intros Ho Hn Hh. rewrite smooth_voltage_eq by done.
  destruct (Z.gtb_spec (Z.abs (old - new)) h); repeat split; lia.
Qed.

(** X14 for a measurement within the hysteresis. *)
Lemma smooth_voltage_hysteresis_witness :
  (Z.abs (500 - 503) ≤ 5 → smooth_voltage Int16 500 503 5 = 500)
  ∧ (5 < Z.abs (500 - 503) → smooth_voltage Int16 500 503 5 = 503)
  ∧ Z.abs (smooth_voltage Int16 500 503 5 - 503) ≤ 5.
Proof.
  apply (smooth_voltage_hysteresis Int16 500 503 5);
    unfold is_uint16, UINT16_MAX; lia.
Defined.

(** X15. [update_measurments] changes the two smoothed voltages only: the
    offsets, the counter and the settings stay. Afterwards each smoothed
    voltage is within the hysteresis of its measurement, and the same
    measurement a second time changes nothing. *)
Theorem update_measurments_settles (w : IntWidth) (s : t)
    (d : InstantVoltageData) :
  state_in_range s → is_uint16 (blue_voltage d) →
  is_uint16 (green_voltage d) →
  let s' := update_measurments w s d in
  let h := voltage_update_hystheresis (steering_spoof_settings_ s) in
  current_offset_ (voltage_state_ s') = current_offset_ (voltage_state_ s)
  ∧ target_offset_ (voltage_state_ s') = target_offset_ (voltage_state_ s)
  ∧ steps_spent_at_current_offset_ s' = steps_spent_at_current_offset_ s
  ∧ steering_spoof_settings_ s' = steering_spoof_settings_ s
  ∧ Z.abs (get_smoothed_blue_voltage s' - blue_voltage d) ≤ h
  ∧ Z.abs (get_smoothed_green_voltage s' - green_voltage d) ≤ h
  ∧ update_measurments w s' d = s'.
Proof.
  destruct s as [c [b g cur tgt] n]. intros Hs Hb Hg.
  unfold update_measurments, get_smoothed_blue_voltage,
    get_smoothed_green_voltage.
  cbn [steering_spoof_settings_ voltage_state_
    steps_spent_at_current_offset_ target_offset_ current_offset_
    smoothed_blue_voltage_ smoothed_green_voltage_].
  assert (is_uint16 b ∧ is_uint16 g ∧ 0 ≤ voltage_update_hystheresis c)
    as (Hb0 & Hg0 & Hh) by (unfold_ranges; lia).
  rewrite !(smooth_voltage_eq w b), !(smooth_voltage_eq w g) by done.
  destruct (Z.gtb_spec (Z.abs (b - blue_voltage d))
              (voltage_update_hystheresis c)),
    (Z.gtb_spec (Z.abs (g - green_voltage d))
       (voltage_update_hystheresis c));
    rewrite !smooth_voltage_eq by done;
    repeat match goal with
           | |- context [Z.abs ?x >? ?y] => destruct (Z.gtb_spec (Z.abs x) y)
           end;
    repeat split; try done; lia.
Qed.

(** X15 on [example_smoother]. *)
Lemma update_measurments_settles_witness :
  let s' := update_measurments Int32 example_smoother
              (mkInstantVoltageData 510 521) in
  current_offset_ (voltage_state_ s') = 2
  ∧ target_offset_ (voltage_state_ s') = 5
  ∧ steps_spent_at_current_offset_ s' = 3
  ∧ steering_spoof_settings_ s' = example_settings
  ∧ Z.abs (get_smoothed_blue_voltage s' - 510) ≤ 1
  ∧ Z.abs (get_smoothed_green_voltage s' - 521) ≤ 1
  ∧ update_measurments Int32 s' (mkInstantVoltageData 510 521) = s'.
Proof.
  apply (update_measurments_settles Int32 example_smoother
           (mkInstantVoltageData 510 521));
    [exact example_smoother_in_range|..];
    unfold is_uint16, UINT16_MAX; simpl; lia.
Defined.

(** X16. [add_offset] is the addition that saturates at the ends of the
    [uint16_t] range, for every base and every [int16_t] offset, on both
    integer widths. *)
Theorem add_offset_saturates (w : IntWidth) (base offset : Z) :
  is_uint16 base → is_int16 offset →
  add_offset w base offset = Z.max 0 (Z.min UINT16_MAX (base + offset)).
Proof. apply add_offset_eq. Qed.

(** X16 at the upper end of the range. *)
Lemma add_offset_saturates_witness :
  add_offset Int16 65530 10 = Z.max 0 (Z.min UINT16_MAX (65530 + 10)).
Proof.
  apply (add_offset_saturates Int16 65530 10);
    unfold is_uint16, is_int16, UINT16_MAX, INT16_MIN, INT16_MAX; lia.
Defined.

(** X17. The two target voltages are the smoothed voltages shifted in
    opposite directions by the current offset and saturated: green by
    [+current_offset_], blue by [-current_offset_]. *)
Theorem target_voltages_mirror_the_offset (w : IntWidth) (s : t) :
  state_in_range s →
  INT16_MIN < current_offset_ (voltage_state_ s) →
  get_target_green_voltage w s
  = Z.max 0 (Z.min UINT16_MAX
               (get_smoothed_green_voltage s + get_current_offset s))
  ∧ get_target_blue_voltage w s
    = Z.max 0 (Z.min UINT16_MAX
                 (get_smoothed_blue_voltage s - get_current_offset s)).
Proof.
  destruct s as [c [b g cur tgt] n]. intros Hs Hcur.
  unfold get_target_green_voltage, get_target_blue_voltage,
    get_smoothed_green_voltage, get_smoothed_blue_voltage,
    get_current_offset.
  cbn [voltage_state_ current_offset_ smoothed_blue_voltage_
    smoothed_green_voltage_] in *.
  rewrite negated_offset by (unfold_ranges; lia).
  rewrite !add_offset_eq by (unfold_ranges; lia). done.
Qed.

(** X17 on [example_smoother]. *)
Lemma target_voltages_mirror_the_offset_witness :
  get_target_green_voltage Int16 example_smoother
  = Z.max 0 (Z.min UINT16_MAX (520 + 2))
  ∧ get_target_blue_voltage Int16 example_smoother
    = Z.max 0 (Z.min UINT16_MAX (500 - 2)).
Proof.
  apply (target_voltages_mirror_the_offset Int16 example_smoother);
    [exact example_smoother_in_range|by vm_compute].
Defined.

(** X18. [set_target_offset] stores the requested offset clamped to
    [[-max_steering_magnitude, max_steering_magnitude]], so a request within
    the magnitude is stored as it is. It leaves the current offset and the
    voltages alone, and it never raises the step counter. *)
Theorem set_target_offset_clamps (w : IntWidth) (s : t) (x : Z) :
  state_in_range s → is_int16 x →
  let m := max_steering_magnitude (steering_spoof_settings_ s) in
  let s' := set_target_offset w s x in
  target_offset_ (voltage_state_ s') = Z.max (- m) (Z.min m x)
  ∧ (- m ≤ x ≤ m → target_offset_ (voltage_state_ s') = x)
  ∧ current_offset_ (voltage_state_ s') = current_offset_ (voltage_state_ s)
  ∧ get_smoothed_blue_voltage s' = get_smoothed_blue_voltage s
  ∧ get_smoothed_green_voltage s' = get_smoothed_green_voltage s
  ∧ steps_spent_at_current_offset_ s' ≤ steps_spent_at_current_offset_ s.
Proof.
  destruct s as [c [b g cur tgt] n]. intros Hs Hx.
  cbn zeta. rewrite set_target_offset_in_range by done.
  cbn [steering_spoof_settings_ voltage_state_
    steps_spent_at_current_offset_ target_offset_ current_offset_].
  unfold get_smoothed_blue_voltage, get_smoothed_green_voltage. simpl.
  repeat split; try done; [lia|case_decide; lia].
Qed.

(** X18 on [example_smoother], for a request beyond the magnitude. *)
Lemma set_target_offset_clamps_witness :
  let s' := set_target_offset Int16 example_smoother 9 in
  target_offset_ (voltage_state_ s') = Z.max (- 5) (Z.min 5 9)
  ∧ (- 5 ≤ 9 ≤ 5 → target_offset_ (voltage_state_ s') = 9)
  ∧ current_offset_ (voltage_state_ s') = 2
  ∧ get_smoothed_blue_voltage s' = 500
  ∧ get_smoothed_green_voltage s' = 520
  ∧ steps_spent_at_current_offset_ s' ≤ 3.
Proof.
  apply (set_target_offset_clamps Int16 example_smoother 9);
    [exact example_smoother_in_range|].
  unfold is_int16, INT16_MIN, INT16_MAX. lia.
Defined.

(** X19. One [step] moves the current offset by at most one unit, and only
    towards the target; when it moves, the counter restarts at zero. The
    target stays, or becomes zero when the current offset was at it. The
    voltages and the settings stay. *)
Theorem step_moves_one_unit (w : IntWidth) (s : t) :
  state_in_range s →
  let v := voltage_state_ s in
  let v' := voltage_state_ (step w s) in
  Z.abs (current_offset_ v' - current_offset_ v) ≤ 1
  ∧ (current_offset_ v' ≠ current_offset_ v →
     Z.abs (target_offset_ v - current_offset_ v')
     = Z.abs (target_offset_ v - current_offset_ v) - 1
     ∧ steps_spent_at_current_offset_ (step w s) = 0)
  ∧ (target_offset_ v' = target_offset_ v
     ∨ target_offset_ v' = 0 ∧ current_offset_ v = target_offset_ v)
  ∧ smoothed_blue_voltage_ v' = smoothed_blue_voltage_ v
  ∧ smoothed_green_voltage_ v' = smoothed_green_voltage_ v
  ∧ steering_spoof_settings_ (step w s) = steering_spoof_settings_ s
  ∧ is_uint16 (steps_spent_at_current_offset_ (step w s)).
Proof.
  destruct s as [c [b g cur tgt] n]. intros Hs.
  cbn zeta. rewrite step_in_range by done.
  repeat case_decide; simpl; repeat split; try done;
    try (by left); try (by right); unfold_ranges; lia.
Qed.

(** X19 on [example_smoother]. *)
Lemma step_moves_one_unit_witness :
  let v := voltage_state_ example_smoother in
  let v' := voltage_state_ (step Int16 example_smoother) in
  Z.abs (current_offset_ v' - current_offset_ v) ≤ 1
  ∧ (current_offset_ v' ≠ current_offset_ v →
     Z.abs (target_offset_ v - current_offset_ v')
     = Z.abs (target_offset_ v - current_offset_ v) - 1
     ∧ steps_spent_at_current_offset_ (step Int16 example_smoother) = 0)
  ∧ (target_offset_ v' = target_offset_ v
     ∨ target_offset_ v' = 0 ∧ current_offset_ v = target_offset_ v)
  ∧ smoothed_blue_voltage_ v' = smoothed_blue_voltage_ v
  ∧ smoothed_green_voltage_ v' = smoothed_green_voltage_ v
  ∧ steering_spoof_settings_ (step Int16 example_smoother)
    = steering_spoof_settings_ example_smoother
  ∧ is_uint16 (steps_spent_at_current_offset_ (step Int16 example_smoother)).
Proof.
  apply (step_moves_one_unit Int16 example_smoother).
  exact example_smoother_in_range.
Defined.

(** X20. Whatever the sketch calls, with arguments of the parameters' types:
    both offsets stay within the configured magnitude, and so each target
    voltage stays within that magnitude of its smoothed voltage and in the
    [uint16_t] range. *)
Theorem spoofed_voltage_stays_within_magnitude (w : IntWidth) (s : t)
    (cs : list SmootherCall) :
  state_in_range s → offsets_bounded s → Forall call_in_range cs →
  let s' := do_calls w s cs in
  let m := max_steering_magnitude (steering_spoof_settings_ s') in
  offsets_bounded s'
  ∧ Z.abs (get_target_green_voltage w s' - get_smoothed_green_voltage s') ≤ m
  ∧ Z.abs (get_target_blue_voltage w s' - get_smoothed_blue_voltage s') ≤ m
  ∧ is_uint16 (get_target_green_voltage w s')
  ∧ is_uint16 (get_target_blue_voltage w s').
Proof.
  intros Hs Hb Hcs.
  destruct (do_calls_preserve w cs s Hs Hb Hcs) as [Hs' Hb'].
  generalize dependent (do_calls w s cs). clear. intros s Hs Hb. cbn zeta.
  split; [done|].
  destruct s as [c [b g cur tgt] n].
  unfold get_target_green_voltage, get_target_blue_voltage,
    get_smoothed_green_voltage, get_smoothed_blue_voltage.
  cbn [voltage_state_ current_offset_ smoothed_blue_voltage_
    smoothed_green_voltage_ steering_spoof_settings_] in *.
  rewrite negated_offset by (unfold_ranges; lia).
  rewrite !add_offset_eq by (unfold_ranges; lia).
  unfold_ranges. lia.
Qed.

(** X20 for five calls on [example_smoother]. *)
Lemma spoofed_voltage_stays_within_magnitude_witness :
  let s' := do_calls Int16 example_smoother
              [CallStep; CallStep; CallSetTargetOffset (-9);
               CallUpdateMeasurments (mkInstantVoltageData 3 65535);
               CallStep] in
  let m := max_steering_magnitude (steering_spoof_settings_ s') in
  offsets_bounded s'
  ∧ Z.abs (get_target_green_voltage Int16 s' - get_smoothed_green_voltage s')
    ≤ m
  ∧ Z.abs (get_target_blue_voltage Int16 s' - get_smoothed_blue_voltage s')
    ≤ m
  ∧ is_uint16 (get_target_green_voltage Int16 s')
  ∧ is_uint16 (get_target_blue_voltage Int16 s').
Proof.
  apply (spoofed_voltage_stays_within_magnitude Int16 example_smoother).
  - exact example_smoother_in_range.
  - unfold offsets_bounded. simpl. lia.
  - repeat first [apply Forall_nil_2|apply Forall_cons_2]; simpl;
      unfold is_int16, is_uint16, UINT16_MAX, INT16_MIN, INT16_MAX; simpl;
      lia.
Defined.

(** X21. The slew rate is limited: as long as the counter plus the number of
    [step] calls made does not exceed [steps_per_adjustment_level], the
    current offset does not move, whatever targets are set and whatever is
    measured in between. After a move, which leaves the counter at zero, the
    next move takes more than [steps_per_adjustment_level] steps. *)
Theorem offset_moves_no_faster_than_the_slew_rate (w : IntWidth) (s : t)
    (cs : list SmootherCall) :
  state_in_range s → Forall call_in_range cs →
  steps_spent_at_current_offset_ s + Z.of_nat (count_steps cs)
  ≤ steps_per_adjustment_level (steering_spoof_settings_ s) →
  get_current_offset (do_calls w s cs) = get_current_offset s.
Proof. apply slew_limit. Qed.

(** X21 for a new target and one step on [example_smoother]. *)
Lemma offset_moves_no_faster_than_the_slew_rate_witness :
  get_current_offset
    (do_calls Int16 example_smoother [CallSetTargetOffset (-5); CallStep])
  = get_current_offset example_smoother.
Proof.
  apply (offset_moves_no_faster_than_the_slew_rate Int16 example_smoother
           [CallSetTargetOffset (-5); CallStep]).
  - exact example_smoother_in_range.
  - repeat first [apply Forall_nil_2|apply Forall_cons_2]; simpl;
      unfold is_int16, INT16_MIN, INT16_MAX; lia.
  - simpl. lia.
Defined.

(** X22. With [steps_per_adjustment_level] below [UINT16_MAX], calling
    [step] alone brings the current offset to the target within
    [(steps_per_adjustment_level + 1) * |target - current|] calls, and the
    target is still the same then. *)
Theorem offset_reaches_the_target (w : IntWidth) (s : t) :
  state_in_range s →
  steps_per_adjustment_level (steering_spoof_settings_ s) < UINT16_MAX →
  ∃ k : nat,
    Z.of_nat k
    ≤ (steps_per_adjustment_level (steering_spoof_settings_ s) + 1)
      * Z.abs (target_offset_ (voltage_state_ s)
               - current_offset_ (voltage_state_ s))
    ∧ current_offset_ (voltage_state_ (steps w k s))
      = target_offset_ (voltage_state_ s)
    ∧ target_offset_ (voltage_state_ (steps w k s))
      = target_offset_ (voltage_state_ s).
Proof.
  destruct s as [c [b g cur tgt] n]. intros Hs HP.
  destruct (approach w c b g tgt (Z.to_nat (Z.abs (tgt - cur))) cur n)
    as (k & n' & Hk & Hsteps); [done|done|lia|].
  rewrite Z2Nat.id in Hk by lia.
  exists k. rewrite Hsteps. simpl in *. split; [lia|done].
Qed.

(** X22 on [example_smoother]. *)
Lemma offset_reaches_the_target_witness :
  ∃ k : nat,
    Z.of_nat k ≤ (4 + 1) * Z.abs (5 - 2)
    ∧ current_offset_ (voltage_state_ (steps Int16 k example_smoother)) = 5
    ∧ target_offset_ (voltage_state_ (steps Int16 k example_smoother)) = 5.
Proof.
  apply (offset_reaches_the_target Int16 example_smoother).
  - exact example_smoother_in_range.
  - by vm_compute.
Defined.

(** X23. With [steps_per_adjustment_level] equal to [UINT16_MAX] the
    counter, which saturates there, never passes it: [step] never moves the
    current offset. *)
Theorem offset_is_stuck_at_the_largest_setting (w : IntWidth) (s : t)
    (k : nat) :
  state_in_range s →
  steps_per_adjustment_level (steering_spoof_settings_ s) = UINT16_MAX →
  current_offset_ (voltage_state_ (steps w k s))
  = current_offset_ (voltage_state_ s).
Proof.
  intros Hs HP. induction k as [|k IH]; [done|].
  unfold steps in *. simpl. rewrite <- IH.
  pose proof (steps_preserve_range w k s Hs) as Hk.
  pose proof (steps_settings w k s) as Hc. unfold steps in Hk, Hc.
  destruct (Nat.iter k (step w) s) as [c [b g cur tgt] n].
  rewrite step_in_range by done. simpl in Hc. subst c.
  repeat case_decide; simpl; try done; unfold_ranges; lia.
Qed.

(** X23 for three steps with the counter near its end. *)
Lemma offset_is_stuck_at_the_largest_setting_witness :
  current_offset_
    (voltage_state_
       (steps Int32 3
          (mk (mkSettings 5 UINT16_MAX 30 1)
              (mkSmoothedVoltageState 500 520 2 5) 65534)))
  = 2.
Proof.
  apply (offset_is_stuck_at_the_largest_setting Int32
           (mk (mkSettings 5 UINT16_MAX 30 1)
               (mkSmoothedVoltageState 500 520 2 5) 65534) 3).
  - unfold_ranges. lia.
  - reflexivity.
Defined.

(** X24. A spoofed offset is a pulse. If [steps_per_adjustment_level] and
    the sum of the two step settings, as the comparison of [step] computes
    it, are below [UINT16_MAX], then calling [step] alone brings both
    offsets to zero within a bounded number of calls (the way to the target,
    the time at the target, the way back), and they stay at zero. *)
Theorem offset_returns_to_zero (w : IntWidth) (s : t) :
  state_in_range s →
  let per := steps_per_adjustment_level (steering_spoof_settings_ s) in
  let hold :=
    as_promoted w (steps_at_target_level (steering_spoof_settings_ s)
                   + per) in
  let target := target_offset_ (voltage_state_ s) in
  let current := current_offset_ (voltage_state_ s) in
  per < UINT16_MAX → hold < UINT16_MAX →
  ∃ k : nat,
    Z.of_nat k
    ≤ (per + 1) * (Z.abs (target - current) + Z.abs target) + hold + 1
    ∧ ∀ j : nat, (k ≤ j)%nat →
        current_offset_ (voltage_state_ (steps w j s)) = 0
        ∧ target_offset_ (voltage_state_ (steps w j s)) = 0.
Proof.
  destruct s as [c [b g cur tgt] n]. intros Hs. cbn zeta.
  cbn [steering_spoof_settings_ voltage_state_ target_offset_
    current_offset_].
  intros HP HH.
  destruct (settle w c b g cur tgt n Hs HP HH) as (k & n' & Hk & Hsteps).
  exists k. split; [done|]. intros j Hj.
  replace j with ((j - k) + k)%nat by lia.
  rewrite steps_add, Hsteps.
  pose proof (steps_preserve_range w k _ Hs) as Hs'. rewrite Hsteps in Hs'.
  destruct (rest w c b g (j - k) n' Hs') as (n'' & ->). done.
Qed.

(** X24 on [example_smoother]. *)
Lemma offset_returns_to_zero_witness :
  ∃ k : nat,
    Z.of_nat k ≤ (4 + 1) * (Z.abs (5 - 2) + Z.abs 5) + (30 + 4) + 1
    ∧ ∀ j : nat, (k ≤ j)%nat →
        current_offset_ (voltage_state_ (steps Int32 j example_smoother)) = 0
        ∧ target_offset_ (voltage_state_ (steps Int32 j example_smoother))
          = 0.
Proof.
  apply (offset_returns_to_zero Int32 example_smoother).
  - exact example_smoother_in_range.
  - by vm_compute.
  - by vm_compute.
Defined.

(** X25. [get_target_offset] reads the current offset, not the target: after
    [set_target_offset] it still returns the offset that was current before,
    so a new target within the magnitude that differs from the current
    offset is stored but not returned. *)
Theorem get_target_offset_reads_the_current_offset (w : IntWidth) (s : t)
    (x : Z) :
  get_target_offset (set_target_offset w s x) = get_current_offset s
  ∧ (state_in_range s → is_int16 x →
     - max_steering_magnitude (steering_spoof_settings_ s) ≤ x
       ≤ max_steering_magnitude (steering_spoof_settings_ s) →
     x ≠ current_offset_ (voltage_state_ s) →
     target_offset_ (voltage_state_ (set_target_offset w s x)) = x
     ∧ get_target_offset (set_target_offset w s x) ≠ x).
Proof.
  split.
  { unfold get_target_offset, get_current_offset, set_target_offset.
    by destruct (_ =? _). }
  destruct s as [c [b g cur tgt] n]. intros Hs Hx Hm Hne.
  unfold get_target_offset.
  rewrite set_target_offset_in_range by done. simpl in *.
  split; [lia|done].
Qed.

(** X26. [make_string] refuses a null buffer and a size of zero with [-1]
    and writes nothing. Otherwise it returns the length of the whole text,
    whatever the size, and it never writes the last byte of the buffer: with
    a size of one it writes nothing at all, not even a terminator; with a
    larger size it writes the first [buf_size - 2] characters of the text,
    or all of them if they are fewer, and a terminator after them. *)
Theorem make_string_never_writes_the_last_byte
    (printf_d : Z → list Ascii.ascii) (v : SmoothedVoltageState)
    (b : list Ascii.ascii) (buf_size : Z) :
  0 ≤ buf_size ≤ Z.of_nat (length b) →
  let text :=
    format_4d printf_d (smoothed_blue_voltage_ v)
      (smoothed_green_voltage_ v) (current_offset_ v) (target_offset_ v) in
  make_string printf_d v None buf_size = (None, -1)
  ∧ (buf_size = 0 → make_string printf_d v (Some b) buf_size = (Some b, -1))
  ∧ (1 ≤ buf_size →
     ∃ b', make_string printf_d v (Some b) buf_size
           = (Some b', Z.of_nat (length text))
       ∧ length b' = length b
       ∧ (∀ i : nat, buf_size - 1 ≤ Z.of_nat i → b' !! i = b !! i)
       ∧ (buf_size = 1 → b' = b)
       ∧ (2 ≤ buf_size →
          let k := Nat.min (length text) (Z.to_nat (buf_size - 2)) in
          take k b' = take k text ∧ b' !! k = Some Ascii.zero)).
Proof.
  intros Hsize text. split; [done|]. split.
  { intros ->. done. }
  intros H1. unfold make_string.
  destruct (Z.ltb_spec buf_size 1) as [|_]; [lia|].
  fold text. unfold snprintf. cbn [fst snd].
  destruct (Z.eqb_spec (buf_size - 1) 0) as [H0|H0].
  { exists b. split; [done|]. split; [done|]. split; [done|].
    split; [done|]. lia. }
  set (written := take (Z.to_nat (buf_size - 1 - 1)) text).
  assert (length written = Nat.min (Z.to_nat (buf_size - 2)) (length text))
    as Hw.
  { subst written. rewrite length_take.
    replace (buf_size - 1 - 1) with (buf_size - 2) by lia. done. }
  eexists. split; [done|].
  assert (length written + 1 ≤ length b)%nat as Hfit by lia.
  split.
  { rewrite !length_app, length_drop. simpl. lia. }
  split.
  { intros i Hi.
    rewrite lookup_app_r by lia.
    rewrite lookup_app_r by (simpl; lia).
    rewrite lookup_drop. simpl. f_equal. lia. }
  split; [lia|]. intros H2. cbn zeta. split.
  - rewrite take_app_le by lia. subst written.
    replace (buf_size - 1 - 1) with (buf_size - 2) by lia.
    rewrite take_take. f_equal. lia.
  - rewrite lookup_app_r by lia.
    replace (Nat.min (length text) (Z.to_nat (buf_size - 2))
             - length written)%nat with 0%nat by lia.
    done.
Qed.

(** X26 for a buffer of eight bytes, too short for the text. *)
Lemma make_string_never_writes_the_last_byte_witness :
  let v := mkSmoothedVoltageState 500 520 2 5 in
  let b := replicate 8 (Ascii.ascii_of_nat 120) in
  let text :=
    format_4d (λ z, String.list_ascii_of_string (pretty z)) 500 520 2 5 in
  make_string (λ z, String.list_ascii_of_string (pretty z)) v None 8
  = (None, -1)
  ∧ (8 = 0 →
     make_string (λ z, String.list_ascii_of_string (pretty z)) v (Some b) 8
     = (Some b, -1))
  ∧ (1 ≤ 8 →
     ∃ b', make_string (λ z, String.list_ascii_of_string (pretty z)) v
             (Some b) 8
           = (Some b', Z.of_nat (length text))
       ∧ length b' = length b
       ∧ (∀ i : nat, 8 - 1 ≤ Z.of_nat i → b' !! i = b !! i)
       ∧ (8 = 1 → b' = b)
       ∧ (2 ≤ 8 →
          let k := Nat.min (length text) (Z.to_nat (8 - 2)) in
          take k b' = take k text ∧ b' !! k = Some Ascii.zero)).
Proof.
  apply (make_string_never_writes_the_last_byte
           (λ z, String.list_ascii_of_string (pretty z))
           (mkSmoothedVoltageState 500 520 2 5)
           (replicate 8 (Ascii.ascii_of_nat 120)) 8).
  simpl. lia.
Defined.
